(** * object_storage_poc: the storage-provider contract, the local
    filesystem provider, the provider factory and the test runner.

    The JavaScript sources are embedded shallowly:
    - a JS value is a [jsval]; an object is an ordered property list;
    - an [async] method is a computation in the monad [M St], a state
      monad whose result is either a returned value or a thrown error
      (the state survives a throw, as it does in JavaScript);
    - the operating system's file tree is a [node]; the [fs-extra] calls
      the providers make are the [fs_*] computations of section [Fs];
    - what the runtime and its libraries contribute without being part of
      the repository (MD5, JSON text, the locale's collation, the MIME
      table, date formatting) is the interface [Platform]. *)

From Stdlib Require Import ZArith Ascii String List Lia Sorted Permutation.
From stdpp Require Import base tactics option list strings pretty countable.

Local Open Scope Z_scope.
Local Open Scope list_scope.
Local Set Warnings "-register-all".

(** ** JavaScript values *)

(** [Error] objects.  [statusCode] is the field the cloud SDKs attach to
    their errors; [new Error(msg)] has none. *)
Record js_error := mkError { message : string; statusCode : option Z }.

Definition Error (msg : string) : js_error :=
  {| message := msg; statusCode := None |}.

(** [TypeError]s raised by the runtime itself are [Error]s too. *)
Definition TypeError (msg : string) : js_error := Error msg.

Inductive jsval :=
| JUndefined
| JNull
| JBool (b : bool)
| JNum (n : Z)
| JStr (s : string)
| JArr (items : list jsval)
| JObj (props : list (string * jsval)).

(** Ordered property lists: read a property, assign one (in place when it
    is already there, appended otherwise), delete one. *)
Fixpoint entry_get {V} (k : string) (es : list (string * V)) : option V :=
  match es with
  | [] => None
  | (k', v) :: es' => if String.eqb k k' then Some v else entry_get k es'
  end.

Fixpoint entry_set {V} (k : string) (v : V) (es : list (string * V))
  : list (string * V) :=
  match es with
  | [] => [(k, v)]
  | (k', v') :: es' =>
      if String.eqb k k' then (k, v) :: es' else (k', v') :: entry_set k v es'
  end.

Fixpoint entry_del {V} (k : string) (es : list (string * V))
  : list (string * V) :=
  match es with
  | [] => []
  | (k', v') :: es' =>
      if String.eqb k k' then entry_del k es' else (k', v') :: entry_del k es'
  end.

(** [!v] *)
Definition js_falsy (v : jsval) : bool :=
  match v with
  | JUndefined | JNull | JBool false | JNum 0 | JStr "" => true
  | _ => false
  end.

(** [a || b] *)
Definition js_or (a b : jsval) : jsval := if js_falsy a then b else a.

(** [v.k] for the property names the sources read ([key], [size], [hash],
    [contentType], [metadata], [uploadTime], [basePath], [limit],
    [prefix], ...): none of them is inherited from a prototype, so a
    primitive or an array answers [undefined]; [null] and [undefined]
    throw. *)
Definition js_member (v : jsval) (k : string) : js_error + jsval :=
  match v with
  | JUndefined =>
      inl (TypeError ("Cannot read properties of undefined (reading '" +:+ k +:+ "')"))
  | JNull =>
      inl (TypeError ("Cannot read properties of null (reading '" +:+ k +:+ "')"))
  | JObj ps => inr (default JUndefined (entry_get k ps))
  | _ => inr JUndefined
  end.

(** [{...v}]: the own enumerable properties of [v]. *)
Definition char_props (s : string) : list (string * jsval) :=
  imap (fun i c => (pretty i, JStr (String c ""))) (list_ascii_of_string s).

Definition js_spread (v : jsval) : list (string * jsval) :=
  match v with
  | JObj ps => ps
  | JArr l => imap (fun i x => (pretty i, x)) l
  | JStr s => char_props s
  | _ => []
  end.

(** What [JSON.parse (JSON.stringify v)] gives back: a property whose
    value is [undefined] is dropped, an [undefined] array item becomes
    [null]. *)
Fixpoint json_normalize (v : jsval) : jsval :=
  match v with
  | JArr l =>
      JArr (map (fun x => match x with
                          | JUndefined => JNull
                          | _ => json_normalize x
                          end) l)
  | JObj ps =>
      JObj ((fix props (ps : list (string * jsval)) :=
               match ps with
               | [] => []
               | (k, JUndefined) :: ps' => props ps'
               | (k, x) :: ps' => (k, json_normalize x) :: props ps'
               end) ps)
  | _ => v
  end.

(** ** The runtime and library interface *)

Class Platform := {
  (** [crypto.createHash('md5') ... digest('hex')] of a byte sequence *)
  md5_hex : string -> string;
  (** [mimeTypes.lookup]; [None] is its [false] *)
  mime_lookup : string -> option string;
  (** [JSON.stringify(v, null, 2)] and [JSON.parse] ([None]: it throws) *)
  JSON_stringify : jsval -> string;
  JSON_parse : string -> option jsval;
  JSON_parse_stringify :
    forall v, v <> JUndefined ->
              JSON_parse (JSON_stringify v) = Some (json_normalize v);
  (** what [JSON.parse] returns holds no [undefined] *)
  JSON_parse_normal :
    forall text v, JSON_parse text = Some v -> json_normalize v = v;
  (** [a.localeCompare(b)] *)
  localeCompare : string -> string -> Z;
  localeCompare_total :
    forall a b, localeCompare a b <= 0 \/ localeCompare b a <= 0;
  localeCompare_trans :
    forall a b c, localeCompare a b <= 0 -> localeCompare b c <= 0 ->
                  localeCompare a c <= 0;
  (** [new Date(t).toISOString()] *)
  toISOString : Z -> string;
  (** [(x).toFixed(2)] of the floating-point quotient
      [bytes / millis * 1000 / 1024 / 1024] *)
  megabytes_per_second : Z -> Z -> string
}.

(** ** Computations *)

Inductive outcome (A : Type) :=
| Returned (a : A)
| Thrown (e : js_error).
Arguments Returned {A} a.
Arguments Thrown {A} e.

Definition M (St A : Type) : Type := St -> outcome A * St.

Definition ret {St A} (a : A) : M St A := fun s => (Returned a, s).

Definition throw {St A} (e : js_error) : M St A := fun s => (Thrown e, s).

Definition bind {St A B} (m : M St A) (k : A -> M St B) : M St B :=
  fun s => match m s with
           | (Returned a, s') => k a s'
           | (Thrown e, s') => (Thrown e, s')
           end.

(** [try { m } catch (error) { h error }] *)
Definition try_catch {St A} (m : M St A) (h : js_error -> M St A) : M St A :=
  fun s => match m s with
           | (Returned a, s') => (Returned a, s')
           | (Thrown e, s') => h e s'
           end.

Definition gets {St A} (f : St -> A) : M St A := fun s => (Returned (f s), s).

Definition modify {St} (f : St -> St) : M St unit :=
  fun s => (Returned tt, f s).

(** A synchronous step that may throw. *)
Definition lift_sum {St A} (r : js_error + A) : M St A :=
  match r with inl e => throw e | inr a => ret a end.

Declare Scope js_scope.
Delimit Scope js_scope with js.
Notation "x <~ m ;; k" := (bind m (fun x => k))
  (at level 100, m at next level, right associativity) : js_scope.
Notation "m ;;; k" := (bind m (fun _ => k))
  (at level 100, right associativity) : js_scope.
Local Open Scope js_scope.

(** [catch (error) { throw new Error(`prefix${error.message}`) }] *)
Definition rethrow {St A} (prefix : string) (m : M St A) : M St A :=
  try_catch m (fun e => throw (Error (prefix +:+ message e))).

(** ** Paths

    A path the provider builds with [path.join] is kept resolved: the
    names from the root down, and whether it was written with a trailing
    slash (such a path can only name a directory).  [path.join]
    normalizes its result, so [..] is cancelled lexically there.  A path
    string the caller supplies is not normalized by anyone: the operating
    system looks its names up one by one ([lookup_path] below). *)

Record fpath := mkPath { segs : list string; dir_only : bool }.

Definition is_slash (c : ascii) : bool := Ascii.eqb c "/".

Fixpoint split_slash (s : string) : list string :=
  match s with
  | EmptyString => [EmptyString]
  | String c s' =>
      if is_slash c then EmptyString :: split_slash s'
      else match split_slash s' with
           | x :: xs => String c x :: xs
           | [] => [String c EmptyString]
           end
  end.

Fixpoint ends_with_slash (s : string) : bool :=
  match s with
  | EmptyString => false
  | String c EmptyString => is_slash c
  | String _ s' => ends_with_slash s'
  end.

Definition starts_with_slash (s : string) : bool :=
  match s with
  | String c _ => is_slash c
  | EmptyString => false
  end.

Definition push_seg (stack : list string) (seg : string) : list string :=
  if String.eqb seg "" || String.eqb seg "." then stack
  else if String.eqb seg ".." then removelast stack
  else stack ++ [seg].

Definition norm_onto (stack : list string) (names : list string) : list string :=
  fold_left push_seg names stack.

(** [path.join(base, s)] *)
Definition path_join (base : fpath) (s : string) : fpath :=
  if String.eqb s "" then base
  else {| segs := norm_onto (segs base) (split_slash s);
          dir_only := ends_with_slash s |}.

(** [path.dirname(p)] *)
Definition path_dirname (p : fpath) : fpath :=
  {| segs := removelast (segs p); dir_only := false |}.

(** [path.resolve(s)]: the lexical resolution of a path string against
    the working directory; the empty string names nothing. *)
Definition path_resolve (cwd : list string) (s : string) : option fpath :=
  if String.eqb s "" then None
  else Some {| segs := norm_onto (if starts_with_slash s then [] else cwd)
                                 (split_slash s);
               dir_only := ends_with_slash s |}.

(** [path.dirname(s)] of a path string, as text: trailing slashes and
    the last name are dropped, with the slash before it. *)
Fixpoint drop_while (f : ascii -> bool) (l : list ascii) : list ascii :=
  match l with
  | [] => []
  | c :: l' => if f c then drop_while f l' else l
  end.

Definition path_dirname_text (s : string) : string :=
  match s with
  | EmptyString => "."
  | String first rest =>
      let scanned := drop_while (fun c => negb (is_slash c))
                       (drop_while is_slash (rev (list_ascii_of_string rest))) in
      match scanned with
      | [] => if is_slash first then "/" else "."
      | _ :: [] => if is_slash first then "//" else String first EmptyString
      | _ :: before => String first (string_of_list_ascii (rev before))
      end
  end.

Fixpoint join_with (sep : string) (l : list string) : string :=
  match l with
  | [] => ""
  | [x] => x
  | x :: l' => x +:+ sep +:+ join_with sep l'
  end.

(** The text of a path as [path.join] writes it: a trailing slash is
    kept. *)
Definition render_path (p : fpath) : string :=
  match segs p with
  | [] => "/"
  | l => "/" +:+ join_with "/" l +:+ (if dir_only p then "/" else "")
  end.

(** [path.resolve(p)] as text: it drops a trailing slash. *)
Definition resolved_text (p : fpath) : string :=
  render_path {| segs := segs p; dir_only := false |}.

(** ** The file tree *)

Inductive errno := ENOENT | ENOTDIR | EISDIR | EEXIST | EBUSY | ENAMETOOLONG.

(** The limits of the file system (those of Linux): a name holds at most
    [NAME_MAX] bytes, and the text of a path handed to a system call fewer
    than [PATH_MAX]. *)
Definition NAME_MAX : nat := 255.
Definition PATH_MAX : nat := 4096.

Definition name_fits (s : string) : bool := (String.length s <=? NAME_MAX)%nat.

(** The length of [render_path p]. *)
Fixpoint text_length (p : list string) : nat :=
  match p with
  | [] => 0
  | s :: p' => S (String.length s + text_length p')
  end.

Definition path_fits (p : fpath) : bool :=
  (text_length (segs p) + (if dir_only p then 1 else 0) <? PATH_MAX)%nat.

Arguments name_fits : simpl never.
Arguments path_fits : simpl never.

Inductive node :=
| File (mtime : Z) (data : string)
| Dir (entries : list (string * node)).

Definition is_dir (n : node) : bool :=
  match n with Dir _ => true | File _ _ => false end.

Fixpoint walk (n : node) (p : list string) : errno + node :=
  match p with
  | [] => inr n
  | s :: p' =>
      match n with
      | File _ _ => inl ENOTDIR
      | Dir es =>
          if name_fits s
          then match entry_get s es with
               | None => inl ENOENT
               | Some c => walk c p'
               end
          else inl ENAMETOOLONG
      end
  end.

(** What [lstat] sees at a path. *)
Definition locate (root : node) (p : fpath) : errno + node :=
  if path_fits p
  then match walk root (segs p) with
       | inr (File mt d) => if dir_only p then inl ENOTDIR else inr (File mt d)
       | r => r
       end
  else inl ENAMETOOLONG.

(** Replace (or create) the node at [p]; every proper prefix of [p] is
    expected to be a directory. *)
Fixpoint put_at (n : node) (p : list string) (x : node) : node :=
  match p with
  | [] => x
  | s :: p' =>
      match n with
      | File _ _ => n
      | Dir es =>
          Dir (entry_set s (put_at (default (Dir []) (entry_get s es)) p' x) es)
      end
  end.

(** Unlink the entry at [p] together with everything below it. *)
Fixpoint del_at (n : node) (p : list string) : node :=
  match p with
  | [] => n
  | [s] =>
      match n with
      | File _ _ => n
      | Dir es => Dir (entry_del s es)
      end
  | s :: p' =>
      match n with
      | File _ _ => n
      | Dir es =>
          match entry_get s es with
          | None => n
          | Some c => Dir (entry_set s (del_at c p') es)
          end
      end
  end.

(** [mkdir -p] *)
Fixpoint mkdirp (n : node) (p : list string) : errno + node :=
  match p with
  | [] => match n with Dir _ => inr n | File _ _ => inl EEXIST end
  | s :: p' =>
      match n with
      | File _ _ => inl ENOTDIR
      | Dir es =>
          if name_fits s
          then match mkdirp (default (Dir []) (entry_get s es)) p' with
               | inl e => inl e
               | inr c => inr (Dir (entry_set s c es))
               end
          else inl ENAMETOOLONG
      end
  end.

(** What a [mkdir -p] that failed leaves behind: the directories it had
    created above the name it failed at. *)
Fixpoint mkdirp_left (n : node) (p : list string) : node :=
  match p, n with
  | s :: p', Dir es =>
      if name_fits s
      then Dir (entry_set s (mkdirp_left (default (Dir []) (entry_get s es)) p') es)
      else n
  | _, _ => n
  end.

Fixpoint is_prefix (p q : list string) : bool :=
  match p, q with
  | [], _ => true
  | s :: p', t :: q' => String.eqb s t && is_prefix p' q'
  | _ :: _, [] => false
  end.

Definition same_segs (p q : list string) : bool :=
  is_prefix p q && is_prefix q p.

Definition describe (e : errno) : string :=
  match e with
  | ENOENT => "ENOENT: no such file or directory"
  | ENOTDIR => "ENOTDIR: not a directory"
  | EISDIR => "EISDIR: illegal operation on a directory"
  | EEXIST => "EEXIST: file already exists"
  | EBUSY => "EBUSY: resource busy or locked"
  | ENAMETOOLONG => "ENAMETOOLONG: name too long"
  end.

(** The error a failed system call raises:
    [`${code}: ${text}, ${syscall} '${path}'`]. *)
Definition fs_error (e : errno) (syscall : string) (path : string) : js_error :=
  Error (describe e +:+ ", " +:+ syscall +:+ " '" +:+ path +:+ "'").

(** The node [fs.copy] leaves at a destination that holds [dst], and the
    error it stops at, if any.  Directory items are copied in [readdir]
    order, each after an [lstat] of its source and of its destination;
    what was copied before an error stays. *)
Fixpoint copy_node (mt : Z) (sp dp : fpath) (src : node) (dst : option node)
  : node * option js_error :=
  match src with
  | File _ d =>
      match dst with
      | Some (Dir ds) =>
          (Dir ds,
           Some (Error ("Cannot overwrite directory '" +:+ render_path dp
                        +:+ "' with non-directory '" +:+ render_path sp +:+ "'.")))
      | _ => (File mt d, None)
      end
  | Dir es =>
      match dst with
      | Some (File mt' d') =>
          (File mt' d',
           Some (Error ("Cannot overwrite non-directory '" +:+ render_path dp
                        +:+ "' with directory '" +:+ render_path sp +:+ "'.")))
      | _ =>
          let ds0 := match dst with Some (Dir ds) => ds | _ => [] end in
          let '(ds', err) :=
            (fix items (es : list (string * node)) (ds : list (string * node))
               : list (string * node) * option js_error :=
               match es with
               | [] => (ds, None)
               | (name, child) :: es' =>
                   if negb (path_fits (path_join sp name))
                   then (ds, Some (fs_error ENAMETOOLONG "lstat"
                                            (render_path (path_join sp name))))
                   else if negb (path_fits (path_join dp name))
                   then (ds, Some (fs_error ENAMETOOLONG "lstat"
                                            (render_path (path_join dp name))))
                   else
                     match copy_node mt (path_join sp name) (path_join dp name)
                                     child (entry_get name ds) with
                     | (c, None) => items es' (entry_set name c ds)
                     | (c, Some e) => (entry_set name c ds, Some e)
                     end
               end) es ds0 in
          (Dir ds', err)
      end
  end.

(** ** The world a provider runs in

    The local file tree, the process's working directory, the state of
    the remote service a cloud SDK talks to, and the two sources of
    non-determinism the sources read: the clock ([Date.now()],
    [new Date()], the time stamps of written files) and
    [Math.random().toString(36).substring(2, 8)].  Each is a stream of
    readings with a cursor, so any run of the program is the run of the
    model on some world. *)

Record world (R : Type) := mkWorld {
  w_fs : node;
  w_cwd : list string;
  w_remote : R;
  w_clock : nat -> Z;
  w_ticks : nat;
  w_random : nat -> string;
  w_draws : nat
}.
Arguments mkWorld {R}.
Arguments w_fs {R}.
Arguments w_cwd {R}.
Arguments w_remote {R}.
Arguments w_clock {R}.
Arguments w_ticks {R}.
Arguments w_random {R}.
Arguments w_draws {R}.

Definition with_fs {R} (f : node -> node) (w : world R) : world R :=
  mkWorld (f (w_fs w)) (w_cwd w) (w_remote w)
          (w_clock w) (w_ticks w) (w_random w) (w_draws w).

Definition with_remote {R} (f : R -> R) (w : world R) : world R :=
  mkWorld (w_fs w) (w_cwd w) (f (w_remote w))
          (w_clock w) (w_ticks w) (w_random w) (w_draws w).

Definition Date_now {R} : M (world R) Z :=
  fun w => (Returned (w_clock w (w_ticks w)),
            mkWorld (w_fs w) (w_cwd w) (w_remote w)
                    (w_clock w) (S (w_ticks w)) (w_random w) (w_draws w)).

Definition Math_random36 {R} : M (world R) string :=
  fun w => (Returned (w_random w (w_draws w)),
            mkWorld (w_fs w) (w_cwd w) (w_remote w)
                    (w_clock w) (w_ticks w) (w_random w) (S (w_draws w))).

(** ** The [fs-extra] calls *)

Record stats := mkStats { st_isDirectory : bool; st_size : Z; st_mtime : Z }.

Definition byte_length (s : string) : Z := Z.of_nat (String.length s).

(** A directory's own size and time stamp depend on the file system; no
    caller in the repository distinguishes their values. *)
Definition stats_of (n : node) : stats :=
  match n with
  | File mt d => mkStats false (byte_length d) mt
  | Dir _ => mkStats true 4096 0
  end.

Section Fs.
Context {R : Type}.
Local Abbreviation W := (world R).

(** [fs.pathExists], [fs.existsSync]: any failure to reach the path is
    [false]. *)
Definition fs_pathExists (p : fpath) : M W bool :=
  gets (fun w => match locate (w_fs w) p with
                 | inr _ => true
                 | inl _ => false
                 end).

(** [fs.ensureDir]: a path whose text is too long is refused as a whole;
    a name that is too long is met after the directories above it have
    been created. *)
Definition fs_ensureDir (p : fpath) : M W unit :=
  root <~ gets w_fs ;;
  if path_fits p
  then match mkdirp root (segs p) with
       | inl e => modify (with_fs (fun r => mkdirp_left r (segs p))) ;;;
                  throw (fs_error e "mkdir" (render_path p))
       | inr root' => modify (with_fs (fun _ => root'))
       end
  else throw (fs_error ENAMETOOLONG "mkdir" (render_path p)).

(** [fs.writeFile]: the parent directory must exist; an existing file is
    replaced. *)
Definition fs_writeFile (p : fpath) (data : string) : M W unit :=
  root <~ gets w_fs ;;
  let store :=
    (t <~ Date_now ;;
     modify (with_fs (fun r => put_at r (segs p) (File t data)))) in
  let fail e := throw (fs_error e "open" (render_path p)) in
  match locate root p with
  | inr (Dir _) => fail EISDIR
  | inr (File _ _) => store
  | inl ENOENT =>
      match walk root (removelast (segs p)) with
      | inr (Dir _) => if dir_only p then fail EISDIR else store
      | inr (File _ _) => fail ENOTDIR
      | inl e => fail e
      end
  | inl e => fail e
  end.

(** [fs.readFile] *)
Definition fs_readFile (p : fpath) : M W string :=
  root <~ gets w_fs ;;
  match locate root p with
  | inr (File _ d) => ret d
  | inr (Dir _) => throw (fs_error EISDIR "read" (render_path p))
  | inl e => throw (fs_error e "open" (render_path p))
  end.

(** [fs.stat] *)
Definition fs_stat (p : fpath) : M W stats :=
  root <~ gets w_fs ;;
  match locate root p with
  | inr n => ret (stats_of n)
  | inl e => throw (fs_error e "stat" (render_path p))
  end.

(** [fs.remove]: a path that does not exist is left alone; removing the
    root empties it and then fails on the root itself. *)
Definition fs_remove (p : fpath) : M W unit :=
  root <~ gets w_fs ;;
  match locate root p with
  | inl ENOENT => ret tt
  | inl e => throw (fs_error e "lstat" (render_path p))
  | inr _ =>
      match segs p with
      | [] => modify (with_fs (fun _ => Dir [])) ;;;
              throw (fs_error EBUSY "rmdir" (render_path p))
      | _ => modify (with_fs (fun r => del_at r (segs p)))
      end
  end.

(** The error of a failed [copyFile]:
    [`${code}: ${text}, copyfile '${src}' -> '${dest}'`]. *)
Definition copyfile_error (e : errno) (src dest : fpath) : js_error :=
  Error (describe e +:+ ", copyfile '" +:+ render_path src +:+ "' -> '"
         +:+ render_path dest +:+ "'").

(** [fs.copy]: source and destination are checked first (the source
    exists, is not the destination, and is not a directory holding the
    destination), the destination's parent is created, then the source is
    copied over the destination, whose own name is looked up only now when
    its parent was not there before. *)
Definition fs_copy (src dest : fpath) : M W unit :=
  root <~ gets w_fs ;;
  match locate root src with
  | inl e => throw (fs_error e "lstat" (render_path src))
  | inr s =>
      dst <~ match locate root dest with
             | inr d => ret (Some d)
             | inl ENOENT => ret None
             | inl e => throw (fs_error e "lstat" (render_path dest))
             end ;;
      if (match dst with Some _ => same_segs (segs src) (segs dest) | None => false end)
      then throw (Error "Source and destination must not be the same.")
      else if is_dir s && is_prefix (segs src) (segs dest)
      then throw (Error ("Cannot copy '" +:+ render_path src
                         +:+ "' to a subdirectory of itself, '"
                         +:+ render_path dest +:+ "'."))
      else
        fs_ensureDir (path_dirname dest) ;;;
        if negb (is_dir s) && dir_only dest
           && (match dst with None => true | Some _ => false end)
        then throw (copyfile_error EISDIR src dest)
        else if negb (name_fits (List.last (segs dest) EmptyString))
        then throw (if is_dir s
                    then fs_error ENAMETOOLONG "mkdir" (render_path dest)
                    else copyfile_error ENAMETOOLONG src dest)
        else
          t <~ Date_now ;;
          let '(x, err) := copy_node t src dest s dst in
          modify (with_fs (fun r => put_at r (segs dest) x)) ;;;
          match err with
          | Some e => throw e
          | None => ret tt
          end
  end.

End Fs.

(** *** Path strings given by the caller

    The operating system takes the names of a path string in turn, from
    the root or from the working directory.  Each name, [.] and [..]
    included, is looked up in a directory that has to be there: where
    [path.join] cancels [missing/..], the system fails with [ENOENT], and
    on [file/..] with [ENOTDIR].  The tree holds no symbolic links, so
    where every lookup succeeds the place reached is the one
    [path.resolve] computes. *)

Fixpoint reach (root : node) (stack names : list string) : errno + list string :=
  match names with
  | [] => inr stack
  | name :: rest =>
      if String.eqb name "" then reach root stack rest
      else match walk root stack with
           | inr (Dir _) => reach root (push_seg stack name) rest
           | inr (File _ _) => inl ENOTDIR
           | inl e => inl e
           end
  end.

Definition start_of (cwd : list string) (s : string) : list string :=
  if starts_with_slash s then [] else cwd.

(** The place a path string names, up to its last name, which need not
    be there. *)
Definition lookup_path (root : node) (cwd : list string) (s : string)
  : errno + fpath :=
  if String.eqb s "" then inl ENOENT
  else if (PATH_MAX <=? String.length s)%nat then inl ENAMETOOLONG
  else match reach root (start_of cwd s) (split_slash s) with
       | inl e => inl e
       | inr q => inr {| segs := q; dir_only := ends_with_slash s |}
       end.

(** [mkdir -p] of a path string: the names are taken in turn, a missing
    one is created, and what was created before an error stays.  A
    regular file in the way is [ENOTDIR] when names follow it and
    [EEXIST] when it is the last. *)
Fixpoint mkdirp_names (root : node) (stack names : list string)
  : node * option errno :=
  match names with
  | [] => (root, None)
  | name :: rest =>
      if String.eqb name "" then mkdirp_names root stack rest
      else
        match walk root stack with
        | inr (Dir _) =>
            if String.eqb name "." then mkdirp_names root stack rest
            else if String.eqb name ".."
            then mkdirp_names root (removelast stack) rest
            else
              match walk root (stack ++ [name]) with
              | inr (Dir _) => mkdirp_names root (stack ++ [name]) rest
              | inr (File _ _) =>
                  (root,
                   Some (if existsb (fun n => negb (String.eqb n "")) rest
                         then ENOTDIR else EEXIST))
              | inl ENOENT =>
                  mkdirp_names (put_at root (stack ++ [name]) (Dir []))
                               (stack ++ [name]) rest
              | inl e => (root, Some e)
              end
        | inr (File _ _) => (root, Some ENOTDIR)
        | inl e => (root, Some e)
        end
  end.

Section FsText.
Context {R : Type}.
Local Abbreviation W := (world R).

(** A path string handed to a system call; the error shows it as it was
    written. *)
Definition user_path (syscall : string) (s : string) : M W fpath :=
  root <~ gets w_fs ;;
  cwd <~ gets w_cwd ;;
  match lookup_path root cwd s with
  | inr p => ret p
  | inl e => throw (fs_error e syscall s)
  end.

(** [fs.existsSync(s)]: any failure is [false]. *)
Definition fs_existsSync (s : string) : M W bool :=
  root <~ gets w_fs ;;
  cwd <~ gets w_cwd ;;
  match lookup_path root cwd s with
  | inr p => fs_pathExists p
  | inl _ => ret false
  end.

(** [fs.ensureDir(s)] of a path string. *)
Definition fs_ensureDir_text (s : string) : M W unit :=
  root <~ gets w_fs ;;
  cwd <~ gets w_cwd ;;
  if String.eqb s "" then throw (fs_error ENOENT "mkdir" s)
  else if (PATH_MAX <=? String.length s)%nat
  then throw (fs_error ENAMETOOLONG "mkdir" s)
  else
    let '(root', err) := mkdirp_names root (start_of cwd s) (split_slash s) in
    modify (with_fs (fun _ => root')) ;;;
    match err with
    | Some e => throw (fs_error e "mkdir" s)
    | None => ret tt
    end.

End FsText.

(** ** The provider contract (src/providers/base.js)

    Results are the object literals the providers return, one record per
    shape; a field whose value is handed through from untyped data (a
    parsed sidecar, an SDK response) stays a [jsval].  A [Date] is its
    epoch milliseconds. *)

Inductive payload :=
| Buffer (bytes : string)
| Text (s : string).

Record UploadResult := mkUploadResult {
  ur_success : bool; ur_key : string; ur_location : string;
  ur_etag : jsval; ur_size : Z; ur_uploadTime : Z; ur_provider : string }.

Record DownloadResult := mkDownloadResult {
  dr_success : bool; dr_key : string; dr_destinationPath : string;
  dr_size : Z; dr_downloadTime : Z; dr_provider : string }.

Record ObjectMetadata := mkObjectMetadata {
  om_key : string; om_size : jsval; om_lastModified : Z; om_etag : jsval;
  om_contentType : jsval; om_metadata : jsval; om_provider : string }.

Record ListOptions := mkListOptions {
  lo_prefix : option string; lo_limit : option Z }.

Record ListedObject := mkListedObject {
  ob_key : string; ob_size : jsval; ob_lastModified : Z; ob_etag : jsval;
  ob_contentType : jsval }.

Record ListPage := mkListPage {
  lp_objects : list ListedObject; lp_isTruncated : bool; lp_provider : string }.

Record DeleteResult := mkDeleteResult {
  del_success : bool; del_key : string; del_provider : string }.

Record UrlOptions := mkUrlOptions {
  uo_method : option string; uo_expires : option Z }.

Record SignedUrl := mkSignedUrl {
  su_url : string; su_expires : Z; su_provider : string }.

Record CopyResult := mkCopyResult {
  cr_success : bool; cr_sourceKey : string; cr_destinationKey : string;
  cr_provider : string }.

Record Health := mkHealth {
  h_status : string; h_provider : string; h_error : option string;
  h_timestamp : string }.

(** An instance of a provider class: its name and its methods. *)
Record Provider (R : Type) := mkProvider {
  p_name : string;
  p_initialize : M (world R) unit;
  p_upload : string -> payload -> jsval -> M (world R) UploadResult;
  p_download : string -> string -> M (world R) DownloadResult;
  p_getMetadata : string -> M (world R) ObjectMetadata;
  p_list : ListOptions -> M (world R) ListPage;
  p_delete : string -> M (world R) DeleteResult;
  p_exists : string -> M (world R) bool;
  p_getSignedUrl : string -> UrlOptions -> M (world R) SignedUrl;
  p_copy : string -> string -> M (world R) CopyResult;
  p_cleanup : M (world R) unit
}.
Arguments mkProvider {R}.
Arguments p_name {R}.
Arguments p_initialize {R}.
Arguments p_upload {R}.
Arguments p_download {R}.
Arguments p_getMetadata {R}.
Arguments p_list {R}.
Arguments p_delete {R}.
Arguments p_exists {R}.
Arguments p_getSignedUrl {R}.
Arguments p_copy {R}.
Arguments p_cleanup {R}.

Module BaseStorageProvider.
Section Base.
Context {P : Platform} {R : Type}.

(** [getHealth()] *)
Definition getHealth (self : Provider R) : M (world R) Health :=
  try_catch
    (p_list self (mkListOptions None (Some 1)) ;;;
     now <~ Date_now ;;
     ret (mkHealth "healthy" (p_name self) None (toISOString now)))
    (fun error =>
       now <~ Date_now ;;
       ret (mkHealth "unhealthy" (p_name self) (Some (message error))
                     (toISOString now))).

(** [cleanup()]: the base implementation does nothing. *)
Definition cleanup : M (world R) unit := ret tt.

(** [validateConfig()] *)
Definition validateConfig (config : jsval) : M (world R) unit :=
  if js_falsy config then throw (Error "Configuration is required")
  else ret tt.

(** [generateTestKey(prefix)] *)
Definition generateTestKey (prefix : string) : M (world R) string :=
  timestamp <~ Date_now ;;
  random <~ Math_random36 ;;
  ret (prefix +:+ "-" +:+ pretty timestamp +:+ "-" +:+ random).

End Base.
End BaseStorageProvider.

(** ** The local provider (src/providers/local.js) *)

Fixpoint ends_with (suffix s : string) : bool :=
  String.eqb suffix s
  || match s with
     | EmptyString => false
     | String _ s' => ends_with suffix s'
     end.

Definition starts_with (prefix s : string) : bool := String.prefix prefix s.

(** The character class [[a-zA-Z0-9._/-]]. *)
Definition safe_char (c : ascii) : bool :=
  let n := nat_of_ascii c in
  ((97 <=? n) && (n <=? 122))%nat
  || ((65 <=? n) && (n <=? 90))%nat
  || ((48 <=? n) && (n <=? 57))%nat
  || Ascii.eqb c "." || Ascii.eqb c "_" || Ascii.eqb c "/" || Ascii.eqb c "-".

(** [key.replace(/[^a-zA-Z0-9._\/-]/g, '_')] *)
Fixpoint sanitize (key : string) : string :=
  match key with
  | EmptyString => EmptyString
  | String c key' => String (if safe_char c then c else "_"%char) (sanitize key')
  end.

(** The [.json] files below a directory, in [readdir] order, directories
    entered as they are met ([_findMetadataFiles] on the tree at [dir]). *)
Fixpoint find_json (dir : fpath) (n : node) : list fpath :=
  match n with
  | File _ _ => []
  | Dir es =>
      (fix items (es : list (string * node)) : list fpath :=
         match es with
         | [] => []
         | (item, child) :: es' =>
             let fullPath := path_join dir item in
             (if is_dir child then find_json fullPath child
              else if ends_with ".json" item then [fullPath]
              else [])
             ++ items es'
         end) es
  end.

(** [objects.sort((a, b) => cmp(a, b))]: the stable sort. *)
Fixpoint insert_by {A} (le : A -> A -> bool) (x : A) (l : list A) : list A :=
  match l with
  | [] => [x]
  | y :: l' => if le x y then x :: l else y :: insert_by le x l'
  end.

Definition sort_by {A} (le : A -> A -> bool) (l : list A) : list A :=
  fold_right (insert_by le) [] l.

Module LocalStorageProvider.
Section Local.
Context {P : Platform} {R : Type}.
Local Abbreviation W := (world R).

Record t := mkLocal {
  config : jsval;
  basePath : fpath;
  metadataPath : fpath
}.

Definition name : string := "local".

(** [constructor(config)] *)
Definition new (config : jsval) : M W t :=
  configured <~ lift_sum (js_member config "basePath") ;;
  cwd <~ gets w_cwd ;;
  base <~ (if js_falsy configured
           then ret (path_join (mkPath cwd false) "local-storage")
           else match configured with
                | JStr s => ret (default (mkPath cwd false) (path_resolve cwd s))
                | _ => throw (TypeError "The path argument must be of type string")
                end) ;;
  ret (mkLocal config base (path_join base ".metadata")).

Definition _getFilePath (self : t) (key : string) : fpath :=
  let sanitizedKey := sanitize key in
  path_join (basePath self) sanitizedKey.

Definition _getMetadataPath (self : t) (key : string) : fpath :=
  let sanitizedKey := sanitize key in
  path_join (metadataPath self) (sanitizedKey +:+ ".json").

(** [_calculateHash(filePath)]: the digest of the bytes the read stream
    delivers. *)
Definition _calculateHash (filePath : fpath) : M W string :=
  root <~ gets w_fs ;;
  match locate root filePath with
  | inr (File _ d) => ret (md5_hex d)
  | inr (Dir _) => throw (fs_error EISDIR "read" (render_path filePath))
  | inl e => throw (fs_error e "open" (render_path filePath))
  end.

(** [_findMetadataFiles(dir)] *)
Definition _findMetadataFiles (dir : fpath) : M W (list fpath) :=
  root <~ gets w_fs ;;
  match locate root dir with
  | inr (Dir es) => ret (find_json dir (Dir es))
  | inr (File _ _) => throw (fs_error ENOTDIR "scandir" (render_path dir))
  | inl e => throw (fs_error e "scandir" (render_path dir))
  end.

Definition initialize (self : t) : M W unit :=
  BaseStorageProvider.validateConfig (config self) ;;;
  rethrow "Failed to initialize local storage: "
    (fs_ensureDir (basePath self) ;;;
     fs_ensureDir (metadataPath self)).

Definition octet_stream : jsval := JStr "application/octet-stream".

Definition upload (self : t) (key : string) (data : payload) (options : jsval)
  : M W UploadResult :=
  let options := match options with JUndefined => JObj [] | _ => options end in
  startTime <~ Date_now ;;
  rethrow "Local storage upload failed: "
    (let filePath := _getFilePath self key in
     let metadataFile := _getMetadataPath self key in
     fs_ensureDir (path_dirname filePath) ;;;
     contentType <~ lift_sum (js_member options "contentType") ;;
     isPath <~ match data with
               | Text s => fs_existsSync s
               | Buffer _ => ret false
               end ;;
     written <~
       (if isPath
        then
          let s := match data with Text s => s | Buffer b => b end in
          source <~ user_path "lstat" s ;;
          fs_copy source filePath ;;;
          stats <~ fs_stat filePath ;;
          ret (st_size stats,
               if js_falsy contentType
               then match mime_lookup s with
                    | Some ty => JStr ty
                    | None => octet_stream
                    end
               else contentType)
        else
          let buffer := match data with Text s => s | Buffer b => b end in
          fs_writeFile filePath buffer ;;;
          ret (byte_length buffer, contentType)) ;;
     let '(contentLength, contentType) := written in
     hash <~ _calculateHash filePath ;;
     userMetadata <~ lift_sum (js_member options "metadata") ;;
     uploadTime <~ Date_now ;;
     let metadata :=
       JObj [("key", JStr key);
             ("size", JNum contentLength);
             ("contentType", js_or contentType octet_stream);
             ("hash", JStr hash);
             ("uploadTime", JStr (toISOString uploadTime));
             ("metadata", js_or userMetadata (JObj []))] in
     fs_writeFile metadataFile (JSON_stringify metadata) ;;;
     endTime <~ Date_now ;;
     ret (mkUploadResult true key (render_path filePath) (JStr hash)
                         contentLength (endTime - startTime) name)).

Definition not_found (key : string) : js_error :=
  Error ("Object '" +:+ key +:+ "' not found").

Definition download (self : t) (key : string) (destinationPath : string)
  : M W DownloadResult :=
  startTime <~ Date_now ;;
  rethrow "Local storage download failed: "
    (let filePath := _getFilePath self key in
     exists_ <~ fs_pathExists filePath ;;
     if negb exists_ then throw (not_found key)
     else
       fs_ensureDir_text (path_dirname_text destinationPath) ;;;
       destination <~ user_path "lstat" destinationPath ;;
       fs_copy filePath destination ;;;
       stats <~ fs_stat destination ;;
       endTime <~ Date_now ;;
       ret (mkDownloadResult true key destinationPath (st_size stats)
                             (endTime - startTime) name)).

(** [JSON.parse(text)] *)
Definition parse_json (text : string) : M W jsval :=
  match JSON_parse text with
  | Some v => ret v
  | None => throw (Error "Unexpected token in JSON")
  end.

Definition getMetadata (self : t) (key : string) : M W ObjectMetadata :=
  rethrow "Failed to get metadata: "
    (let metadataFile := _getMetadataPath self key in
     let filePath := _getFilePath self key in
     exists_ <~ fs_pathExists metadataFile ;;
     if negb exists_ then throw (not_found key)
     else
       text <~ fs_readFile metadataFile ;;
       metadata <~ parse_json text ;;
       stats <~ fs_stat filePath ;;
       size <~ lift_sum (js_member metadata "size") ;;
       hash <~ lift_sum (js_member metadata "hash") ;;
       contentType <~ lift_sum (js_member metadata "contentType") ;;
       userMetadata <~ lift_sum (js_member metadata "metadata") ;;
       ret (mkObjectMetadata key size (st_mtime stats) hash contentType
                             (js_or userMetadata (JObj [])) name)).

(** A value used as a string receiver ([key.startsWith], [key.replace]):
    anything but a string has no such method. *)
Definition string_receiver (method : string) (v : jsval) : js_error + string :=
  match v with
  | JStr s => inr s
  | JUndefined =>
      inl (TypeError ("Cannot read properties of undefined (reading '"
                      +:+ method +:+ "')"))
  | JNull =>
      inl (TypeError ("Cannot read properties of null (reading '"
                      +:+ method +:+ "')"))
  | _ => inl (TypeError (method +:+ " is not a function"))
  end.

(** [options.limit || 1000] *)
Definition effective_limit (options : ListOptions) : Z :=
  match lo_limit options with
  | Some n => if n =? 0 then 1000 else n
  | None => 1000
  end.

(** [options.prefix] is truthy *)
Definition active_prefix (options : ListOptions) : option string :=
  match lo_prefix options with
  | Some "" => None
  | o => o
  end.

(** The body of the [try] inside the loop of [list]: [None] is the
    [continue] of a key outside the prefix. *)
Definition list_entry (self : t) (options : ListOptions) (metadataFile : fpath)
  : M W (option ListedObject) :=
  text <~ fs_readFile metadataFile ;;
  metadata <~ parse_json text ;;
  mkey <~ lift_sum (js_member metadata "key") ;;
  skip <~ match active_prefix options with
          | Some prefix =>
              k <~ lift_sum (string_receiver "startsWith" mkey) ;;
              ret (negb (starts_with prefix k))
          | None => ret false
          end ;;
  if skip : bool then ret None
  else
    k <~ lift_sum (string_receiver "replace" mkey) ;;
    let filePath := _getFilePath self k in
    stats <~ fs_stat filePath ;;
    size <~ lift_sum (js_member metadata "size") ;;
    hash <~ lift_sum (js_member metadata "hash") ;;
    contentType <~ lift_sum (js_member metadata "contentType") ;;
    ret (Some (mkListedObject k size (st_mtime stats) hash contentType)).

(** The [for ... of metadataFiles] loop with its [objects] and [count]. *)
Fixpoint list_loop (self : t) (options : ListOptions) (limit : Z)
  (metadataFiles : list fpath) (objects : list ListedObject) (count : Z)
  : M W (list ListedObject * Z) :=
  match metadataFiles with
  | [] => ret (objects, count)
  | metadataFile :: rest =>
      if count >=? limit then ret (objects, count)
      else
        step <~ try_catch (list_entry self options metadataFile)
                          (fun _ => ret None) ;;
        match step with
        | Some o => list_loop self options limit rest (objects ++ [o]) (count + 1)
        | None => list_loop self options limit rest objects count
        end
  end.

Definition key_le (a b : ListedObject) : bool :=
  localeCompare (ob_key a) (ob_key b) <=? 0.

Definition list (self : t) (options : ListOptions) : M W ListPage :=
  rethrow "Local storage list failed: "
    (metadataFiles <~ _findMetadataFiles (metadataPath self) ;;
     let limit := effective_limit options in
     r <~ list_loop self options limit metadataFiles [] 0 ;;
     let '(objects, count) := r in
     ret (mkListPage (sort_by key_le objects) (count >=? limit) name)).

Definition delete (self : t) (key : string) : M W DeleteResult :=
  rethrow "Local storage delete failed: "
    (let filePath := _getFilePath self key in
     let metadataFile := _getMetadataPath self key in
     fs_remove filePath ;;;
     fs_remove metadataFile ;;;
     ret (mkDeleteResult true key name)).

Definition exists_ (self : t) (key : string) : M W bool :=
  rethrow "Failed to check existence: "
    (let filePath := _getFilePath self key in
     fs_pathExists filePath).

Definition getSignedUrl (self : t) (key : string) (options : UrlOptions)
  : M W SignedUrl :=
  let filePath := _getFilePath self key in
  exists_ <~ fs_pathExists filePath ;;
  if negb exists_ then throw (not_found key)
  else
    now <~ Date_now ;;
    let expires := match uo_expires options with
                   | Some n => if n =? 0 then 3600 else n
                   | None => 3600
                   end in
    ret (mkSignedUrl ("file://" +:+ resolved_text filePath)
                     (now + expires * 1000) name).

Definition copy (self : t) (sourceKey destinationKey : string)
  : M W CopyResult :=
  rethrow "Local storage copy failed: "
    (let sourceFilePath := _getFilePath self sourceKey in
     let destinationFilePath := _getFilePath self destinationKey in
     let sourceMetadataPath := _getMetadataPath self sourceKey in
     let destinationMetadataPath := _getMetadataPath self destinationKey in
     exists_ <~ fs_pathExists sourceFilePath ;;
     if negb exists_
     then throw (Error ("Source object '" +:+ sourceKey +:+ "' not found"))
     else
       fs_ensureDir (path_dirname destinationFilePath) ;;;
       fs_copy sourceFilePath destinationFilePath ;;;
       text <~ fs_readFile sourceMetadataPath ;;
       sourceMetadata <~ parse_json text ;;
       uploadTime <~ Date_now ;;
       let destinationMetadata :=
         JObj (entry_set "uploadTime" (JStr (toISOString uploadTime))
                 (entry_set "key" (JStr destinationKey)
                    (js_spread sourceMetadata))) in
       fs_writeFile destinationMetadataPath (JSON_stringify destinationMetadata) ;;;
       ret (mkCopyResult true sourceKey destinationKey name)).

(** The instance as the contract sees it. *)
Definition provider (self : t) : Provider R :=
  mkProvider name (initialize self) (upload self) (download self)
             (getMetadata self) (list self) (delete self) (exists_ self)
             (getSignedUrl self) (copy self) BaseStorageProvider.cleanup.

End Local.
End LocalStorageProvider.

(** ** A reference platform

    One implementation of [Platform], used to run the model on concrete
    worlds.  JSON text is replaced by an injective binary code of the
    normalized value, the digest by a tagged copy of the bytes, the
    collation by byte-wise comparison. *)

Module ReferencePlatform.

Definition leaf : Type := (bool + Z + string)%type.

Fixpoint to_tree (v : jsval) : gen_tree leaf :=
  match v with
  | JUndefined => GenNode 0 []
  | JNull => GenNode 1 []
  | JBool b => GenLeaf (inl (inl b))
  | JNum n => GenLeaf (inl (inr n))
  | JStr s => GenLeaf (inr s)
  | JArr l => GenNode 2 (map to_tree l)
  | JObj ps =>
      GenNode 3 (map (fun kv => GenNode 4 [GenLeaf (inr (fst kv)); to_tree (snd kv)]) ps)
  end.

Fixpoint of_tree (t : gen_tree leaf) : jsval :=
  match t with
  | GenLeaf (inl (inl b)) => JBool b
  | GenLeaf (inl (inr n)) => JNum n
  | GenLeaf (inr s) => JStr s
  | GenNode 0 _ => JUndefined
  | GenNode 1 _ => JNull
  | GenNode 2 ts => JArr (map of_tree ts)
  | GenNode 3 ts =>
      JObj (map (fun t' => match t' with
                           | GenNode _ [GenLeaf (inr k); tv] => (k, of_tree tv)
                           | _ => (EmptyString, JUndefined)
                           end) ts)
  | GenNode _ _ => JUndefined
  end.

Fixpoint pos_text (p : positive) : string :=
  match p with
  | xH => EmptyString
  | xO p' => String "0" (pos_text p')
  | xI p' => String "1" (pos_text p')
  end.

Fixpoint text_pos (s : string) : option positive :=
  match s with
  | EmptyString => Some xH
  | String c s' =>
      match text_pos s' with
      | None => None
      | Some p =>
          if Ascii.eqb c "0" then Some (xO p)
          else if Ascii.eqb c "1" then Some (xI p)
          else None
      end
  end.

Definition compare_bytes (a b : string) : Z :=
  if String.leb a b then (if String.leb b a then 0 else -1) else 1.

Lemma jsval_nested_ind (Q : jsval -> Prop) :
  Q JUndefined -> Q JNull ->
  (forall b, Q (JBool b)) -> (forall n, Q (JNum n)) -> (forall s, Q (JStr s)) ->
  (forall l, Forall Q l -> Q (JArr l)) ->
  (forall ps, Forall (fun kv => Q (snd kv)) ps -> Q (JObj ps)) ->
  forall v, Q v.
Proof.
  intros HU HN HB HZ HS HA HO.
  fix IH 1. intros [ | | b | n | s | l | ps].
  - exact HU.
  - exact HN.
  - apply HB.
  - apply HZ.
  - apply HS.
  - apply HA. induction l as [|x l IHl]; constructor; [apply IH | exact IHl].
  - apply HO. induction ps as [|[k x] ps IHps]; constructor; [apply IH | exact IHps].
Qed.

Lemma of_to_tree v : of_tree (to_tree v) = v.
Proof.
  induction v using jsval_nested_ind; simpl; try reflexivity.
  - f_equal. rewrite map_map. induction H; simpl; [reflexivity|]. congruence.
  - f_equal. rewrite map_map.
    induction H as [|[k x] ps Hx _ IH]; simpl in *; [reflexivity|]. congruence.
Qed.

#[local] Instance jsval_eq_dec : EqDecision jsval.
Proof.
  intros x y. destruct (decide (to_tree x = to_tree y)) as [E|E].
  - left. rewrite <- (of_to_tree x), <- (of_to_tree y), E. reflexivity.
  - right. congruence.
Defined.

#[local] Instance jsval_countable : Countable jsval :=
  inj_countable' to_tree of_tree of_to_tree.

Definition stringify (v : jsval) : string := pos_text (encode (json_normalize v)).

Lemma json_normalize_idempotent v : json_normalize (json_normalize v) = json_normalize v.
Proof.
  induction v using jsval_nested_ind; try reflexivity.
  - simpl. f_equal. rewrite map_map.
    induction H as [|x l Hx _ IH]; [reflexivity|].
    cbn [map]. f_equal; [|exact IH].
    destruct x; try reflexivity; exact Hx.
  - cbn [json_normalize]. f_equal.
    induction H as [|[k x] ps Hx _ IH]; [reflexivity|].
    cbn [snd] in Hx.
    destruct x; try exact IH; cbn [json_normalize] in *;
      try (f_equal; exact IH).
    + injection Hx as Hx. rewrite Hx. f_equal. exact IH.
    + injection Hx as Hx. rewrite Hx. f_equal. exact IH.
Qed.

Definition parse (s : string) : option jsval :=
  match text_pos s with
  | Some p => json_normalize <$> decode p
  | None => None
  end.

Lemma text_pos_text p : text_pos (pos_text p) = Some p.
Proof. induction p; simpl; rewrite ?IHp; reflexivity. Qed.

Lemma parse_stringify v :
  v <> JUndefined -> parse (stringify v) = Some (json_normalize v).
Proof.
  intros _. unfold parse, stringify. rewrite text_pos_text, decode_encode.
  simpl. now rewrite json_normalize_idempotent.
Qed.

Lemma parse_normal text v : parse text = Some v -> json_normalize v = v.
Proof.
  unfold parse. destruct (text_pos text) as [p|]; [|discriminate].
  destruct (decode p) as [x|]; [|discriminate].
  simpl. intros H. injection H as <-. apply json_normalize_idempotent.
Qed.

Lemma compare_bytes_le a b : compare_bytes a b <= 0 <-> String.leb a b = true.
Proof.
  unfold compare_bytes. destruct (String.leb a b), (String.leb b a); split; intros; try lia; congruence.
Qed.

Lemma compare_bytes_total a b : compare_bytes a b <= 0 \/ compare_bytes b a <= 0.
Proof.
  rewrite !compare_bytes_le. destruct (String.leb_total a b); auto.
Qed.

Lemma compare_bytes_trans a b c :
  compare_bytes a b <= 0 -> compare_bytes b c <= 0 -> compare_bytes a c <= 0.
Proof.
  rewrite !compare_bytes_le. intros H1 H2.
  apply Is_true_true. apply Is_true_true in H1, H2.
  exact (transitivity (R := String.le) H1 H2).
Qed.

Definition platform : Platform :=
  {| md5_hex := fun d => "md5:" +:+ d;
     mime_lookup := fun _ => None;
     JSON_stringify := stringify;
     JSON_parse := parse;
     JSON_parse_stringify := parse_stringify;
     JSON_parse_normal := parse_normal;
     localeCompare := compare_bytes;
     localeCompare_total := compare_bytes_total;
     localeCompare_trans := compare_bytes_trans;
     toISOString := fun t => pretty t;
     megabytes_per_second := fun bytes millis => pretty (bytes * 1000 / millis / 1048576) |}.

End ReferencePlatform.

(** [required.filter(field => !config[field])] *)
Fixpoint missing_fields (config : jsval) (required : list string)
  : js_error + list string :=
  match required with
  | [] => inr []
  | field :: rest =>
      match js_member config field with
      | inl e => inl e
      | inr v =>
          match missing_fields config rest with
          | inl e => inl e
          | inr missing => inr (if js_falsy v then field :: missing else missing)
          end
      end
  end.

(** ** The Azure provider (src/providers/azure.js): [delete], [exists]

    The SDK is the provider's collaborator: a block-blob client per blob
    name, whose calls act on the world and may reject. *)

Module AzureStorageProvider.
Section Azure.
Context {R : Type}.

Record BlockBlobClient := mkBlobClient {
  blob_delete : M (world R) unit;
  blob_exists : M (world R) bool
}.

Record ContainerClient := mkContainerClient {
  getBlockBlobClient : string -> BlockBlobClient
}.

Record t := mkAzure {
  config : jsval;
  containerClient : option ContainerClient
}.

Definition name : string := "azure".

(** [this.containerClient.getBlockBlobClient(key)]; the client is [null]
    until [initialize] has run. *)
Definition blockBlobClient (self : t) (key : string) : M (world R) BlockBlobClient :=
  match containerClient self with
  | Some c => ret (getBlockBlobClient c key)
  | None =>
      throw (TypeError "Cannot read properties of null (reading 'getBlockBlobClient')")
  end.

Definition delete (self : t) (key : string) : M (world R) DeleteResult :=
  rethrow "Azure Blob Storage delete failed: "
    (blobClient <~ blockBlobClient self key ;;
     blob_delete blobClient ;;;
     ret (mkDeleteResult true key name)).

Definition exists_ (self : t) (key : string) : M (world R) bool :=
  rethrow "Failed to check existence: "
    (blobClient <~ blockBlobClient self key ;;
     blob_exists blobClient).

(** *** [validateConfig], [getMetadata] and [list]

    [getProperties] and [listBlobsFlat] stand for the SDK calls of these
    names.  Iterating a listing yields its blobs in order and then ends,
    either normally or with an error. *)

Definition validateConfig (self : t) : M (world R) unit :=
  BaseStorageProvider.validateConfig (config self) ;;;
  containerName <~ lift_sum (js_member (config self) "containerName") ;;
  if js_falsy containerName
  then throw (Error "Container name is required for Azure Blob Storage")
  else
    connectionString <~ lift_sum (js_member (config self) "connectionString") ;;
    if js_falsy connectionString
    then
      let required := ["accountName"; "accountKey"] in
      missing <~ lift_sum (missing_fields (config self) required) ;;
      if (0 <? length missing)%nat
      then throw (Error ("Missing required Azure configuration: "
                         +:+ join_with ", " missing
                         +:+ " (or provide connectionString)"))
      else ret tt
    else ret tt.

Record BlobProperties := mkBlobProperties {
  bp_contentLength : jsval;
  bp_lastModified : Z;
  bp_etag : jsval;
  bp_contentType : jsval;
  bp_metadata : jsval
}.

Definition getMetadata (getProperties : BlockBlobClient -> M (world R) BlobProperties)
    (self : t) (key : string) : M (world R) ObjectMetadata :=
  try_catch
    (blobClient <~ blockBlobClient self key ;;
     properties <~ getProperties blobClient ;;
     ret (mkObjectMetadata key (bp_contentLength properties)
                           (bp_lastModified properties) (bp_etag properties)
                           (bp_contentType properties)
                           (js_or (bp_metadata properties) (JObj [])) name))
    (fun error =>
       if decide (statusCode error = Some 404)
       then throw (Error ("Object '" +:+ key +:+ "' not found"))
       else throw (Error ("Failed to get metadata: " +:+ message error))).

Record BlobItem := mkBlobItem {
  blob_name : string;
  blob_properties : BlobProperties
}.

Definition listed (blob : BlobItem) : ListedObject :=
  mkListedObject (blob_name blob)
                 (bp_contentLength (blob_properties blob))
                 (bp_lastModified (blob_properties blob))
                 (bp_etag (blob_properties blob))
                 (bp_contentType (blob_properties blob)).

(** The [for await] loop: [blobs] is what the iteration still has to
    yield and [ending] the error it ends with, if any. *)
Fixpoint take_blobs (limit : Z) (blobs : list BlobItem) (ending : option js_error)
    (objects : list ListedObject) (count : Z)
  : js_error + (list ListedObject * Z) :=
  match blobs with
  | [] =>
      match ending with
      | Some e => inl e
      | None => inr (objects, count)
      end
  | blob :: rest =>
      if count >=? limit then inr (objects, count)
      else take_blobs limit rest ending (objects ++ [listed blob]) (count + 1)
  end.

Definition list
    (listBlobsFlat : ContainerClient -> option string
                     -> M (world R) (list BlobItem * option js_error))
    (self : t) (options : ListOptions) : M (world R) ListPage :=
  rethrow "Azure Blob Storage list failed: "
    (let prefix := match lo_prefix options with
                   | Some "" => None
                   | o => o
                   end in
     let limit := match lo_limit options with
                  | Some n => if n =? 0 then 1000 else n
                  | None => 1000
                  end in
     iteration <~ match containerClient self with
                  | Some c => listBlobsFlat c prefix
                  | None =>
                      throw (TypeError
                               "Cannot read properties of null (reading 'listBlobsFlat')")
                  end ;;
     r <~ lift_sum (take_blobs limit (fst iteration) (snd iteration) [] 0) ;;
     let '(objects, count) := r in
     ret (mkListPage objects (count >=? limit) name)).

End Azure.
Arguments t : clear implicits.
Arguments BlockBlobClient : clear implicits.
Arguments ContainerClient : clear implicits.
End AzureStorageProvider.

(** ** The AWS and GCP providers: [validateConfig] *)

Module AWSStorageProvider.
Section AWS.
Context {R : Type}.

Definition validateConfig (config : jsval) : M (world R) unit :=
  BaseStorageProvider.validateConfig config ;;;
  let required := ["region"; "bucket"; "accessKeyId"; "secretAccessKey"] in
  missing <~ lift_sum (missing_fields config required) ;;
  if (0 <? length missing)%nat
  then throw (Error ("Missing required AWS configuration: " +:+ join_with ", " missing))
  else ret tt.

End AWS.
End AWSStorageProvider.

Module GCPStorageProvider.
Section GCP.
Context {R : Type}.

Definition validateConfig (config : jsval) : M (world R) unit :=
  BaseStorageProvider.validateConfig config ;;;
  let required := ["projectId"; "bucket"] in
  missing <~ lift_sum (missing_fields config required) ;;
  if (0 <? length missing)%nat
  then throw (Error ("Missing required GCP configuration: " +:+ join_with ", " missing))
  else
    keyFilename <~ lift_sum (js_member config "keyFilename") ;;
    neither <~ (if js_falsy keyFilename
                then credentials <~ lift_sum (js_member config "credentials") ;;
                     ret (js_falsy credentials)
                else ret false) ;;
    if neither : bool
    then throw (Error "Either keyFilename or credentials must be provided for GCP")
    else ret tt.

End GCP.
End GCPStorageProvider.

(** ** The configuration loader: the validators of [validateProvider]

    Each validator is the arrow function filed under the provider's name;
    its result is the value of the [&&] chain, valid when truthy. *)

Module Loader.

(** [config[k] && rest] and [config[k] || rest] *)
Definition member_and (config : jsval) (k : string) (rest : js_error + jsval)
  : js_error + jsval :=
  match js_member config k with
  | inl e => inl e
  | inr v => if js_falsy v then inr v else rest
  end.

Definition member_or (config : jsval) (k : string) (rest : js_error + jsval)
  : js_error + jsval :=
  match js_member config k with
  | inl e => inl e
  | inr v => if js_falsy v then rest else inr v
  end.

Definition validators_aws (config : jsval) : js_error + jsval :=
  member_and config "region"
    (member_and config "bucket"
       (member_and config "accessKeyId" (js_member config "secretAccessKey"))).

Definition validators_gcp (config : jsval) : js_error + jsval :=
  member_and config "projectId"
    (member_and config "bucket"
       (member_or config "keyFilename" (js_member config "credentials"))).

Definition validators_azure (config : jsval) : js_error + jsval :=
  member_and config "accountName"
    (member_and config "containerName"
       (member_or config "accountKey" (js_member config "connectionString"))).

Definition validators_minio (config : jsval) : js_error + jsval :=
  member_and config "endPoint"
    (member_and config "accessKey"
       (member_and config "secretKey" (js_member config "bucket"))).

End Loader.

(** ** The provider factory (src/providers/factory.js) *)

Definition lower_char (c : ascii) : ascii :=
  let n := nat_of_ascii c in
  if ((65 <=? n) && (n <=? 90))%nat then ascii_of_nat (n + 32) else c.

(** [s.toLowerCase()], on the ASCII letters. *)
Fixpoint toLowerCase (s : string) : string :=
  match s with
  | EmptyString => EmptyString
  | String c s' => String (lower_char c) (toLowerCase s')
  end.

Module StorageProviderFactory.
Section Factory.
Context {R : Type}.

(** The five classes the module requires: what [new C(config)] does. *)
Record Classes := mkClasses {
  AWSStorageProvider : jsval -> M (world R) (Provider R);
  GCPStorageProvider : jsval -> M (world R) (Provider R);
  AzureStorageProvider : jsval -> M (world R) (Provider R);
  MinioStorageProvider : jsval -> M (world R) (Provider R);
  LocalStorageProvider : jsval -> M (world R) (Provider R)
}.

Variable classes : Classes.

Inductive ProviderClass := AWS | GCP | Azure | Minio | Local.

Definition construct (c : ProviderClass) : jsval -> M (world R) (Provider R) :=
  match c with
  | AWS => AWSStorageProvider classes
  | GCP => GCPStorageProvider classes
  | Azure => AzureStorageProvider classes
  | Minio => MinioStorageProvider classes
  | Local => LocalStorageProvider classes
  end.

(** The object literal [providers]. *)
Definition providers : list (string * ProviderClass) :=
  [("aws", AWS); ("gcp", GCP); ("azure", Azure); ("minio", Minio); ("local", Local)].

(** What [providers[name]] evaluates to: an own property, or what the
    object inherits from [Object.prototype], or [undefined]. *)
Inductive member :=
| OwnClass (c : ProviderClass)
| ObjectConstructor
| ObjectPrototype
| BuiltinMethod
| Undefined.

Definition inherited_methods : list string :=
  ["hasOwnProperty"; "isPrototypeOf"; "propertyIsEnumerable";
   "toLocaleString"; "toString"; "valueOf";
   "__defineGetter__"; "__defineSetter__";
   "__lookupGetter__"; "__lookupSetter__"].

Definition providers_member (name : string) : member :=
  match entry_get name providers with
  | Some c => OwnClass c
  | None =>
      if String.eqb name "constructor" then ObjectConstructor
      else if String.eqb name "__proto__" then ObjectPrototype
      else if existsb (String.eqb name) inherited_methods then BuiltinMethod
      else Undefined
  end.

(** What [create] hands back: an instance of a provider class, or, for
    [new Object(config)], a plain object. *)
Inductive created :=
| ProviderInstance (c : ProviderClass) (provider : Provider R)
| PlainObject (v : jsval).

Definition unknown_provider (providerName : string) : js_error :=
  Error ("Unknown storage provider: " +:+ providerName
         +:+ ". Available providers: " +:+ join_with ", " (map fst providers)).

Definition create (providerName : string) (config : jsval) : M (world R) created :=
  match providers_member (toLowerCase providerName) with
  | Undefined => throw (unknown_provider providerName)
  | OwnClass c => provider <~ construct c config ;; ret (ProviderInstance c provider)
  | ObjectConstructor =>
      ret (PlainObject (match config with
                        | JUndefined | JNull => JObj []
                        | _ => config
                        end))
  | ObjectPrototype | BuiltinMethod =>
      throw (TypeError "ProviderClass is not a constructor")
  end.

Definition getAvailableProviders : list string :=
  ["aws"; "gcp"; "azure"; "minio"; "local"].

Definition createAndInitialize (providerName : string) (config : jsval)
  : M (world R) (Provider R) :=
  made <~ create providerName config ;;
  match made with
  | ProviderInstance _ provider => p_initialize provider ;;; ret provider
  | PlainObject _ => throw (TypeError "provider.initialize is not a function")
  end.

End Factory.
Arguments Classes : clear implicits.
Arguments created : clear implicits.
End StorageProviderFactory.

(** ** The test runner (src/tests/runner.js)

    Console and spinner output is not part of the state.  An asynchronous
    call is run to settlement where it is made: [start] gives its promise,
    already settled, and [Promise_all] awaits a list of them. *)

Record TestEntry := mkTestEntry {
  te_status : string; te_error : option string; te_metrics : option jsval }.

Record TestResult := mkTestResult {
  tr_provider : string;
  tr_tests : list (string * TestEntry);
  tr_overall : string;
  tr_passRate : option string;
  tr_error : option string
}.

Record runner (R : Type) := mkRunner {
  rn_world : world R;
  rn_results : list TestResult;
  rn_testKey : option string
}.
Arguments mkRunner {R}.
Arguments rn_world {R}.
Arguments rn_results {R}.
Arguments rn_testKey {R}.

(** The configuration collaborator (the loader module's getters). *)
Record ConfigLoader := mkConfigLoader {
  getProvider : string -> js_error + jsval;
  getAllProviders : list string
}.

Definition start {St A} (m : M St A) : M St (outcome A) :=
  fun s => let '(o, s') := m s in (Returned o, s').

Fixpoint Promise_all {St A} (promises : list (outcome A)) : M St (list A) :=
  match promises with
  | [] => ret []
  | Thrown e :: _ => throw e
  | Returned a :: rest => others <~ Promise_all rest ;; ret (a :: others)
  end.

(** [Buffer.alloc(size, fill)] *)
Fixpoint fill_bytes (size : nat) (fill rest : string) : string :=
  match size with
  | O => EmptyString
  | S n =>
      match rest with
      | String c rest' => String c (fill_bytes n fill rest')
      | EmptyString =>
          match fill with
          | String c rest' => String c (fill_bytes n fill rest')
          | EmptyString => String zero (fill_bytes n fill EmptyString)
          end
      end
  end.

Definition Buffer_alloc (size : Z) (fill : string) : string :=
  fill_bytes (Z.to_nat size) fill fill.

Module TestRunner.
Section Runner.
Context {P : Platform} {R : Type}.
Variable classes : StorageProviderFactory.Classes R.
Variable config : ConfigLoader.
(** [os.tmpdir()] *)
Variable tmpdir : fpath.

Local Abbreviation T := (M (runner R)).

(** A provider or file-system call made from a test. *)
Definition io {A} (m : M (world R) A) : T A :=
  fun s => let '(o, w) := m (rn_world s) in
           (o, mkRunner w (rn_results s) (rn_testKey s)).

Definition set_testKey (k : string) : T unit :=
  modify (fun s => mkRunner (rn_world s) (rn_results s) (Some k)).

Definition push_result (r : TestResult) : T unit :=
  modify (fun s => mkRunner (rn_world s) (rn_results s ++ [r]) (rn_testKey s)).

(** [this.testKey], or [None] when it is falsy. *)
Definition current_testKey : T (option string) :=
  gets (fun s => match rn_testKey s with
                 | Some EmptyString => None
                 | o => o
                 end).

Definition testHealth (provider : Provider R) : T unit :=
  health <~ io (BaseStorageProvider.getHealth provider) ;;
  if negb (String.eqb (h_status health) "healthy")
  then throw (Error ("Provider unhealthy: " +:+ default "undefined" (h_error health)))
  else ret tt.

Definition testUpload (provider : Provider R) : T unit :=
  testKey <~ io (BaseStorageProvider.generateTestKey "upload-test") ;;
  let testData := "Hello, Object Storage!" in
  result <~ io (p_upload provider testKey (Text testData) JUndefined) ;;
  if negb (ur_success result) then throw (Error "Upload failed")
  else set_testKey testKey.

Definition testDownload (provider : Provider R) : T unit :=
  saved <~ current_testKey ;;
  match saved with
  | None => throw (Error "No test key available from upload test")
  | Some testKey =>
      let tempPath := path_join tmpdir "download-test.txt" in
      result <~ io (p_download provider testKey (render_path tempPath)) ;;
      if negb (dr_success result) then throw (Error "Download failed")
      else
        content <~ io (fs_readFile tempPath) ;;
        if negb (String.eqb content "Hello, Object Storage!")
        then throw (Error "Downloaded content does not match uploaded content")
        else io (fs_remove tempPath)
  end.

(** [Array.isArray(result.objects)] holds of every [ListPage]. *)
Definition testList (provider : Provider R) : T unit :=
  io (p_list provider (mkListOptions None (Some 10))) ;;; ret tt.

Definition testMetadata (provider : Provider R) : T unit :=
  saved <~ current_testKey ;;
  match saved with
  | None => throw (Error "No test key available")
  | Some testKey =>
      metadata <~ io (p_getMetadata provider testKey) ;;
      if String.eqb (om_key metadata) "" || js_falsy (om_size metadata)
      then throw (Error "Metadata incomplete")
      else ret tt
  end.

Definition testExists (provider : Provider R) : T unit :=
  saved <~ current_testKey ;;
  match saved with
  | None => throw (Error "No test key available")
  | Some testKey =>
      found <~ io (p_exists provider testKey) ;;
      if negb found then throw (Error "Object should exist") else ret tt
  end.

Definition testDelete (provider : Provider R) : T unit :=
  saved <~ current_testKey ;;
  match saved with
  | None => throw (Error "No test key available")
  | Some testKey =>
      result <~ io (p_delete provider testKey) ;;
      if negb (del_success result) then throw (Error "Delete failed")
      else
        found <~ io (p_exists provider testKey) ;;
        if found then throw (Error "Object should not exist after deletion")
        else ret tt
  end.

Definition millis (t : Z) : jsval := JStr (pretty t +:+ "ms").

Definition testUploadSpeed (provider : Provider R) : T jsval :=
  let testData := Buffer_alloc (1024 * 1024) "test" in
  testKey <~ io (BaseStorageProvider.generateTestKey "speed-test") ;;
  startTime <~ io Date_now ;;
  io (p_upload provider testKey (Buffer testData) JUndefined) ;;;
  endTime <~ io Date_now ;;
  io (p_delete provider testKey) ;;;
  ret (JObj [("speed", JStr (megabytes_per_second (byte_length testData)
                                                   (endTime - startTime)
                             +:+ " MB/s"));
             ("time", millis (endTime - startTime))]).

Definition testDownloadSpeed (provider : Provider R) : T jsval :=
  let testData := Buffer_alloc (1024 * 1024) "test" in
  testKey <~ io (BaseStorageProvider.generateTestKey "download-speed-test") ;;
  io (p_upload provider testKey (Buffer testData) JUndefined) ;;;
  let tempPath := path_join tmpdir "speed-test.tmp" in
  startTime <~ io Date_now ;;
  io (p_download provider testKey (render_path tempPath)) ;;;
  endTime <~ io Date_now ;;
  io (p_delete provider testKey) ;;;
  io (fs_remove tempPath) ;;;
  ret (JObj [("speed", JStr (megabytes_per_second (byte_length testData)
                                                   (endTime - startTime)
                             +:+ " MB/s"));
             ("time", millis (endTime - startTime))]).

Definition concurrency : nat := 5.

(** [Array.from({ length: concurrency }, (_, i) => ...)] *)
Fixpoint start_uploads (provider : Provider R) (testData : string) (i n : nat)
  : T (list (outcome UploadResult)) :=
  match n with
  | O => ret []
  | S n' =>
      testKey <~ io (BaseStorageProvider.generateTestKey ("concurrent-" +:+ pretty i)) ;;
      promise <~ start (io (p_upload provider testKey (Text testData) JUndefined)) ;;
      others <~ start_uploads provider testData (S i) n' ;;
      ret (promise :: others)
  end.

(** The cleanup loop [for (let i = 0; i < concurrency; i++)]. *)
Fixpoint cleanup_uploads (provider : Provider R) (i n : nat) : T unit :=
  match n with
  | O => ret tt
  | S n' =>
      try_catch
        (testKey <~ io (BaseStorageProvider.generateTestKey ("concurrent-" +:+ pretty i)) ;;
         io (p_delete provider testKey) ;;;
         ret tt)
        (fun _ => ret tt) ;;;
      cleanup_uploads provider (S i) n'
  end.

Definition testConcurrentUploads (provider : Provider R) : T jsval :=
  let testData := "Concurrent test data" in
  uploads <~ start_uploads provider testData 0 concurrency ;;
  startTime <~ io Date_now ;;
  results <~ Promise_all uploads ;;
  endTime <~ io Date_now ;;
  let successful := length (List.filter (fun r => ur_success r) results) in
  cleanup_uploads provider 0 concurrency ;;;
  ret (JObj [("successful", JStr (pretty successful +:+ "/" +:+ pretty concurrency));
             ("time", millis (endTime - startTime))]).

Definition testLargeFile (provider : Provider R) : T jsval :=
  let largeData := Buffer_alloc (10 * 1024 * 1024) "large" in
  testKey <~ io (BaseStorageProvider.generateTestKey "large-file-test") ;;
  startTime <~ io Date_now ;;
  io (p_upload provider testKey (Buffer largeData) JUndefined) ;;;
  endTime <~ io Date_now ;;
  io (p_delete provider testKey) ;;;
  ret (JObj [("size", JStr "10MB"); ("time", millis (endTime - startTime))]).

Definition testSignedUrl (provider : Provider R) : T unit :=
  testKey <~ io (BaseStorageProvider.generateTestKey "signed-url-test") ;;
  io (p_upload provider testKey (Text "Test data for signed URL") JUndefined) ;;;
  signedUrl <~ io (p_getSignedUrl provider testKey (mkUrlOptions None None)) ;;
  if String.eqb (su_url signedUrl) ""
  then throw (Error "Signed URL not generated")
  else io (p_delete provider testKey) ;;; ret tt.

(** [s.includes(needle)] *)
Fixpoint includes (needle s : string) : bool :=
  String.prefix needle s
  || match s with
     | EmptyString => false
     | String _ s' => includes needle s'
     end.

Definition testAccessControl (provider : Provider R) : T unit :=
  let nonExistentKey := "non-existent-object" in
  try_catch
    (io (p_getMetadata provider nonExistentKey) ;;;
     throw (Error "Should not be able to access non-existent object"))
    (fun error =>
       if negb (includes "not found" (message error)) then throw error
       else ret tt).

Definition testMetadataSecurity (provider : Provider R) : T unit :=
  testKey <~ io (BaseStorageProvider.generateTestKey "metadata-security-test") ;;
  let sensitiveMetadata :=
    JObj [("user-id", JStr "12345");
          ("sensitive-data", JStr "should-be-encrypted")] in
  io (p_upload provider testKey (Text "Test data")
                (JObj [("metadata", sensitiveMetadata)])) ;;;
  metadata <~ io (p_getMetadata provider testKey) ;;
  let stored := om_metadata metadata in
  if js_falsy stored then throw (Error "Metadata not properly stored")
  else
    userId <~ lift_sum (js_member stored "user-id") ;;
    if js_falsy userId then throw (Error "Metadata not properly stored")
    else io (p_delete provider testKey) ;;; ret tt.

(** A named test; [Some] result is the metrics object of a performance
    test. *)
Definition named_test : Type := (string * T (option jsval))%type.

Definition plain (name : string) (fn : T unit) : named_test :=
  (name, fn ;;; ret None).

Definition measured (name : string) (fn : T jsval) : named_test :=
  (name, result <~ fn ;; ret (Some result)).

Definition passed_entry (metrics : option jsval) : TestEntry :=
  mkTestEntry "passed" None metrics.

Definition failed_entry (error : js_error) : TestEntry :=
  mkTestEntry "failed" (Some (message error)) None.

(** The loop [for (const test of tests) { try { ... } catch { ... } }]
    of the three suites, on the [tests] object of the result under
    construction. *)
Fixpoint run_tests (tests : list named_test) (recorded : list (string * TestEntry))
  : T (list (string * TestEntry)) :=
  match tests with
  | [] => ret recorded
  | (name, fn) :: rest =>
      entry <~ try_catch (metrics <~ fn ;; ret (passed_entry metrics))
                         (fun error => ret (failed_entry error)) ;;
      run_tests rest (entry_set name entry recorded)
  end.

Definition basicTests (provider : Provider R) : list named_test :=
  [plain "Health Check" (testHealth provider);
   plain "Upload File" (testUpload provider);
   plain "Download File" (testDownload provider);
   plain "List Objects" (testList provider);
   plain "Get Metadata" (testMetadata provider);
   plain "Object Exists" (testExists provider);
   plain "Delete Object" (testDelete provider)].

Definition performanceTests (provider : Provider R) : list named_test :=
  [measured "Upload Speed" (testUploadSpeed provider);
   measured "Download Speed" (testDownloadSpeed provider);
   measured "Concurrent Uploads" (testConcurrentUploads provider);
   measured "Large File Handling" (testLargeFile provider)].

Definition securityTests (provider : Provider R) : list named_test :=
  [plain "Signed URL Generation" (testSignedUrl provider);
   plain "Access Control" (testAccessControl provider);
   plain "Metadata Security" (testMetadataSecurity provider)].

Definition with_tests (testResult : TestResult) (tests : list (string * TestEntry))
  : TestResult :=
  mkTestResult (tr_provider testResult) tests (tr_overall testResult)
               (tr_passRate testResult) (tr_error testResult).

Definition runBasicTests (provider : Provider R) (testResult : TestResult)
  (verbose : bool) : T TestResult :=
  tests <~ run_tests (basicTests provider) (tr_tests testResult) ;;
  ret (with_tests testResult tests).

Definition runPerformanceTests (provider : Provider R) (testResult : TestResult)
  (verbose : bool) : T TestResult :=
  tests <~ run_tests (performanceTests provider) (tr_tests testResult) ;;
  ret (with_tests testResult tests).

Definition runSecurityTests (provider : Provider R) (testResult : TestResult)
  (verbose : bool) : T TestResult :=
  tests <~ run_tests (securityTests provider) (tr_tests testResult) ;;
  ret (with_tests testResult tests).

(** The suite the [switch (testType)] selects. *)
Definition suite (testType : string) (provider : Provider R) : list named_test :=
  if String.eqb testType "basic" then basicTests provider
  else if String.eqb testType "performance" then performanceTests provider
  else if String.eqb testType "security" then securityTests provider
  else basicTests provider.

Definition is_passed (r : TestEntry) : bool := String.eqb (te_status r) "passed".

Definition testProvider (providerName testType : string) (verbose : bool) : T unit :=
  try_catch
    (providerConfig <~ lift_sum (getProvider config providerName) ;;
     provider <~ io (StorageProviderFactory.createAndInitialize
                       classes providerName providerConfig) ;;
     let testResult := mkTestResult providerName [] "pending" None None in
     testResult <~
       (if String.eqb testType "basic"
        then runBasicTests provider testResult verbose
        else if String.eqb testType "performance"
        then runPerformanceTests provider testResult verbose
        else if String.eqb testType "security"
        then runSecurityTests provider testResult verbose
        else runBasicTests provider testResult verbose) ;;
     let testResults := map snd (tr_tests testResult) in
     let passed := length (List.filter is_passed testResults) in
     let total := length testResults in
     let testResult :=
       mkTestResult (tr_provider testResult) (tr_tests testResult)
                    (if Nat.eqb passed total then "passed" else "failed")
                    (Some (pretty passed +:+ "/" +:+ pretty total))
                    (tr_error testResult) in
     push_result testResult ;;;
     io (p_cleanup provider))
    (fun error =>
       push_result (mkTestResult providerName [] "error" None
                                 (Some (message error)))).

(** [run(options)], up to the rendering of the report. *)
Fixpoint test_each (providersToTest : list string) (type : string) (verbose : bool)
  : T unit :=
  match providersToTest with
  | [] => ret tt
  | providerName :: rest =>
      testProvider providerName type verbose ;;;
      test_each rest type verbose
  end.

Definition run (provider type : string) (verbose : bool) : T unit :=
  let providersToTest :=
    if String.eqb provider "all" then getAllProviders config else [provider] in
  test_each providersToTest type verbose.

End Runner.
End TestRunner.

(** * Properties *)

(** ** Reasoning about computations *)

Section Computations.
Context {St : Type}.

Lemma bind_returned {A B} (m : M St A) (k : A -> M St B) s b s' :
  bind m k s = (Returned b, s') ->
  exists a s0, m s = (Returned a, s0) /\ k a s0 = (Returned b, s').
Proof.
  unfold bind. destruct (m s) as [[a|e] s0]; intros H; [eauto | discriminate].
Qed.

Lemma bind_step {A B} (m : M St A) (k : A -> M St B) s a s0 :
  m s = (Returned a, s0) -> bind m k s = k a s0.
Proof. unfold bind. intros ->. reflexivity. Qed.

Lemma bind_thrown {A B} (m : M St A) (k : A -> M St B) s e s0 :
  m s = (Thrown e, s0) -> bind m k s = (Thrown e, s0).
Proof. unfold bind. intros ->. reflexivity. Qed.

Lemma rethrow_returned {A} prefix (m : M St A) s a s' :
  rethrow prefix m s = (Returned a, s') -> m s = (Returned a, s').
Proof.
  unfold rethrow, try_catch, throw. destruct (m s) as [[x|e] s0]; intros H;
    [exact H | discriminate].
Qed.

Lemma rethrow_step {A} prefix (m : M St A) s a s' :
  m s = (Returned a, s') -> rethrow prefix m s = (Returned a, s').
Proof. unfold rethrow, try_catch. intros ->. reflexivity. Qed.

Lemma rethrow_thrown {A} prefix (m : M St A) s e s' :
  m s = (Thrown e, s') ->
  rethrow prefix m s = (Thrown (Error (prefix +:+ message e)), s').
Proof. unfold rethrow, try_catch. intros ->. reflexivity. Qed.

Lemma lift_sum_returned {A} (r : js_error + A) (s : St) a s' :
  lift_sum r s = (Returned a, s') -> r = inr a /\ s' = s.
Proof.
  destruct r as [e|x]; unfold lift_sum, throw, ret; intros H; inversion H; auto.
Qed.

End Computations.

(** Decompose a hypothesis saying that a sequence of steps returned. *)
Ltac returned H :=
  repeat match type of H with
  | rethrow _ _ _ = (Returned _, _) => apply rethrow_returned in H
  | bind _ _ _ = (Returned _, _) =>
      let a := fresh "a" in let s := fresh "s" in
      let H1 := fresh "Hstep" in
      apply bind_returned in H; destruct H as (a & s & H1 & H)
  end.

(** ** C9: the health probe *)

Section Health.
Context {P : Platform} {R : Type}.

(** A provider that keeps only the name and the [list] method of [self]. *)
Definition list_only (self : Provider R) : Provider R :=
  let no {A} : M (world R) A := throw (Error "not implemented") in
  mkProvider (p_name self) no (fun _ _ _ => no) (fun _ _ => no) (fun _ => no)
             (p_list self) (fun _ => no) (fun _ => no) (fun _ _ => no)
             (fun _ _ => no) no.

(** C9.  [getHealth()] never throws.  It reports ['healthy'] (and no
    error) exactly when [list({ limit: 1 })] returns, and otherwise
    ['unhealthy'] with the message of the error that [list] threw.  It
    reads nothing of the provider but its name and its [list] method. *)
Theorem getHealth_reports_list_outcome (self : Provider R) (w : world R) :
  (exists h w', BaseStorageProvider.getHealth self w = (Returned h, w')
     /\ h_provider h = p_name self
     /\ match fst (p_list self (mkListOptions None (Some 1)) w) with
        | Returned _ => h_status h = "healthy" /\ h_error h = None
        | Thrown e => h_status h = "unhealthy" /\ h_error h = Some (message e)
        end)
  /\ BaseStorageProvider.getHealth self w
     = BaseStorageProvider.getHealth (list_only self) w.
Proof.
  split; [|reflexivity].
  unfold BaseStorageProvider.getHealth, try_catch, bind, ret, Date_now.
  destruct (p_list self (mkListOptions None (Some 1)) w) as [[page|e] w1]; simpl;
    eexists; eexists; (split; [reflexivity|]); simpl; auto.
Qed.

End Health.

(** ** C10: the factory's lookup *)

Section FactoryLookup.
Context {R : Type}.
Variable classes : StorageProviderFactory.Classes R.

Lemma lower_char_idempotent c : lower_char (lower_char c) = lower_char c.
Proof.
  unfold lower_char.
  destruct ((65 <=? nat_of_ascii c) && (nat_of_ascii c <=? 90))%nat eqn:E; [|rewrite E; reflexivity].
  apply andb_prop in E as [E1 E2].
  apply Nat.leb_le in E1, E2.
  pose proof (nat_ascii_bounded c) as Hc.
  rewrite nat_ascii_embedding by lia.
  replace ((65 <=? nat_of_ascii c + 32) && (nat_of_ascii c + 32 <=? 90))%nat with false; [reflexivity|].
  symmetry. apply andb_false_iff. right. apply Nat.leb_gt. lia.
Qed.

Lemma toLowerCase_idempotent s : toLowerCase (toLowerCase s) = toLowerCase s.
Proof. induction s as [|c s IH]; simpl; [reflexivity|]. now rewrite lower_char_idempotent, IH. Qed.

(** What [create] does depends on the name's lower-case form only, the
    message of the rejection apart, which names the string as given. *)
Lemma create_case_insensitive (providerName : string) (config : jsval) (w : world R) :
  StorageProviderFactory.create classes providerName config w
  = match StorageProviderFactory.providers_member (toLowerCase providerName) with
    | StorageProviderFactory.Undefined =>
        (Thrown (Error ("Unknown storage provider: " +:+ providerName
                        +:+ ". Available providers: aws, gcp, azure, minio, local")), w)
    | _ => StorageProviderFactory.create classes (toLowerCase providerName) config w
    end.
Proof.
  unfold StorageProviderFactory.create. rewrite toLowerCase_idempotent.
  destruct (StorageProviderFactory.providers_member (toLowerCase providerName));
    reflexivity.
Qed.

(** C10, at the failing input.  ["constructor"] is not one of the five
    identifiers, yet [create] throws nothing: [providers["constructor"]] is
    the function every object inherits, and [new Object(config)] is handed
    back in place of a provider. *)
Theorem create_does_not_reject_constructor (config : jsval) (w : world R) :
  entry_get (toLowerCase "constructor") StorageProviderFactory.providers = None
  /\ exists v,
       StorageProviderFactory.create classes "constructor" config w
       = (Returned (StorageProviderFactory.PlainObject v), w).
Proof.
  split; [reflexivity|].
  unfold StorageProviderFactory.create. simpl. eexists. reflexivity.
Qed.

(** A name outside the identifiers and outside what an object inherits is
    rejected with the message naming it and listing the identifiers. *)
Lemma create_rejects_unknown (providerName : string) (config : jsval) (w : world R) :
  StorageProviderFactory.providers_member (toLowerCase providerName)
  = StorageProviderFactory.Undefined ->
  StorageProviderFactory.create classes providerName config w
  = (Thrown (Error ("Unknown storage provider: " +:+ providerName
                    +:+ ". Available providers: aws, gcp, azure, minio, local")), w).
Proof.
  intros H. unfold StorageProviderFactory.create. rewrite H. reflexivity.
Qed.

End FactoryLookup.

(** ** C7: what the runner records *)

Section RunnerRecords.
Context {P : Platform} {R : Type}.
Variable classes : StorageProviderFactory.Classes R.
Variable config : ConfigLoader.
Variable tmpdir : fpath.

(** The entry the claim asks for: [{status: 'passed', metrics}] for a
    test that returned, [{status: 'failed', error: message}] for one that
    threw. *)
Definition entry_of (o : outcome (option jsval)) : TestEntry :=
  match o with
  | Returned metrics =>
      {| te_status := "passed"; te_error := None; te_metrics := metrics |}
  | Thrown e =>
      {| te_status := "failed"; te_error := Some (message e); te_metrics := None |}
  end.

(** Every test of a suite run in turn, each from the state the one before
    it left, whatever the outcomes. *)
Fixpoint test_outcomes (tests : list (TestRunner.named_test (R := R))) (s : runner R)
  : list (string * outcome (option jsval)) * runner R :=
  match tests with
  | [] => ([], s)
  | (name, fn) :: rest =>
      let '(o, s1) := fn s in
      let '(os, s2) := test_outcomes rest s1 in
      ((name, o) :: os, s2)
  end.

Definition error_result (providerName : string) (e : js_error) : TestResult :=
  mkTestResult providerName [] "error" None (Some (message e)).

Definition returned {A} (o : outcome A) : bool :=
  match o with Returned _ => true | Thrown _ => false end.

Lemma entry_get_app_None {V} k (l1 l2 : list (string * V)) :
  entry_get k l1 = None -> entry_get k (l1 ++ l2) = entry_get k l2.
Proof.
  induction l1 as [|[k' v] l1 IH]; simpl; [reflexivity|].
  destruct (String.eqb k k'); [discriminate | exact IH].
Qed.

Lemma entry_set_fresh {V} k (v : V) l :
  entry_get k l = None -> entry_set k v l = l ++ [(k, v)].
Proof.
  induction l as [|[k' v'] l IH]; simpl; [reflexivity|].
  destruct (String.eqb k k'); [discriminate|]. intros H. now rewrite IH.
Qed.

Lemma entry_get_map_None {A V} k (f : A -> V) (l : list (string * A)) :
  ~ In k (map fst l) ->
  entry_get k (map (fun x => (fst x, f (snd x))) l) = None.
Proof.
  induction l as [|[k' a] l IH]; simpl; [reflexivity|].
  intros H. destruct (String.eqb_spec k k') as [->|]; [tauto|]. apply IH. tauto.
Qed.

Lemma run_tests_outcomes tests : forall recorded s,
  List.NoDup (map fst tests) ->
  (forall k, In k (map fst tests) -> entry_get k recorded = None) ->
  TestRunner.run_tests tests recorded s
  = (Returned (recorded ++ map (fun x => (fst x, entry_of (snd x)))
                               (fst (test_outcomes tests s))),
     snd (test_outcomes tests s)).
Proof.
  induction tests as [|[name fn] tests IH]; intros recorded s Hnd Hfresh; simpl.
  - unfold ret. now rewrite app_nil_r.
  - inversion Hnd as [|? ? Hnotin Hnd']; subst.
    unfold bind at 1. unfold try_catch, bind, ret.
    destruct (fn s) as [[metrics|e] s1] eqn:Efn; simpl;
      destruct (test_outcomes tests s1) as [os s2] eqn:Eos; simpl;
      (rewrite IH;
       [ rewrite Eos; simpl; rewrite entry_set_fresh by (apply Hfresh; simpl; auto);
         now rewrite <- app_assoc
       | exact Hnd'
       | intros k Hk; rewrite entry_set_fresh by (apply Hfresh; simpl; auto);
         rewrite entry_get_app_None by (apply Hfresh; simpl; auto); simpl;
         destruct (String.eqb_spec k name) as [->|]; [contradiction | reflexivity] ]).
Qed.

Lemma test_outcomes_names tests : forall s,
  map fst (fst (test_outcomes tests s)) = map fst tests.
Proof.
  induction tests as [|[name fn] tests IH]; intros s; simpl; [reflexivity|].
  destruct (fn s) as [o s1]. specialize (IH s1).
  destruct (test_outcomes tests s1) as [os s2]. simpl in *. now rewrite IH.
Qed.

Lemma filter_length_all {A} (f : A -> bool) (l : list A) :
  Nat.eqb (length (List.filter f l)) (length l) = forallb f l.
Proof.
  assert (Hle : forall l', (length (List.filter f l') <= length l')%nat).
  { induction l' as [|x l' IH]; simpl; [lia|]. destruct (f x); simpl; lia. }
  induction l as [|x l IH]; simpl; [reflexivity|].
  destruct (f x); simpl; [exact IH|].
  apply Nat.eqb_neq. specialize (Hle l). lia.
Qed.

Lemma suite_names_distinct testType (provider : Provider R) :
  List.NoDup (map fst (TestRunner.suite tmpdir testType provider)).
Proof.
  unfold TestRunner.suite.
  destruct (String.eqb testType "basic");
    [|destruct (String.eqb testType "performance");
      [|destruct (String.eqb testType "security")]];
    simpl; repeat (constructor; [simpl; intuition discriminate|]); constructor.
Qed.

Definition keeps_results {A} (m : M (runner R) A) : Prop :=
  forall s, rn_results (snd (m s)) = rn_results s.

Lemma keeps_ret {A} (a : A) : keeps_results (ret a).
Proof. intros s. reflexivity. Qed.

Lemma keeps_throw {A} e : keeps_results (throw (A := A) e).
Proof. intros s. reflexivity. Qed.

Lemma keeps_bind {A B} (m : M (runner R) A) (k : A -> M (runner R) B) :
  keeps_results m -> (forall a, keeps_results (k a)) -> keeps_results (bind m k).
Proof.
  intros Hm Hk s. unfold bind. specialize (Hm s).
  destruct (m s) as [[a|e] s1]; simpl in *; [|exact Hm].
  rewrite Hk. exact Hm.
Qed.

Lemma keeps_try_catch {A} (m : M (runner R) A) h :
  keeps_results m -> (forall e, keeps_results (h e)) -> keeps_results (try_catch m h).
Proof.
  intros Hm Hh s. unfold try_catch. specialize (Hm s).
  destruct (m s) as [[a|e] s1]; simpl in *; [exact Hm|].
  rewrite Hh. exact Hm.
Qed.

Lemma keeps_io {A} (m : M (world R) A) : keeps_results (TestRunner.io m).
Proof. intros s. unfold TestRunner.io. destruct (m (rn_world s)). reflexivity. Qed.

Lemma keeps_lift_sum {A} (r : js_error + A) : keeps_results (lift_sum r).
Proof. destruct r; intros s; reflexivity. Qed.

Lemma keeps_start {A} (m : M (runner R) A) : keeps_results m -> keeps_results (start m).
Proof. intros Hm s. unfold start. specialize (Hm s). destruct (m s). exact Hm. Qed.

Lemma keeps_Promise_all {A} (l : list (outcome A)) : keeps_results (Promise_all l).
Proof.
  induction l as [|[a|e] l IH]; simpl.
  - apply keeps_ret.
  - apply keeps_bind; [exact IH | intros; apply keeps_ret].
  - apply keeps_throw.
Qed.

Lemma keeps_set_testKey k : keeps_results (TestRunner.set_testKey k).
Proof. intros s. reflexivity. Qed.

Lemma keeps_current_testKey : keeps_results TestRunner.current_testKey.
Proof. intros s. reflexivity. Qed.

Ltac keeps :=
  repeat first
    [ apply keeps_ret | apply keeps_throw | apply keeps_io | apply keeps_lift_sum
    | apply keeps_set_testKey | apply keeps_current_testKey | apply keeps_Promise_all
    | apply keeps_start
    | apply keeps_bind; [|intros]
    | apply keeps_try_catch; [|intros]
    | match goal with
      | |- keeps_results (if ?b then _ else _) => destruct b
      | |- keeps_results (match ?x with _ => _ end) => destruct x
      end ].

Lemma keeps_start_uploads provider data n : forall i,
  keeps_results (TestRunner.start_uploads provider data i n).
Proof. induction n as [|n IH]; intros i; simpl; keeps. apply IH. Qed.

Lemma keeps_cleanup_uploads provider n : forall i,
  keeps_results (TestRunner.cleanup_uploads provider i n).
Proof. induction n as [|n IH]; intros i; simpl; keeps. apply IH. Qed.

Lemma suite_keeps_results testType (provider : Provider R) :
  Forall (fun t => keeps_results (snd t)) (TestRunner.suite tmpdir testType provider).
Proof.
  unfold TestRunner.suite.
  destruct (String.eqb testType "basic");
    [|destruct (String.eqb testType "performance");
      [|destruct (String.eqb testType "security")]];
    repeat constructor; simpl;
    unfold TestRunner.plain, TestRunner.measured, snd,
      TestRunner.testHealth, TestRunner.testUpload, TestRunner.testDownload,
      TestRunner.testList, TestRunner.testMetadata, TestRunner.testExists,
      TestRunner.testDelete, TestRunner.testUploadSpeed, TestRunner.testDownloadSpeed,
      TestRunner.testConcurrentUploads, TestRunner.testLargeFile,
      TestRunner.testSignedUrl, TestRunner.testAccessControl,
      TestRunner.testMetadataSecurity;
    keeps; auto using keeps_start_uploads, keeps_cleanup_uploads.
Qed.

Lemma test_outcomes_keep_results tests :
  Forall (fun t => keeps_results (snd t)) tests ->
  forall s, rn_results (snd (test_outcomes tests s)) = rn_results s.
Proof.
  induction 1 as [|[name fn] tests Hfn _ IH]; intros s; simpl; [reflexivity|].
  specialize (Hfn s). simpl in Hfn. destruct (fn s) as [o s1]. simpl in Hfn.
  specialize (IH s1). destruct (test_outcomes tests s1) as [os s2]. simpl in *.
  congruence.
Qed.

Lemma entry_status_passed o : te_status (entry_of o) = "passed" <-> returned o = true.
Proof. destruct o; simpl; split; intros; try reflexivity; discriminate. Qed.

Lemma forallb_is_passed (outs : list (string * outcome (option jsval))) :
  forallb TestRunner.is_passed (map snd (map (fun x => (fst x, entry_of (snd x))) outs))
  = forallb (fun x => returned (snd x)) outs.
Proof.
  induction outs as [|[n o] outs IH]; simpl; [reflexivity|]. rewrite IH.
  destruct o; reflexivity.
Qed.

Lemma run_suite testType (provider : Provider R) testResult verbose s :
  (if String.eqb testType "basic"
   then TestRunner.runBasicTests tmpdir provider testResult verbose
   else if String.eqb testType "performance"
   then TestRunner.runPerformanceTests tmpdir provider testResult verbose
   else if String.eqb testType "security"
   then TestRunner.runSecurityTests provider testResult verbose
   else TestRunner.runBasicTests tmpdir provider testResult verbose) s
  = bind (TestRunner.run_tests (TestRunner.suite tmpdir testType provider) (tr_tests testResult))
         (fun tests => ret (TestRunner.with_tests testResult tests)) s.
Proof.
  unfold TestRunner.suite.
  destruct (String.eqb testType "basic"); [reflexivity|].
  destruct (String.eqb testType "performance"); [reflexivity|].
  destruct (String.eqb testType "security"); reflexivity.
Qed.

(** C7.  [testProvider] never throws, and appends to the runner's results:
    - when the configuration lookup, the factory or [initialize()] throws,
      one record with overall status ['error'], no per-test entry, and the
      error's message;
    - otherwise the record of the suite run: one entry per test of the
      suite, in order, each test having been run from the state its
      predecessor left whether or not that one threw ([test_outcomes]),
      ['passed'] for a test that returned and ['failed'] with the message
      of the error for one that threw; the overall status is ['passed'] if
      and only if every entry is ['passed'], that is if and only if no test
      threw, and ['failed'] otherwise.  A [cleanup()] that throws
      afterwards adds an ['error'] record behind it. *)
Theorem testProvider_overall_status providerName testType verbose (s : runner R) :
  let result := TestRunner.testProvider classes config tmpdir providerName testType verbose s in
  fst result = Returned tt /\
  match getProvider config providerName with
  | inl e => rn_results (snd result) = rn_results s ++ [error_result providerName e]
  | inr providerConfig =>
      match StorageProviderFactory.create classes providerName providerConfig (rn_world s) with
      | (Thrown e, _) =>
          rn_results (snd result) = rn_results s ++ [error_result providerName e]
      | (Returned (StorageProviderFactory.PlainObject _), _) =>
          exists e, rn_results (snd result) = rn_results s ++ [error_result providerName e]
      | (Returned (StorageProviderFactory.ProviderInstance _ provider), w1) =>
          match p_initialize provider w1 with
          | (Thrown e, _) =>
              rn_results (snd result) = rn_results s ++ [error_result providerName e]
          | (Returned _, w2) =>
              let ran := test_outcomes (TestRunner.suite tmpdir testType provider)
                                       (mkRunner w2 (rn_results s) (rn_testKey s)) in
              exists r,
                tr_provider r = providerName
                /\ tr_tests r = map (fun x => (fst x, entry_of (snd x))) (fst ran)
                /\ map fst (tr_tests r) = map fst (TestRunner.suite tmpdir testType provider)
                /\ (tr_overall r = "passed" \/ tr_overall r = "failed")
                /\ (tr_overall r = "passed" <->
                    Forall (fun t => te_status (snd t) = "passed") (tr_tests r))
                /\ Forall2 (fun out entry =>
                              fst entry = fst out
                              /\ match snd out with
                                 | Returned metrics =>
                                     te_status (snd entry) = "passed"
                                     /\ te_error (snd entry) = None
                                     /\ te_metrics (snd entry) = metrics
                                 | Thrown e =>
                                     te_status (snd entry) = "failed"
                                     /\ te_error (snd entry) = Some (message e)
                                     /\ te_metrics (snd entry) = None
                                 end)
                            (fst ran) (tr_tests r)
                /\ (tr_overall r = "passed" <->
                    Forall (fun out => exists metrics, snd out = Returned metrics)
                           (fst ran))
                /\ match p_cleanup provider (rn_world (snd ran)) with
                   | (Returned _, _) => rn_results (snd result) = rn_results s ++ [r]
                   | (Thrown e, _) =>
                       rn_results (snd result)
                       = rn_results s ++ [r; error_result providerName e]
                   end
          end
      end
  end.
Proof.
  intros result. subst result.
  unfold TestRunner.testProvider, try_catch.
  destruct (getProvider config providerName) as [e|providerConfig] eqn:Ecfg.
  { rewrite (bind_thrown _ _ s e s) by reflexivity. split; reflexivity. }
  rewrite (bind_step _ _ s providerConfig s) by reflexivity.
  destruct (StorageProviderFactory.create classes providerName providerConfig (rn_world s))
    as [[[c provider|v]|e] w1] eqn:Ecreate.
  3: { erewrite bind_thrown
         by (unfold TestRunner.io, StorageProviderFactory.createAndInitialize;
             erewrite bind_thrown by exact Ecreate; reflexivity).
       split; reflexivity. }
  2: { erewrite bind_thrown
         by (unfold TestRunner.io, StorageProviderFactory.createAndInitialize;
             erewrite bind_step by exact Ecreate; reflexivity).
       split; [reflexivity|eexists; reflexivity]. }
  destruct (p_initialize provider w1) as [[u|e] w2] eqn:Einit.
  2: { erewrite bind_thrown
         by (unfold TestRunner.io, StorageProviderFactory.createAndInitialize;
             erewrite bind_step by exact Ecreate; cbv beta iota;
             erewrite bind_thrown by exact Einit; reflexivity).
       split; reflexivity. }
  erewrite bind_step
    by (unfold TestRunner.io, StorageProviderFactory.createAndInitialize;
        erewrite bind_step by exact Ecreate; cbv beta iota;
        erewrite bind_step by exact Einit; reflexivity).
  erewrite bind_step.
  2: { rewrite run_suite. erewrite bind_step.
       2: { apply run_tests_outcomes; [apply suite_names_distinct | reflexivity]. }
       reflexivity. }
  set (ran := test_outcomes _ _). simpl app.
  unfold TestRunner.with_tests; cbn [tr_provider tr_tests tr_error tr_overall tr_passRate].
  rewrite filter_length_all, forallb_is_passed.
  set (r := mkTestResult _ _ _ _ _).
  erewrite bind_step by reflexivity.
  unfold TestRunner.io. cbn [rn_world rn_results rn_testKey].
  assert (Hr : tr_provider r = providerName
               /\ tr_tests r = map (fun x => (fst x, entry_of (snd x))) (fst ran)
               /\ map fst (tr_tests r) = map fst (TestRunner.suite tmpdir testType provider)
               /\ (tr_overall r = "passed" \/ tr_overall r = "failed")
               /\ (tr_overall r = "passed" <->
                    Forall (fun t => te_status (snd t) = "passed") (tr_tests r))
               /\ Forall2 (fun out entry =>
                              fst entry = fst out
                              /\ match snd out with
                                 | Returned metrics =>
                                     te_status (snd entry) = "passed"
                                     /\ te_error (snd entry) = None
                                     /\ te_metrics (snd entry) = metrics
                                 | Thrown e =>
                                     te_status (snd entry) = "failed"
                                     /\ te_error (snd entry) = Some (message e)
                                     /\ te_metrics (snd entry) = None
                                 end)
                            (fst ran) (tr_tests r)
               /\ (tr_overall r = "passed" <->
                    Forall (fun out => exists metrics, snd out = Returned metrics)
                           (fst ran))).
  { subst r; cbn [tr_provider tr_tests tr_error tr_overall tr_passRate].
    split; [reflexivity|]. split; [reflexivity|].
    split. { rewrite map_map. simpl. apply test_outcomes_names. }
    split. { destruct (forallb _ _); auto. }
    split; [|split].
    - rewrite Forall_map. simpl.
      destruct (forallb (fun x => returned (snd x)) (fst ran)) eqn:Eall.
      + split; [intros _|reflexivity].
        rewrite forallb_forall in Eall. apply List.Forall_forall. intros x Hx.
        apply entry_status_passed. apply Eall. exact Hx.
      + split; [discriminate|]. intros Hall. exfalso.
        assert (forallb (fun x => returned (snd x)) (fst ran) = true); [|congruence].
        apply forallb_forall. intros x Hx. apply entry_status_passed.
        rewrite List.Forall_forall in Hall. apply Hall. exact Hx.
    - generalize (fst ran). intros l.
      induction l as [|[n o] l IH]; simpl; constructor; [|exact IH].
      split; [reflexivity|]. destruct o; simpl; auto.
    - destruct (forallb (fun x => returned (snd x)) (fst ran)) eqn:Eall.
      + split; [intros _|reflexivity].
        rewrite forallb_forall in Eall. apply List.Forall_forall. intros x Hx.
        specialize (Eall x Hx). destruct (snd x); [eauto|discriminate Eall].
      + split; [discriminate|]. intros Hall. exfalso.
        assert (forallb (fun x => returned (snd x)) (fst ran) = true); [|congruence].
        apply forallb_forall. intros x Hx.
        rewrite List.Forall_forall in Hall. destruct (Hall x Hx) as [m ->]. reflexivity. }
  assert (Hkeep : rn_results (snd ran) = rn_results s).
  { subst ran. rewrite test_outcomes_keep_results by apply suite_keeps_results. reflexivity. }
  rewrite Hkeep.
  destruct (p_cleanup provider (rn_world (snd ran))) as [[[]|e] w3] eqn:Eclean;
    cbn [fst snd]; (split; [reflexivity|]); exists r;
    repeat (split; [tauto|]); cbn [rn_results]; [reflexivity|].
  unfold TestRunner.push_result, modify, error_result. cbn [snd rn_results].
  rewrite <- app_assoc. reflexivity.
Qed.

End RunnerRecords.

(** ** The file tree: what a walk finds after a change *)

Section Entries.
Context {V : Type}.
Implicit Types (es : list (string * V)) (k : string) (v : V).

Lemma entry_get_set_eq k v es : entry_get k (entry_set k v es) = Some v.
Proof.
  induction es as [|[k' v'] es IH]; simpl.
  - now rewrite String.eqb_refl.
  - destruct (String.eqb k k') eqn:E; simpl; rewrite ?String.eqb_refl, ?E; auto.
Qed.

Lemma entry_get_set_ne k k' v es :
  k <> k' -> entry_get k' (entry_set k v es) = entry_get k' es.
Proof.
  intros Hne. induction es as [|[k0 v0] es IH]; simpl.
  - destruct (String.eqb_spec k' k); [congruence | reflexivity].
  - destruct (String.eqb_spec k k0) as [->|]; simpl.
    + destruct (String.eqb_spec k' k0); [congruence | reflexivity].
    + destruct (String.eqb_spec k' k0); [reflexivity | exact IH].
Qed.

Lemma entry_get_del_eq k es : entry_get k (entry_del k es) = None.
Proof.
  induction es as [|[k' v'] es IH]; simpl; [reflexivity|].
  destruct (String.eqb k k') eqn:E; simpl; rewrite ?E; auto.
Qed.

Lemma entry_get_del_ne k k' es :
  k <> k' -> entry_get k' (entry_del k es) = entry_get k' es.
Proof.
  intros Hne. induction es as [|[k0 v0] es IH]; simpl; [reflexivity|].
  destruct (String.eqb_spec k k0) as [->|]; simpl.
  - destruct (String.eqb_spec k' k0); [congruence | exact IH].
  - destruct (String.eqb_spec k' k0); [reflexivity | exact IH].
Qed.

End Entries.

Definition dir_at (n : node) (p : list string) : Prop :=
  exists es, walk n p = inr (Dir es).

Lemma walk_cons n s p :
  walk n (s :: p)
  = match n with
    | File _ _ => inl ENOTDIR
    | Dir es => if name_fits s
                then match entry_get s es with
                     | None => inl ENOENT
                     | Some c => walk c p
                     end
                else inl ENAMETOOLONG
    end.
Proof. reflexivity. Qed.

(** A walk that finds something, or misses a name, has met no name that
    is too long. *)
Lemma walk_dir_cons es s p x :
  walk (Dir es) (s :: p) = inr x ->
  name_fits s = true /\ exists c, entry_get s es = Some c /\ walk c p = inr x.
Proof.
  rewrite walk_cons. destruct (name_fits s); [|discriminate].
  destruct (entry_get s es) as [c|]; [|discriminate]. eauto.
Qed.

Lemma walk_snoc p : forall n s,
  walk n (p ++ [s])
  = match walk n p with
    | inr c => walk c [s]
    | inl e => inl e
    end.
Proof.
  induction p as [|t p IH]; intros n s; [destruct n; reflexivity|].
  cbn [app]. rewrite !walk_cons. destruct n as [|es]; [reflexivity|].
  destruct (name_fits t); [|reflexivity].
  destruct (entry_get t es) as [c|]; [apply IH | reflexivity].
Qed.

Lemma walk_last_fits p : forall n r,
  walk n p = r -> (exists x, r = inr x) \/ r = inl ENOENT ->
  dir_at n (removelast p) -> name_fits (List.last p EmptyString) = true.
Proof.
  intros n r Hw Hr [es Hd]. destruct p as [|s p] using rev_ind; [reflexivity|].
  rewrite removelast_last in Hd. rewrite last_last.
  rewrite walk_snoc, Hd, walk_cons in Hw.
  destruct (name_fits s); [reflexivity|].
  subst r. destruct Hr as [[x Hx]|Hx]; discriminate Hx.
Qed.

Lemma removelast_cons {A} (x y : A) l : removelast (x :: y :: l) = x :: removelast (y :: l).
Proof. reflexivity. Qed.

(** Whatever a path resolves to, its parent is a directory. *)
Lemma walk_parent p : forall n x,
  walk n p = inr x -> p <> [] -> dir_at n (removelast p).
Proof.
  induction p as [|s p IH]; intros n x Hw Hne; [congruence|].
  destruct n as [mt d|es]; [discriminate|].
  apply walk_dir_cons in Hw as (Fs & c & Es & Hw).
  destruct p as [|t p].
  - exists es. reflexivity.
  - rewrite removelast_cons. unfold dir_at. rewrite walk_cons, Fs, Es.
    apply (IH c x Hw). discriminate.
Qed.

Lemma walk_put_same p : forall n x,
  p = [] \/ (dir_at n (removelast p) /\ name_fits (List.last p EmptyString) = true) ->
  walk (put_at n p x) p = inr x.
Proof.
  induction p as [|s p IH]; intros n x Hp; [reflexivity|].
  destruct Hp as [|[[es0 Hd] Hfit]]; [discriminate|].
  destruct p as [|t p].
  - simpl in Hd. injection Hd as ->. cbn [List.last] in Hfit.
    cbn [put_at]. rewrite walk_cons, Hfit. now rewrite entry_get_set_eq.
  - rewrite removelast_cons in Hd. destruct n as [mt d|es]; [discriminate|].
    apply walk_dir_cons in Hd as (Fs & c & Es & Hd).
    change (put_at (Dir es) (s :: t :: p) x)
      with (Dir (entry_set s (put_at (default (Dir []) (entry_get s es)) (t :: p) x) es)).
    rewrite walk_cons, Fs, entry_get_set_eq, Es. simpl default.
    apply IH. right. split; [exists es0; exact Hd | exact Hfit].
Qed.

(** Writing at [p] leaves every file alone that is not at or below [p]. *)
Lemma walk_put_frame p : forall n q x mt d,
  walk n q = inr (File mt d) ->
  is_prefix p q = false ->
  walk (put_at n p x) q = inr (File mt d).
Proof.
  induction p as [|s p IH]; intros n q x mt d Hq Hpre; [discriminate|].
  destruct q as [|t q].
  - simpl in Hq. injection Hq as ->. reflexivity.
  - destruct n as [mt' d'|es]; [discriminate|].
    apply walk_dir_cons in Hq as (Ft & c & Et & Hq).
    simpl put_at. rewrite walk_cons, Ft.
    simpl in Hpre. destruct (String.eqb_spec s t) as [->|Hne].
    + rewrite entry_get_set_eq, Et. simpl. apply IH; assumption.
    + rewrite entry_get_set_ne by assumption. rewrite Et. exact Hq.
Qed.

(** A file cannot sit below something that is not a directory. *)
Lemma file_not_below p : forall n q mt d,
  walk n q = inr (File mt d) -> ~ dir_at n p -> p <> q -> is_prefix p q = false.
Proof.
  induction p as [|s p IH]; intros n q mt d Hq Hnd Hne.
  - destruct q as [|t q]; [congruence|]. exfalso. apply Hnd.
    destruct n as [|es]; [discriminate|]. exists es. reflexivity.
  - destruct q as [|t q]; [reflexivity|]. simpl.
    destruct (String.eqb_spec s t) as [->|]; [|reflexivity]. simpl.
    destruct n as [|es]; [discriminate|].
    apply walk_dir_cons in Hq as (Ft & c & Et & Hq).
    apply (IH c q mt d Hq); [|congruence].
    intros [es' Hd]. apply Hnd. exists es'. now rewrite walk_cons, Ft, Et.
Qed.

Lemma mkdirp_cons es s p n' :
  mkdirp (Dir es) (s :: p) = inr n' ->
  name_fits s = true
  /\ exists c, mkdirp (default (Dir []) (entry_get s es)) p = inr c
               /\ n' = Dir (entry_set s c es).
Proof.
  cbn [mkdirp]. destruct (name_fits s); [|discriminate].
  destruct (mkdirp (default (Dir []) (entry_get s es)) p) as [e|c]; [discriminate|].
  intros H. injection H as <-. eauto.
Qed.

Lemma mkdirp_dir_at p : forall n n', mkdirp n p = inr n' -> dir_at n' p.
Proof.
  induction p as [|s p IH]; intros n n' H.
  - destruct n as [|es]; [discriminate|]. injection H as <-. exists es. reflexivity.
  - destruct n as [|es]; [discriminate|].
    apply mkdirp_cons in H as (Fs & c & Ec & ->).
    unfold dir_at. rewrite walk_cons, Fs, entry_get_set_eq.
    exact (IH _ _ Ec).
Qed.


Lemma walk_del_same p : forall n x,
  walk n p = inr x -> p <> [] -> walk (del_at n p) p = inl ENOENT.
Proof.
  induction p as [|s p IH]; intros n x Hw Hne; [congruence|].
  destruct n as [|es]; [discriminate|].
  apply walk_dir_cons in Hw as (Fs & c & Es & Hw).
  destruct p as [|t p].
  - cbn [del_at]. rewrite walk_cons, Fs. now rewrite entry_get_del_eq.
  - change (del_at (Dir es) (s :: t :: p))
      with (match entry_get s es with
            | None => Dir es
            | Some c => Dir (entry_set s (del_at c (t :: p)) es)
            end).
    rewrite Es, walk_cons, Fs, entry_get_set_eq. apply (IH c x Hw). discriminate.
Qed.

Lemma walk_del_enoent p : forall n q,
  walk n q = inl ENOENT -> walk (del_at n p) q = inl ENOENT.
Proof.
  induction p as [|s p IH]; intros n q Hq; [exact Hq|].
  destruct n as [mt d|es]; [destruct p; exact Hq|].
  destruct q as [|t q]; [discriminate|]. rewrite walk_cons in Hq.
  destruct (name_fits t) eqn:Ft; [|discriminate].
  destruct p as [|u p].
  - cbn [del_at]. rewrite walk_cons, Ft. destruct (String.eqb_spec s t) as [->|Hne].
    + now rewrite entry_get_del_eq.
    + rewrite entry_get_del_ne by assumption. exact Hq.
  - change (del_at (Dir es) (s :: u :: p))
      with (match entry_get s es with
            | None => Dir es
            | Some c => Dir (entry_set s (del_at c (u :: p)) es)
            end).
    destruct (entry_get s es) as [c|] eqn:Es; [|now rewrite walk_cons, Ft].
    rewrite walk_cons, Ft. destruct (String.eqb_spec s t) as [->|Hne].
    + rewrite entry_get_set_eq. rewrite Es in Hq. apply IH. exact Hq.
    + rewrite entry_get_set_ne by assumption. exact Hq.
Qed.

(** Writing a file never makes a directory out of what was none, as long
    as the parent of the file is there. *)
Lemma file_put_no_dir p : forall n q mt d,
  p <> [] -> dir_at n (removelast p) -> ~ dir_at n q ->
  ~ dir_at (put_at n p (File mt d)) q.
Proof.
  induction p as [|s p IH]; intros n q mt d Hne Hpar Hnd; [congruence|].
  destruct n as [mt' d'|es].
  { destruct Hpar as [es Hpar]. destruct p; simpl in Hpar; discriminate. }
  destruct q as [|t q]; [exfalso; apply Hnd; eexists; reflexivity|].
  simpl put_at. intros [ds Hq]. apply walk_dir_cons in Hq as (Ft & c1 & Et1 & Hq).
  destruct (String.eqb_spec s t) as [->|Hst].
  - rewrite entry_get_set_eq in Et1. injection Et1 as <-.
    destruct p as [|u p].
    + simpl in Hq. destruct q; discriminate.
    + rewrite removelast_cons in Hpar. destruct Hpar as [es0 Hpar].
      apply walk_dir_cons in Hpar as (_ & c & Et & Hpar). rewrite Et in Hq.
      simpl default in Hq.
      apply (IH c q mt d); [discriminate|exists es0; exact Hpar| |exists ds; exact Hq].
      intros [ds' Hd]. apply Hnd. exists ds'. now rewrite walk_cons, Ft, Et.
  - rewrite entry_get_set_ne in Et1 by assumption.
    apply Hnd. exists ds. now rewrite walk_cons, Ft, Et1.
Qed.

(** ** Paths of a key *)

Lemma length_append (a b : string) :
  String.length (a +:+ b) = (String.length a + String.length b)%nat.
Proof. induction a as [|c a IH]; simpl; [reflexivity|]. now rewrite IH. Qed.

Lemma split_slash_nonempty s : split_slash s <> [].
Proof.
  destruct s as [|c s]; simpl; [discriminate|].
  destruct (is_slash c); [discriminate|]. destruct (split_slash s); discriminate.
Qed.

(** Appending a suffix without a slash extends the last name. *)
Lemma split_slash_suffix s t :
  split_slash t = [t] ->
  split_slash (s +:+ t)
  = removelast (split_slash s) ++ [List.last (split_slash s) EmptyString +:+ t].
Proof.
  intros Ht. induction s as [|c s IH]; simpl.
  - exact Ht.
  - change (String c s +:+ t) with (String c (s +:+ t)). simpl.
    rewrite IH. pose proof (split_slash_nonempty s) as Hne.
    destruct (is_slash c).
    + destruct (split_slash s) as [|x xs] eqn:E; [congruence|]. reflexivity.
    + destruct (split_slash s) as [|x xs] eqn:E; [congruence|].
      destruct xs as [|y ys]; reflexivity.
Qed.

Lemma norm_onto_snoc stack names x :
  norm_onto stack (names ++ [x]) = push_seg (norm_onto stack names) x.
Proof. unfold norm_onto. now rewrite fold_left_app. Qed.

Lemma push_seg_length stack stack' x :
  (length stack <= length stack')%nat ->
  (length (push_seg stack x) <= length (push_seg stack' x))%nat.
Proof.
  intros H. unfold push_seg.
  destruct (String.eqb x "" || String.eqb x "."); [exact H|].
  destruct (String.eqb x "..").
  - destruct stack as [|a l] using rev_ind; [simpl; lia|].
    destruct stack' as [|a' l'] using rev_ind; [rewrite length_app in H; simpl in H; lia|].
    rewrite !removelast_last. rewrite !length_app in H. simpl in H. lia.
  - rewrite !length_app. simpl. lia.
Qed.

Lemma norm_onto_length names : forall stack stack',
  (length stack <= length stack')%nat ->
  (length (norm_onto stack names) <= length (norm_onto stack' names))%nat.
Proof.
  induction names as [|x names IH]; intros stack stack' H; [exact H|].
  simpl. apply IH. now apply push_seg_length.
Qed.

Lemma push_seg_json stack name :
  push_seg stack (name +:+ ".json") = stack ++ [name +:+ ".json"].
Proof.
  unfold push_seg.
  assert (Hlen : (5 <= String.length (name +:+ ".json"))%nat)
    by (rewrite length_append; simpl; lia).
  destruct (String.eqb_spec (name +:+ ".json") "") as [E|_];
    [rewrite E in Hlen; simpl in Hlen; lia|].
  destruct (String.eqb_spec (name +:+ ".json") ".") as [E|_];
    [rewrite E in Hlen; simpl in Hlen; lia|].
  destruct (String.eqb_spec (name +:+ ".json") "..") as [E|_];
    [rewrite E in Hlen; simpl in Hlen; lia|].
  reflexivity.
Qed.

Lemma append_nil_r (s : string) : s +:+ "" = s.
Proof. induction s as [|c s IH]; simpl; [reflexivity|]. change (String c s +:+ "") with (String c (s +:+ "")). now rewrite IH. Qed.


(** An instance as the constructor leaves it. *)
Definition constructed (self : LocalStorageProvider.t) : Prop :=
  LocalStorageProvider.metadataPath self = path_join (LocalStorageProvider.basePath self) ".metadata".

Lemma new_constructed {R} (config : jsval) (w w' : world R) self :
  LocalStorageProvider.new config w = (Returned self, w') -> constructed self.
Proof.
  unfold LocalStorageProvider.new. intros H. returned H.
  destruct (js_falsy a).
  - unfold ret in Hstep1. injection Hstep1 as <- <-.
    unfold ret in H. injection H as <- _. reflexivity.
  - destruct a; try discriminate.
    unfold ret in Hstep1. injection Hstep1 as <- <-.
    unfold ret in H. injection H as <- _. reflexivity.
Qed.

(** The content path and the sidecar path of a key are never the same. *)
Lemma sidecar_is_not_content self key :
  constructed self ->
  segs (LocalStorageProvider._getMetadataPath self key) <> segs (LocalStorageProvider._getFilePath self key).
Proof.
  intros Hc. unfold LocalStorageProvider._getMetadataPath, LocalStorageProvider._getFilePath. rewrite Hc.
  set (sk := sanitize key). set (base := segs (LocalStorageProvider.basePath self)).
  assert (HM : segs (path_join (path_join (LocalStorageProvider.basePath self) ".metadata") (sk +:+ ".json"))
               = norm_onto (base ++ [".metadata"]) (removelast (split_slash sk))
                 ++ [List.last (split_slash sk) EmptyString +:+ ".json"]).
  { unfold path_join at 1.
    destruct (String.eqb_spec (sk +:+ ".json") "") as [E|_].
    { apply (f_equal String.length) in E. rewrite length_append in E. simpl in E. lia. }
    cbn [segs]. rewrite split_slash_suffix by reflexivity.
    rewrite norm_onto_snoc, push_seg_json. reflexivity. }
  assert (HF : segs (path_join (LocalStorageProvider.basePath self) sk)
               = push_seg (norm_onto base (removelast (split_slash sk)))
                          (List.last (split_slash sk) EmptyString)).
  { unfold path_join. destruct (String.eqb_spec sk "") as [->|_]; [reflexivity|].
    cbn [segs]. rewrite <- norm_onto_snoc.
    rewrite <- app_removelast_last by apply split_slash_nonempty. reflexivity. }
  rewrite HM, HF.
  set (A := removelast (split_slash sk)). set (L := List.last (split_slash sk) EmptyString).
  assert (Hlen : (length (norm_onto base A) <= length (norm_onto (base ++ [".metadata"]) A))%nat).
  { apply norm_onto_length. rewrite length_app. lia. }
  intros E. unfold push_seg in E.
  destruct (String.eqb L "" || String.eqb L ".").
  { apply (f_equal (@length string)) in E. rewrite length_app in E. simpl in E. lia. }
  destruct (String.eqb L "..").
  { apply (f_equal (@length string)) in E. rewrite length_app in E. simpl in E.
    assert (length (removelast (norm_onto base A)) <= length (norm_onto base A))%nat.
    { destruct (norm_onto base A) as [|a l] using rev_ind; [simpl; lia|].
      rewrite removelast_last, length_app. lia. }
    lia. }
  apply app_inj_tail in E as [_ E].
  apply (f_equal String.length) in E. rewrite length_append in E. simpl in E. lia.
Qed.

(** ** The file-system calls: what a call that returned has done *)

Section FsCalls.
Context {R : Type}.
Implicit Types (w : world R) (p q : fpath).

Lemma locate_file root p mt d :
  locate root p = inr (File mt d)
  <-> path_fits p = true /\ walk root (segs p) = inr (File mt d) /\ dir_only p = false.
Proof.
  unfold locate. destruct (path_fits p); [|split; [discriminate|intros [H _]; discriminate H]].
  destruct (walk root (segs p)) as [e|[mt' d'|es]];
    [|destruct (dir_only p)|]; split; intros H; try tauto; try discriminate;
    try (destruct H as (_ & H & H'); discriminate); try (destruct H as (_ & H & H'); congruence).
Qed.

Lemma locate_enoent root p :
  locate root p = inl ENOENT
  <-> path_fits p = true /\ walk root (segs p) = inl ENOENT.
Proof.
  unfold locate. destruct (path_fits p); [|split; [discriminate|intros [H _]; discriminate H]].
  destruct (walk root (segs p)) as [e|[mt' d'|es]];
    [|destruct (dir_only p)|]; split; intros H; try tauto; try discriminate;
    destruct H as (_ & H); discriminate H.
Qed.

Lemma locate_found root p x :
  locate root p = inr x -> walk root (segs p) = inr x.
Proof.
  unfold locate. destruct (path_fits p); [|discriminate].
  destruct (walk root (segs p)) as [e|[mt' d'|es]];
    [|destruct (dir_only p)|]; intros H; try discriminate; exact H.
Qed.

Lemma locate_fits root p x : locate root p = inr x -> path_fits p = true.
Proof. unfold locate. destruct (path_fits p); [reflexivity|discriminate]. Qed.

Lemma locate_dir root p es :
  locate root p = inr (Dir es)
  <-> path_fits p = true /\ walk root (segs p) = inr (Dir es).
Proof.
  unfold locate. destruct (path_fits p); [|split; [discriminate|intros [H _]; discriminate H]].
  destruct (walk root (segs p)) as [e|[mt' d'|es']];
    [|destruct (dir_only p)|]; split; intros H; try tauto; try discriminate;
    destruct H as (_ & H); discriminate H.
Qed.

Lemma Date_now_run w a w' :
  Date_now w = (Returned a, w') ->
  a = w_clock w (w_ticks w) /\ w_fs w' = w_fs w /\ w_cwd w' = w_cwd w
  /\ w_clock w' = w_clock w /\ w_ticks w' = S (w_ticks w).
Proof. unfold Date_now. intros H. injection H as <- <-. simpl. auto. Qed.

(** A [fs.writeFile] that returned wrote a file where there was no
    directory, inside an existing directory, under a name and a path
    within the limits. *)
Lemma fs_writeFile_returned p data w u w' :
  fs_writeFile p data w = (Returned u, w') ->
  dir_only p = false
  /\ (segs p = [] \/ dir_at (w_fs w) (removelast (segs p)))
  /\ ~ dir_at (w_fs w) (segs p)
  /\ w_fs w' = put_at (w_fs w) (segs p) (File (w_clock w (w_ticks w)) data)
  /\ w_cwd w' = w_cwd w
  /\ path_fits p = true
  /\ name_fits (List.last (segs p) EmptyString) = true.
Proof.
  unfold fs_writeFile. unfold bind at 1. unfold gets at 1.
  assert (Hstore : forall u w',
    (t <~ Date_now ;; modify (with_fs (fun r => put_at r (segs p) (File t data)))) w
    = (Returned u, w') ->
    w_fs w' = put_at (w_fs w) (segs p) (File (w_clock w (w_ticks w)) data)
    /\ w_cwd w' = w_cwd w).
  { intros u0 w0 H. unfold bind, Date_now, modify, with_fs in H.
    injection H as _ <-. simpl. auto. }
  destruct (locate (w_fs w) p) as [e|[mt d|es]] eqn:El.
  - destruct e; try (intros H; discriminate H).
    apply locate_enoent in El as [Hfit El].
    destruct (walk (w_fs w) (removelast (segs p))) as [e|[mt d|es]] eqn:Ep;
      try (intros H; discriminate H).
    destruct (dir_only p) eqn:Ed; [intros H; discriminate H|].
    intros H. apply Hstore in H as [H1 H2]. split; [reflexivity|].
    split; [right; exists es; exact Ep|]. split; [|split; [exact H1|split; [exact H2|]]].
    + intros [es' Hd]. congruence.
    + split; [exact Hfit|].
      apply (walk_last_fits _ _ _ El); [right; reflexivity | exists es; exact Ep].
  - pose proof (locate_fits _ _ _ El) as Hfit.
    apply locate_file in El as (_ & El & Ed). intros H. apply Hstore in H as [H1 H2].
    split; [exact Ed|].
    assert (Hpar : segs p = [] \/ dir_at (w_fs w) (removelast (segs p))).
    { destruct (list_eq_nil_dec (segs p)) as [Es|Es]; [left; exact Es|right].
      exact (walk_parent _ _ _ El Es). }
    split; [exact Hpar|]. split; [|split; [exact H1|split; [exact H2|]]].
    + intros [es' Hd]. congruence.
    + split; [exact Hfit|]. destruct Hpar as [->|Hpar]; [reflexivity|].
      apply (walk_last_fits _ _ _ El); [left; eauto | exact Hpar].
  - intros H; discriminate H.
Qed.

Lemma fs_writeFile_reads p data w u w' :
  fs_writeFile p data w = (Returned u, w') ->
  locate (w_fs w') p = inr (File (w_clock w (w_ticks w)) data).
Proof.
  intros H. apply fs_writeFile_returned in H as (Hd & Hpar & _ & -> & _ & Hfit & Hname).
  apply locate_file. split; [exact Hfit|]. split; [|exact Hd].
  apply walk_put_same. destruct Hpar as [Hp|Hp]; [left; exact Hp | right; auto].
Qed.

Lemma fs_writeFile_frame p data w u w' q mt d :
  fs_writeFile p data w = (Returned u, w') ->
  locate (w_fs w) q = inr (File mt d) ->
  segs p <> segs q ->
  locate (w_fs w') q = inr (File mt d).
Proof.
  intros H Hq Hne. apply fs_writeFile_returned in H as (_ & _ & Hnd & -> & _).
  apply locate_file in Hq as (Hfq & Hq & Hdq). apply locate_file.
  split; [exact Hfq|]. split; [|exact Hdq].
  apply walk_put_frame; [exact Hq|]. exact (file_not_below _ _ _ _ _ Hq Hnd Hne).
Qed.

Lemma fs_ensureDir_returned p w u w' :
  fs_ensureDir p w = (Returned u, w') ->
  mkdirp (w_fs w) (segs p) = inr (w_fs w') /\ w_cwd w' = w_cwd w
  /\ w_clock w' = w_clock w /\ w_ticks w' = w_ticks w.
Proof.
  unfold fs_ensureDir, bind, gets.
  destruct (path_fits p); [|intros H; discriminate H].
  destruct (mkdirp (w_fs w) (segs p)) as [e|root']; [intros H; discriminate H|].
  unfold modify, with_fs. intros H. injection H as _ <-. simpl. auto.
Qed.


Lemma fs_stat_returned p w st w' :
  fs_stat p w = (Returned st, w') ->
  w' = w /\ exists n, locate (w_fs w) p = inr n /\ st = stats_of n.
Proof.
  unfold fs_stat, bind, gets. destruct (locate (w_fs w) p) as [e|n];
    [intros H; discriminate H|].
  unfold ret. intros H. injection H as <- <-. eauto.
Qed.

Lemma fs_pathExists_run p w :
  fs_pathExists p w
  = (Returned (match locate (w_fs w) p with inr _ => true | inl _ => false end), w).
Proof. reflexivity. Qed.

Lemma fs_readFile_file p w mt d :
  locate (w_fs w) p = inr (File mt d) -> fs_readFile p w = (Returned d, w).
Proof. intros H. unfold fs_readFile, bind, gets. rewrite H. reflexivity. Qed.

Lemma fs_stat_found p w n :
  locate (w_fs w) p = inr n -> fs_stat p w = (Returned (stats_of n), w).
Proof. intros H. unfold fs_stat, bind, gets. rewrite H. reflexivity. Qed.

(** What a [fs.copy] of a regular file that returned has done: the
    parent of the destination was created, and the bytes were written at
    the destination, which is no directory. *)
Lemma fs_copy_file_returned src dest w u w' mt d :
  fs_copy src dest w = (Returned u, w') ->
  locate (w_fs w) src = inr (File mt d) ->
  exists root1 t,
    mkdirp (w_fs w) (removelast (segs dest)) = inr root1
    /\ w_fs w' = put_at root1 (segs dest) (File t d)
    /\ dir_only dest = false /\ path_fits dest = true
    /\ name_fits (List.last (segs dest) EmptyString) = true
    /\ w_cwd w' = w_cwd w.
Proof.
  unfold fs_copy. unfold bind at 1. unfold gets at 1. intros H Hs. rewrite Hs in H.
  apply bind_returned in H as (dst & w1 & Hdst & H).
  assert (Hw1 : w1 = w /\ path_fits dest = true
                /\ (dir_only dest = true -> forall mt' d', dst <> Some (File mt' d'))).
  { destruct (locate (w_fs w) dest) as [e|n] eqn:El.
    - destruct e; try discriminate Hdst. apply locate_enoent in El as [Hfit _].
      unfold ret in Hdst. injection Hdst as <- <-.
      split; [reflexivity|]. split; [exact Hfit|]. intros; discriminate.
    - unfold ret in Hdst. injection Hdst as <- <-. split; [reflexivity|].
      split; [exact (locate_fits _ _ _ El)|].
      intros Ed mt' d' E. injection E as ->.
      apply locate_file in El as (_ & _ & Ed'). congruence. }
  destruct Hw1 as (-> & Hfit & Hfile).
  destruct (match dst with Some _ => same_segs (segs src) (segs dest) | None => false end);
    [discriminate H|].
  cbn [is_dir andb negb] in H.
  apply bind_returned in H as (u1 & w2 & Hmk & H).
  apply fs_ensureDir_returned in Hmk as (Hmk & Hcwd & _). cbn [path_dirname segs] in Hmk.
  destruct (dir_only dest && match dst with None => true | Some _ => false end) eqn:Eslash;
    [discriminate H|].
  destruct (name_fits (List.last (segs dest) EmptyString)) eqn:Fn; [|discriminate H].
  cbn [negb] in H.
  apply bind_returned in H as (t & w3 & Ht & H).
  apply Date_now_run in Ht as (_ & Hfs3 & Hcwd3 & _).
  assert (Hd : dir_only dest = false /\ copy_node t src dest (File mt d) dst = (File t d, None)).
  { destruct dst as [[mt' d'|ds]|]; cbn [copy_node] in *.
    - split; [|reflexivity]. destruct (dir_only dest) eqn:Ed; [|reflexivity].
      exfalso. exact (Hfile eq_refl _ _ eq_refl).
    - unfold bind, modify, throw in H. discriminate H.
    - split; [|reflexivity]. destruct (dir_only dest); [discriminate Eslash|reflexivity]. }
  destruct Hd as [Hd Hcopy]. rewrite Hcopy in H.
  unfold bind, modify, with_fs, ret in H. injection H as _ <-. cbn [w_fs w_cwd].
  exists (w_fs w2), t. rewrite Hfs3. repeat split; try assumption. congruence.
Qed.

(** A [fs.copy] of a regular file that returned left its bytes at the
    destination. *)
Lemma fs_copy_file src dest w u w' mt d :
  fs_copy src dest w = (Returned u, w') ->
  locate (w_fs w) src = inr (File mt d) ->
  (exists t, locate (w_fs w') dest = inr (File t d)) /\ w_cwd w' = w_cwd w.
Proof.
  intros H Hs.
  destruct (fs_copy_file_returned _ _ _ _ _ _ _ H Hs)
    as (root1 & t & Hmk & -> & Hd & Hfit & Hname & Hcwd).
  split; [|exact Hcwd]. exists t. apply locate_file.
  split; [exact Hfit|]. split; [|exact Hd].
  apply walk_put_same. right. split; [exact (mkdirp_dir_at _ _ _ Hmk) | exact Hname].
Qed.

End FsCalls.

(** ** C3: what [getMetadata] reads back after [upload] *)

(** What [lookup_path] reaches is what [path.resolve] computes. *)
Lemma reach_resolves root names : forall stack q,
  reach root stack names = inr q -> q = norm_onto stack names.
Proof.
  induction names as [|name rest IH]; intros stack q H.
  - injection H as <-. reflexivity.
  - cbn [reach] in H. unfold norm_onto. cbn [fold_left].
    destruct (String.eqb name "") eqn:E.
    + unfold push_seg. rewrite E. cbn [orb]. exact (IH _ _ H).
    + destruct (walk root stack) as [e|[mt d|es]]; try discriminate H.
      exact (IH _ _ H).
Qed.

Lemma lookup_path_resolves root cwd s p :
  lookup_path root cwd s = inr p -> path_resolve cwd s = Some p.
Proof.
  unfold lookup_path, path_resolve, start_of.
  destruct (String.eqb s ""); [discriminate|].
  destruct (PATH_MAX <=? String.length s)%nat; [discriminate|].
  destruct (reach root _ (split_slash s)) as [e|q] eqn:Er; [discriminate|].
  intros H. injection H as <-. apply reach_resolves in Er. now rewrite Er.
Qed.

(** The bytes a payload stands for in a tree: a buffer's own, the content
    of the file a path string names there, and otherwise the string's. *)
Definition payload_content (root : node) (cwd : list string) (data : payload) : string :=
  match data with
  | Buffer b => b
  | Text s =>
      match lookup_path root cwd s with
      | inr p => match locate root p with
                 | inr (File _ d) => d
                 | _ => s
                 end
      | inl _ => s
      end
  end.

Section UploadThenMetadata.
Context {P : Platform} {R : Type}.
Implicit Types (w : world R) (self : LocalStorageProvider.t).

Lemma _calculateHash_returned filePath w hash w' :
  LocalStorageProvider._calculateHash filePath w = (Returned hash, w') ->
  w' = w /\ exists mt d, locate (w_fs w) filePath = inr (File mt d) /\ hash = md5_hex d.
Proof.
  unfold LocalStorageProvider._calculateHash, bind, gets.
  destruct (locate (w_fs w) filePath) as [e|[mt d|es]]; try (intros H; discriminate H).
  unfold ret. intros H. injection H as <- <-. eauto.
Qed.

Lemma js_or_defined a b : b <> JUndefined -> js_or a b <> JUndefined.
Proof.
  intros Hb. unfold js_or. destruct (js_falsy a) eqn:E; [exact Hb|].
  destruct a; simpl in E; congruence.
Qed.

Lemma sidecar_fields key contentLength contentType hash uploadTime userMetadata :
  exists ps,
    json_normalize
      (JObj [("key", JStr key); ("size", JNum contentLength);
             ("contentType", js_or contentType LocalStorageProvider.octet_stream);
             ("hash", JStr hash);
             ("uploadTime", JStr uploadTime);
             ("metadata", js_or userMetadata (JObj []))]) = JObj ps
    /\ entry_get "size" ps = Some (JNum contentLength)
    /\ entry_get "hash" ps = Some (JStr hash).
Proof.
  assert (H1 : js_or contentType LocalStorageProvider.octet_stream <> JUndefined)
    by (apply js_or_defined; unfold LocalStorageProvider.octet_stream; congruence).
  assert (H2 : js_or userMetadata (JObj []) <> JUndefined)
    by (apply js_or_defined; congruence).
  destruct (js_or contentType LocalStorageProvider.octet_stream); try congruence;
    destruct (js_or userMetadata (JObj [])); try congruence;
    eexists; (split; [reflexivity|]); split; reflexivity.
Qed.

Lemma user_path_returned syscall s w p w' :
  user_path syscall s w = (Returned p, w') ->
  w' = w /\ lookup_path (w_fs w) (w_cwd w) s = inr p.
Proof.
  unfold user_path, bind, gets.
  destruct (lookup_path (w_fs w) (w_cwd w) s) as [e|p0]; [intros H; discriminate H|].
  unfold ret. intros H. injection H as <- <-. auto.
Qed.

Lemma fs_existsSync_run s w :
  fs_existsSync s w
  = (Returned match lookup_path (w_fs w) (w_cwd w) s with
              | inr p => match locate (w_fs w) p with inr _ => true | inl _ => false end
              | inl _ => false
              end, w).
Proof.
  unfold fs_existsSync, bind, gets.
  destruct (lookup_path (w_fs w) (w_cwd w) s); reflexivity.
Qed.

Lemma copy_node_of_dir mt sp dp es dst x :
  copy_node mt sp dp (Dir es) dst = (x, None) -> is_dir x = true.
Proof.
  intros H. simpl in H. destruct dst as [[mt' d'|ds]|].
  - discriminate H.
  - destruct (_ es ds) as [ds' err'] in H. injection H as <- _. reflexivity.
  - destruct (_ es []) as [ds' err'] in H. injection H as <- _. reflexivity.
Qed.

(** A [fs.copy] of a directory that returned left a directory at the
    destination. *)
Lemma fs_copy_dir src dest (w : world R) u w' es :
  fs_copy src dest w = (Returned u, w') ->
  locate (w_fs w) src = inr (Dir es) ->
  dir_at (w_fs w') (segs dest).
Proof.
  unfold fs_copy. unfold bind at 1. unfold gets at 1. intros H Hs. rewrite Hs in H.
  apply bind_returned in H as (dst & w1 & Hdst & H).
  destruct (match dst with Some _ => same_segs (segs src) (segs dest) | None => false end);
    [discriminate H|].
  destruct (is_dir (Dir es) && is_prefix (segs src) (segs dest)); [discriminate H|].
  apply bind_returned in H as (u1 & w2 & Hmk & H).
  apply fs_ensureDir_returned in Hmk as (Hmk & _). cbn [path_dirname segs] in Hmk.
  cbn [is_dir negb andb] in H.
  destruct (name_fits (List.last (segs dest) EmptyString)) eqn:Fn; [|discriminate H].
  cbn [negb] in H.
  apply bind_returned in H as (t & w3 & Ht & H).
  apply Date_now_run in Ht as (_ & Hfs3 & _).
  destruct (copy_node t src dest (Dir es) dst) as [x err] eqn:Ecopy.
  destruct err as [e|]; [unfold bind, modify, throw in H; discriminate H|].
  apply copy_node_of_dir in Ecopy.
  unfold bind, modify, with_fs, ret in H. injection H as _ <-. cbn [w_fs].
  rewrite Hfs3. unfold dir_at. rewrite walk_put_same.
  - destruct x; [discriminate Ecopy|]. eauto.
  - right. split; [exact (mkdirp_dir_at _ _ _ Hmk) | exact Fn].
Qed.

(** What the content step of [LocalStorageProvider.upload] leaves at the
    content path: the bytes of the payload, looked up in the tree as the
    step finds it. *)
Lemma upload_content_step self key data contentType (s0 : world R) isPath written s3 mt d :
  match data with
  | Buffer _ => ret false
  | Text s => fs_existsSync s
  end s0 = (Returned isPath, s0) ->
  (if isPath : bool
   then
     source <~ user_path "lstat" match data with Buffer b => b | Text s => s end ;;
     fs_copy source (LocalStorageProvider._getFilePath self key) ;;;
     stats <~ fs_stat (LocalStorageProvider._getFilePath self key) ;;
     ret (st_size stats,
          if js_falsy contentType
          then match mime_lookup match data with Buffer b => b | Text s => s end with
               | Some ty => JStr ty
               | None => LocalStorageProvider.octet_stream
               end
          else contentType)
   else
     fs_writeFile (LocalStorageProvider._getFilePath self key) match data with Buffer b => b | Text s => s end ;;;
     ret (byte_length match data with Buffer b => b | Text s => s end, contentType))
    s0 = (Returned written, s3) ->
  locate (w_fs s3) (LocalStorageProvider._getFilePath self key) = inr (File mt d) ->
  fst written = byte_length d /\ d = payload_content (w_fs s0) (w_cwd s0) data.
Proof.
  intros Hexists Hwrite Hloc.
  destruct isPath.
  - destruct data as [b|str]; [discriminate Hexists|].
    rewrite fs_existsSync_run in Hexists.
    returned Hwrite. apply user_path_returned in Hstep as [-> Hp].
    rewrite Hp in Hexists.
    destruct (locate (w_fs s0) a) as [e|n] eqn:En; [discriminate Hexists|].
    apply fs_stat_returned in Hstep1 as (-> & n' & Hn' & ->).
    unfold ret in Hwrite. injection Hwrite as <- <-.
    rewrite Hloc in Hn'. injection Hn' as <-. split; [reflexivity|].
    destruct n as [mt0 d0|es].
    + apply (fs_copy_file _ _ _ _ _ _ _ Hstep0) in En as Hafter.
      destruct Hafter as [[t Hafter] _]. rewrite Hloc in Hafter. injection Hafter as _ ->.
      unfold payload_content. rewrite Hp, En. reflexivity.
    + exfalso. destruct (fs_copy_dir _ _ _ _ _ _ Hstep0 En) as [es' Hd].
      apply locate_found in Hloc. congruence.
  - returned Hwrite. unfold ret in Hwrite. injection Hwrite as <- <-.
    apply fs_writeFile_reads in Hstep. rewrite Hloc in Hstep. injection Hstep as _ ->.
    split; [reflexivity|].
    destruct data as [b|str]; [reflexivity|].
    unfold payload_content. rewrite fs_existsSync_run in Hexists.
    destruct (lookup_path (w_fs s0) (w_cwd s0) str) as [e|p]; [reflexivity|].
    destruct (locate (w_fs s0) p) as [e|[mt0 d0|es]]; try reflexivity; discriminate Hexists.
Qed.

Lemma upload_returned self key data options w r w' :
  constructed self ->
  LocalStorageProvider.upload self key data options w = (Returned r, w') ->
  exists mt d t metadata,
    locate (w_fs w') (LocalStorageProvider._getFilePath self key) = inr (File mt d)
    /\ locate (w_fs w') (LocalStorageProvider._getMetadataPath self key) = inr (File t (JSON_stringify metadata))
    /\ (exists ps, json_normalize metadata = JObj ps
                   /\ entry_get "size" ps = Some (JNum (byte_length d))
                   /\ entry_get "hash" ps = Some (JStr (md5_hex d)))
    /\ ur_etag r = JStr (md5_hex d) /\ ur_size r = byte_length d
    /\ exists root0,
         mkdirp (w_fs w) (segs (path_dirname (LocalStorageProvider._getFilePath self key)))
         = inr root0
         /\ d = payload_content root0 (w_cwd w) data.
Proof.
  intros Hc H. unfold LocalStorageProvider.upload in H. returned H.
  destruct a3 as [contentLength contentType]. returned H.
  apply lift_sum_returned in Hstep1 as [_ ->].
  assert (s2 = s0) as ->.
  { destruct data; [unfold ret in Hstep2; congruence|].
    rewrite fs_existsSync_run in Hstep2. congruence. }
  apply _calculateHash_returned in Hstep4 as (-> & mt & d & Hloc & ->).
  pose proof (upload_content_step _ _ _ _ _ _ _ _ _ _ Hstep2 Hstep3 Hloc)
    as [Hlen Hd].
  simpl in Hlen. subst contentLength.
  apply Date_now_run in Hstep as (_ & Hfs0 & Hcwd0 & _).
  apply fs_ensureDir_returned in Hstep0 as (Hmk & Hcwd1 & _).
  rewrite Hfs0 in Hmk. rewrite Hcwd1, Hcwd0 in Hd.
  apply lift_sum_returned in Hstep5 as [_ ->].
  apply Date_now_run in Hstep6 as (-> & Hfs6 & _).
  rewrite <- Hfs6 in Hloc.
  pose proof (fs_writeFile_reads _ _ _ _ _ Hstep7) as Hmeta.
  pose proof (fs_writeFile_frame _ _ _ _ _ _ _ _ Hstep7 Hloc
                (sidecar_is_not_content self key Hc)) as Hcontent.
  apply Date_now_run in Hstep8 as (_ & Hfs8 & _).
  unfold ret in H. injection H as <- <-. rewrite Hfs8.
  exists mt, d. eexists. eexists.
  split; [exact Hcontent|]. split; [exact Hmeta|].
  split; [apply sidecar_fields|]. cbn [ur_etag ur_size].
  split; [reflexivity|]. split; [reflexivity|]. eauto.
Qed.


Definition prop_of (ps : list (string * jsval)) (k : string) : jsval :=
  default JUndefined (entry_get k ps).

Lemma getMetadata_reads self key w mt d t text ps :
  locate (w_fs w) (LocalStorageProvider._getFilePath self key) = inr (File mt d) ->
  locate (w_fs w) (LocalStorageProvider._getMetadataPath self key) = inr (File t text) ->
  JSON_parse text = Some (JObj ps) ->
  LocalStorageProvider.getMetadata self key w
  = (Returned (mkObjectMetadata key (prop_of ps "size") mt (prop_of ps "hash")
                                (prop_of ps "contentType")
                                (js_or (prop_of ps "metadata") (JObj []))
                                LocalStorageProvider.name), w).
Proof.
  intros HF HM Hparse. unfold LocalStorageProvider.getMetadata.
  apply rethrow_step.
  rewrite (bind_step _ _ w true w) by (rewrite fs_pathExists_run, HM; reflexivity).
  cbn [negb].
  rewrite (bind_step _ _ w text w) by (exact (fs_readFile_file _ _ _ _ HM)).
  rewrite (bind_step _ _ w (JObj ps) w) by (unfold LocalStorageProvider.parse_json; rewrite Hparse; reflexivity).
  rewrite (bind_step _ _ w _ w (fs_stat_found _ _ _ HF)).
  reflexivity.
Qed.


(** X20. When [upload] of the local provider returns, [getMetadata] of the
    same key, run in the state [upload] left, returns a record whose [size]
    is the byte length of the content of [data]: of the bytes themselves,
    or of the file when [data] is a path string that the operating system
    resolves to an existing file once the directory of the content file
    has been created ([root0]); a string that names no file is stored as
    its own bytes.  The [size] of the upload result is the same number. *)
Theorem upload_size_is_byte_length self key data options w r w' :
  constructed self ->
  LocalStorageProvider.upload self key data options w = (Returned r, w') ->
  exists root0 m,
    mkdirp (w_fs w) (segs (path_dirname (LocalStorageProvider._getFilePath self key)))
    = inr root0
    /\ LocalStorageProvider.getMetadata self key w' = (Returned m, w')
    /\ om_size m = JNum (byte_length (payload_content root0 (w_cwd w) data))
    /\ ur_size r = byte_length (payload_content root0 (w_cwd w) data).
Proof.
  intros Hc Hup.
  destruct (upload_returned _ _ _ _ _ _ _ Hc Hup)
    as (mt & d & t & metadata & HF & HM & (ps & Hnorm & Hsize & Hhash) & _ & Hlen
        & root0 & Hmk & Hd).
  assert (Hparse : JSON_parse (JSON_stringify metadata) = Some (JObj ps)).
  { rewrite JSON_parse_stringify; [now rewrite Hnorm|].
    intros ->. discriminate Hnorm. }
  exists root0. eexists. split; [exact Hmk|].
  split; [exact (getMetadata_reads _ _ _ _ _ _ _ _ HF HM Hparse)|].
  cbn [om_size]. unfold prop_of. rewrite Hsize, Hlen, Hd. auto.
Qed.

End UploadThenMetadata.

Definition store : LocalStorageProvider.t :=
  LocalStorageProvider.mkLocal (JObj [("basePath", JStr "/srv/store")])
          (mkPath ["srv"; "store"] false)
          (mkPath ["srv"; "store"; ".metadata"] false).

Definition empty_store : world unit :=
  mkWorld (Dir [("srv", Dir [("store", Dir [(".metadata", Dir [])])]);
                ("tmp", Dir [("report.txt", File 7 "0123456789")])])
          ["srv"] tt
          (fun n => 1700000000000 + Z.of_nat n) 0%nat
          (fun n => "r" +:+ pretty n) 0%nat.

Definition RP := ReferencePlatform.platform.

Lemma run_eq {St A} (x : outcome A * St) (a : A) :
  fst x = Returned a -> x = (Returned a, snd x).
Proof. destruct x as [o s]. simpl. intros ->. reflexivity. Qed.

Lemma upload_size_is_byte_length_witness :
  exists m,
    LocalStorageProvider.getMetadata (P := RP) store "hello.txt"
      (snd (LocalStorageProvider.upload (P := RP) store "hello.txt" (Text "/tmp/report.txt") JUndefined empty_store))
    = (Returned m,
       snd (LocalStorageProvider.upload (P := RP) store "hello.txt" (Text "/tmp/report.txt") JUndefined empty_store))
    /\ om_size m = JNum 10.
Proof.
  destruct (upload_size_is_byte_length (P := RP) store "hello.txt" (Text "/tmp/report.txt")
              JUndefined empty_store
              (mkUploadResult true "hello.txt" "/srv/store/hello.txt"
                              (JStr "md5:0123456789") 10 4 "local")
              (snd (LocalStorageProvider.upload (P := RP) store "hello.txt" (Text "/tmp/report.txt") JUndefined empty_store)))
    as (root0 & m & Hmk & Hm & Hsize & _).
  - reflexivity.
  - apply run_eq. vm_compute. reflexivity.
  - exists m. split; [exact Hm|].
    vm_compute in Hmk. injection Hmk as <-. exact Hsize.
Defined.

Definition uploaded : world unit :=
  snd (LocalStorageProvider.upload (P := RP) store "hello.txt" (Text "/tmp/report.txt")
         JUndefined empty_store).


(** A key with a directory part, on a store that was just initialised:
    [upload] creates the directory of the content file only, so writing the
    sidecar fails, and the content file stays behind without a record. *)
Lemma upload_of_a_nested_key_throws :
  fst (LocalStorageProvider.upload (P := RP) store "dir/k.txt" (Buffer "abc") JUndefined
         empty_store)
  = Thrown (Error ("Local storage upload failed: ENOENT: no such file or directory, "
                   +:+ "open '/srv/store/.metadata/dir/k.txt.json'"))
  /\ fst (LocalStorageProvider.exists_ store "dir/k.txt"
            (snd (LocalStorageProvider.upload (P := RP) store "dir/k.txt" (Buffer "abc")
                    JUndefined empty_store)))
     = Returned true
  /\ fst (LocalStorageProvider.getMetadata (P := RP) store "dir/k.txt"
            (snd (LocalStorageProvider.upload (P := RP) store "dir/k.txt" (Buffer "abc")
                    JUndefined empty_store)))
     = Thrown (Error "Failed to get metadata: Object 'dir/k.txt' not found").
Proof. repeat split; vm_compute; reflexivity. Qed.

(** ** C4: a key with a directory part

    [upload] creates the directory of the content file and never that of
    the sidecar. *)

Lemma is_prefix_removelast q : forall p,
  is_prefix q (removelast p) = true -> is_prefix q p = true.
Proof.
  induction q as [|s q IH]; intros p H; [reflexivity|].
  destruct p as [|t p]; [discriminate H|].
  destruct p as [|u p]; [discriminate H|].
  rewrite removelast_cons in H. cbn [is_prefix] in *.
  apply andb_true_iff in H as [Hst H]. rewrite Hst. exact (IH _ H).
Qed.

(** [mkdir -p] makes a directory only at its path or above it. *)
Lemma mkdirp_dir_inv p : forall n n' q,
  mkdirp n p = inr n' -> is_prefix q p = false -> dir_at n' q -> dir_at n q.
Proof.
  induction p as [|s p IH]; intros n n' q H Hpre Hq.
  - destruct n as [|es]; [discriminate|]. injection H as <-. exact Hq.
  - destruct n as [|es]; [discriminate|].
    apply mkdirp_cons in H as (Fs & c & Ec & ->).
    destruct q as [|t q]; [discriminate Hpre|].
    destruct Hq as [ds Hq]. apply walk_dir_cons in Hq as (Ft & c1 & Et & Hq).
    unfold dir_at. rewrite walk_cons, Ft. cbn [is_prefix] in Hpre.
    destruct (String.eqb_spec t s) as [->|Hne].
    + rewrite entry_get_set_eq in Et. injection Et as <-. cbn [andb] in Hpre.
      destruct (IH _ _ _ Ec Hpre (ex_intro _ ds Hq)) as [ds' Hq'].
      destruct (entry_get s es) as [c0|]; [exists ds'; exact Hq'|].
      simpl in Hq'. destruct q as [|u q]; [discriminate Hpre|].
      rewrite walk_cons in Hq'. destruct (name_fits u); discriminate Hq'.
    + rewrite entry_get_set_ne in Et by congruence. rewrite Et. exists ds. exact Hq.
Qed.

Lemma mkdirp_left_dir_inv p : forall n q,
  is_prefix q p = false -> dir_at (mkdirp_left n p) q -> dir_at n q.
Proof.
  induction p as [|s p IH]; intros n q Hpre Hq.
  - destruct n; exact Hq.
  - destruct n as [|es]; [exact Hq|]. cbn [mkdirp_left] in Hq.
    destruct (name_fits s) eqn:Fs; [|exact Hq].
    destruct q as [|t q]; [discriminate Hpre|].
    destruct Hq as [ds Hq]. apply walk_dir_cons in Hq as (Ft & c1 & Et & Hq).
    unfold dir_at. rewrite walk_cons, Ft. cbn [is_prefix] in Hpre.
    destruct (String.eqb_spec t s) as [->|Hne].
    + rewrite entry_get_set_eq in Et. injection Et as <-. cbn [andb] in Hpre.
      destruct (IH _ _ Hpre (ex_intro _ ds Hq)) as [ds' Hq'].
      destruct (entry_get s es) as [c0|]; [exists ds'; exact Hq'|].
      simpl in Hq'. destruct q as [|u q]; [discriminate Hpre|].
      rewrite walk_cons in Hq'. destruct (name_fits u); discriminate Hq'.
    + rewrite entry_get_set_ne in Et by congruence. rewrite Et. exists ds. exact Hq.
Qed.

(** Writing at [p] makes a directory only at [p], below it or above it. *)
Lemma put_dir_inv p : forall n q x,
  is_prefix p q = false -> is_prefix q p = false ->
  dir_at (put_at n p x) q -> dir_at n q.
Proof.
  induction p as [|s p IH]; intros n q x Hpq Hqp Hq; [discriminate Hpq|].
  destruct q as [|t q]; [discriminate Hqp|].
  destruct n as [|es]; [exact Hq|]. cbn [put_at] in Hq.
  destruct Hq as [ds Hq]. apply walk_dir_cons in Hq as (Ft & c1 & Et & Hq).
  unfold dir_at. rewrite walk_cons, Ft. cbn [is_prefix] in Hpq, Hqp.
  destruct (String.eqb_spec t s) as [->|Hne].
  - rewrite entry_get_set_eq in Et. injection Et as <-.
    rewrite String.eqb_refl in Hpq. cbn [andb] in Hpq, Hqp.
    destruct (IH _ _ _ Hpq Hqp (ex_intro _ ds Hq)) as [ds' Hq'].
    destruct (entry_get s es) as [c0|]; [exists ds'; exact Hq'|].
    simpl in Hq'. destruct q as [|u q]; [discriminate Hqp|].
    rewrite walk_cons in Hq'. destruct (name_fits u); discriminate Hq'.
  - rewrite entry_get_set_ne in Et by congruence. rewrite Et. exists ds. exact Hq.
Qed.

Lemma sidecar_segs (self : LocalStorageProvider.t) key :
  exists above name,
    segs (LocalStorageProvider._getMetadataPath self key) = above ++ [name +:+ ".json"].
Proof.
  unfold LocalStorageProvider._getMetadataPath. cbv zeta. unfold path_join.
  destruct (String.eqb_spec (sanitize key +:+ ".json") "") as [E|_].
  { apply (f_equal String.length) in E. rewrite length_append in E. simpl in E. lia. }
  cbn [segs]. rewrite split_slash_suffix by reflexivity.
  rewrite norm_onto_snoc, push_seg_json. eauto.
Qed.

Section SidecarDirectory.
Context {P : Platform} {R : Type}.
Variable self : LocalStorageProvider.t.
Variable key : string.

Let filePath := LocalStorageProvider._getFilePath self key.
Let metadataFile := LocalStorageProvider._getMetadataPath self key.
Let sidecarDir := removelast (segs metadataFile).

(** The directory of the sidecar is not on the content path, nor the
    content path on its way. *)
Hypothesis Hbeside : is_prefix sidecarDir (segs filePath) = false.
Hypothesis Hbeside' : is_prefix (segs filePath) sidecarDir = false.

(** A computation that does not create the directory of the sidecar,
    whatever its outcome. *)
Definition leaves_absent {A} (m : M (world R) A) : Prop :=
  forall w o w', m w = (o, w') ->
                 ~ dir_at (w_fs w) sidecarDir -> ~ dir_at (w_fs w') sidecarDir.

(** A computation that does not return where that directory is absent. *)
Definition stops {A} (m : M (world R) A) : Prop :=
  forall w a w', ~ dir_at (w_fs w) sidecarDir -> m w <> (Returned a, w').

Lemma leaves_bind {A B} (m : M (world R) A) (k : A -> M (world R) B) :
  leaves_absent m -> (forall a, leaves_absent (k a)) -> leaves_absent (bind m k).
Proof.
  intros Hm Hk w o w'. unfold bind. destruct (m w) as [[a|e] w1] eqn:Em.
  - intros H Hw. exact (Hk _ _ _ _ H (Hm _ _ _ Em Hw)).
  - intros H Hw. injection H as _ <-. exact (Hm _ _ _ Em Hw).
Qed.

Lemma leaves_try_catch {A} (m : M (world R) A) h :
  leaves_absent m -> (forall e, leaves_absent (h e)) -> leaves_absent (try_catch m h).
Proof.
  intros Hm Hh w o w'. unfold try_catch. destruct (m w) as [[a|e] w1] eqn:Em.
  - intros H Hw. injection H as _ <-. exact (Hm _ _ _ Em Hw).
  - intros H Hw. exact (Hh _ _ _ _ H (Hm _ _ _ Em Hw)).
Qed.

Lemma leaves_ret {A} (a : A) : leaves_absent (ret a).
Proof. intros w o w' H. injection H as _ <-. auto. Qed.

Lemma leaves_throw {A} e : leaves_absent (throw (A := A) e).
Proof. intros w o w' H. injection H as _ <-. auto. Qed.

Lemma leaves_gets {A} (f : world R -> A) : leaves_absent (gets f).
Proof. intros w o w' H. injection H as _ <-. auto. Qed.

Lemma leaves_Date_now : leaves_absent (Date_now (R := R)).
Proof. intros w o w' H. injection H as _ <-. auto. Qed.

Lemma leaves_lift_sum {A} (r : js_error + A) : leaves_absent (lift_sum r).
Proof. destruct r; [apply leaves_throw | apply leaves_ret]. Qed.

Lemma leaves_put x :
  leaves_absent (modify (with_fs (fun r => put_at r (segs filePath) x))).
Proof.
  intros w o w' H Hw. injection H as _ <-. cbn [w_fs with_fs]. intros Hd.
  exact (Hw (put_dir_inv _ _ _ _ Hbeside' Hbeside Hd)).
Qed.

Ltac leaves :=
  repeat match goal with
         | |- leaves_absent (bind _ _) => apply leaves_bind; [|intros ?]
         | |- leaves_absent (try_catch _ _) => apply leaves_try_catch; [|intros ?]
         | |- leaves_absent (rethrow _ _) => apply leaves_try_catch; [|intros ?]
         | |- leaves_absent (ret _) => apply leaves_ret
         | |- leaves_absent (throw _) => apply leaves_throw
         | |- leaves_absent (gets _) => apply leaves_gets
         | |- leaves_absent (lift_sum _) => apply leaves_lift_sum
         | |- leaves_absent Date_now => apply leaves_Date_now
         | |- leaves_absent (modify (with_fs (fun r => put_at r (segs filePath) _))) =>
             apply leaves_put
         | |- leaves_absent (match ?x with _ => _ end) => destruct x
         end.

Lemma leaves_ensureDir :
  leaves_absent (fs_ensureDir (path_dirname filePath)).
Proof.
  assert (Hpre : is_prefix sidecarDir (segs (path_dirname filePath)) = false).
  { cbn [path_dirname segs].
    destruct (is_prefix sidecarDir (removelast (segs filePath))) eqn:E; [|reflexivity].
    apply is_prefix_removelast in E. congruence. }
  intros w o w'. unfold fs_ensureDir, bind, gets.
  destruct (path_fits (path_dirname filePath)); [|intros H; injection H as _ <-; auto].
  destruct (mkdirp (w_fs w) (segs (path_dirname filePath))) as [e|root'] eqn:Emk.
  - unfold modify, throw. intros H Hw. injection H as _ <-. cbn [w_fs with_fs].
    intros Hd. exact (Hw (mkdirp_left_dir_inv _ _ _ Hpre Hd)).
  - unfold modify. intros H Hw. injection H as _ <-. cbn [w_fs with_fs].
    intros Hd. exact (Hw (mkdirp_dir_inv _ _ _ _ Emk Hpre Hd)).
Qed.

Lemma leaves_copy src : leaves_absent (fs_copy src filePath).
Proof. unfold fs_copy. leaves; apply leaves_ensureDir. Qed.

(** Writing a file anywhere makes no directory, and a write that throws
    has written nothing. *)
Lemma leaves_writeFile p data : leaves_absent (fs_writeFile p data).
Proof.
  intros w o w' H Hw. destruct o as [u|e].
  - apply fs_writeFile_returned in H as (_ & Hpar & _ & -> & _).
    destruct Hpar as [Hp|Hpar].
    + rewrite Hp. cbn [put_at]. intros [ds Hd]. destruct sidecarDir; discriminate Hd.
    + destruct (list_eq_nil_dec (segs p)) as [Es|Es].
      * rewrite Es. cbn [put_at]. intros [ds Hd]. destruct sidecarDir; discriminate Hd.
      * apply file_put_no_dir; assumption.
  - assert (w' = w) as ->; [|exact Hw].
    revert H. unfold fs_writeFile, bind, gets, throw, Date_now, modify. cbv beta iota.
    destruct (locate (w_fs w) p) as [[]|[? ?|?]];
      repeat match goal with
             | |- context [match ?x with _ => _ end] => destruct x
             end; intros H; first [discriminate H | now injection H].
Qed.

Lemma leaves_existsSync s : leaves_absent (fs_existsSync (R := R) s).
Proof. unfold fs_existsSync, fs_pathExists. leaves. Qed.

Lemma leaves_user_path syscall s : leaves_absent (user_path (R := R) syscall s).
Proof. unfold user_path. leaves. Qed.

Lemma leaves_stat p : leaves_absent (fs_stat (R := R) p).
Proof. unfold fs_stat. leaves. Qed.

Lemma leaves_calculateHash p : leaves_absent (LocalStorageProvider._calculateHash (R := R) p).
Proof. unfold LocalStorageProvider._calculateHash. leaves. Qed.

Lemma stops_bind {A B} (m : M (world R) A) (k : A -> M (world R) B) :
  leaves_absent m -> (forall a, stops (k a)) -> stops (bind m k).
Proof.
  intros Hm Hk w b w' Hw. unfold bind. destruct (m w) as [[a|e] w1] eqn:Em.
  - exact (Hk a w1 b w' (Hm _ _ _ Em Hw)).
  - discriminate.
Qed.

Lemma stops_first {A B} (m : M (world R) A) (k : A -> M (world R) B) :
  stops m -> stops (bind m k).
Proof.
  intros Hm w b w' Hw. unfold bind. destruct (m w) as [[a|e] w1] eqn:Em.
  - exfalso. exact (Hm _ _ _ Hw Em).
  - discriminate.
Qed.

Lemma stops_rethrow {A} prefix (m : M (world R) A) : stops m -> stops (rethrow prefix m).
Proof.
  intros Hm w a w' Hw. unfold rethrow, try_catch. destruct (m w) as [[a'|e] w1] eqn:Em.
  - exfalso. exact (Hm _ _ _ Hw Em).
  - discriminate.
Qed.

(** The write of the sidecar needs its directory. *)
Lemma stops_sidecar text : stops (fs_writeFile metadataFile text).
Proof.
  intros w u w' Hw H. apply fs_writeFile_returned in H as (_ & [Hp|Hpar] & _).
  - destruct (sidecar_segs self key) as (above & name & E).
    fold metadataFile in E. rewrite Hp in E. destruct above; discriminate E.
  - exact (Hw Hpar).
Qed.

Lemma upload_leaves data options :
  leaves_absent (LocalStorageProvider.upload (R := R) self key data options).
Proof.
  unfold LocalStorageProvider.upload. cbv zeta. fold filePath metadataFile.
  leaves;
    first [ apply leaves_ensureDir | apply leaves_copy | apply leaves_writeFile
          | apply leaves_existsSync | apply leaves_user_path | apply leaves_stat
          | apply leaves_calculateHash ].
Qed.

Lemma upload_stops data options :
  stops (LocalStorageProvider.upload (R := R) self key data options).
Proof.
  unfold LocalStorageProvider.upload. cbv zeta. fold filePath metadataFile.
  apply stops_bind; [apply leaves_Date_now|intros startTime].
  apply stops_rethrow.
  apply stops_bind; [apply leaves_ensureDir|intros _].
  apply stops_bind; [apply leaves_lift_sum|intros contentType].
  apply stops_bind; [destruct data; first [apply leaves_existsSync|apply leaves_ret]|intros isPath].
  apply stops_bind.
  { destruct isPath; leaves;
      first [ apply leaves_copy | apply leaves_writeFile | apply leaves_user_path
            | apply leaves_stat ]. }
  intros [contentLength contentType'].
  apply stops_bind; [apply leaves_calculateHash|intros hash].
  apply stops_bind; [apply leaves_lift_sum|intros userMetadata].
  apply stops_bind; [apply leaves_Date_now|intros uploadTime].
  apply stops_first. apply stops_sidecar.
Qed.

(** Without the directory of its sidecar a key has no metadata. *)
Lemma getMetadata_without_directory (w : world R) :
  ~ dir_at (w_fs w) sidecarDir ->
  LocalStorageProvider.getMetadata self key w
  = (Thrown (Error ("Failed to get metadata: Object '" +:+ key +:+ "' not found")), w).
Proof.
  intros Hw. unfold LocalStorageProvider.getMetadata. cbv zeta. fold metadataFile.
  apply rethrow_thrown with (e := LocalStorageProvider.not_found key).
  rewrite (bind_step _ _ _ _ _ (fs_pathExists_run _ _)).
  destruct (locate (w_fs w) metadataFile) as [e|n] eqn:El; [reflexivity|].
  exfalso. apply Hw.
  destruct (sidecar_segs self key) as (above & name & E). fold metadataFile in E.
  assert (Hwalk : walk (w_fs w) (segs metadataFile) = inr n).
  { revert El. unfold locate. destruct (path_fits metadataFile); [|discriminate].
    destruct (walk (w_fs w) (segs metadataFile)) as [e|[mt d|es]]; try discriminate.
    - destruct (dir_only metadataFile); [discriminate|]. intros H; injection H as <-. reflexivity.
    - intros H; injection H as <-. reflexivity. }
  apply (walk_parent _ _ _ Hwalk). rewrite E. destruct above; discriminate.
Qed.

End SidecarDirectory.

(** C4. The size recorded by an upload cannot be read back for every
    key: [upload] creates the directory of the content file (the one
    [ensureDir] of its body) and never that of the sidecar, so where the
    directory of the sidecar of [key] does not exist, as for any key with
    a directory part on a store that holds no key below that part yet,
    the write of the sidecar throws, [upload] throws with it, whatever
    the data, and the [getMetadata] that follows throws that the object
    is not found instead of returning a record with a size. *)
Theorem upload_without_sidecar_directory_throws
    {P : Platform} {R : Type} (self : LocalStorageProvider.t) key data options (w : world R) :
  let filePath := LocalStorageProvider._getFilePath self key in
  let sidecarDir := removelast (segs (LocalStorageProvider._getMetadataPath self key)) in
  ~ dir_at (w_fs w) sidecarDir ->
  is_prefix sidecarDir (segs filePath) = false ->
  is_prefix (segs filePath) sidecarDir = false ->
  exists e w',
    LocalStorageProvider.upload self key data options w = (Thrown e, w')
    /\ LocalStorageProvider.getMetadata self key w'
       = (Thrown (Error ("Failed to get metadata: Object '" +:+ key +:+ "' not found")), w').
Proof.
  intros filePath sidecarDir Hw H1 H2.
  destruct (LocalStorageProvider.upload self key data options w) as [[r|e] w'] eqn:Eu.
  - exfalso. exact (upload_stops self key H1 H2 data options w r w' Hw Eu).
  - exists e, w'. split; [reflexivity|].
    apply getMetadata_without_directory.
    exact (upload_leaves self key H1 H2 data options w _ w' Eu Hw).
Qed.

Lemma upload_without_sidecar_directory_throws_witness :
  exists e w',
    LocalStorageProvider.upload (P := RP) store "dir/k.txt" (Buffer "abc") JUndefined
      empty_store
    = (Thrown e, w')
    /\ LocalStorageProvider.getMetadata (P := RP) store "dir/k.txt" w'
       = (Thrown (Error "Failed to get metadata: Object 'dir/k.txt' not found"), w').
Proof.
  apply (upload_without_sidecar_directory_throws (P := RP) store "dir/k.txt" (Buffer "abc")
           JUndefined empty_store).
  - intros [es H]. vm_compute in H. discriminate H.
  - vm_compute. reflexivity.
  - vm_compute. reflexivity.
Defined.

(** ** C2: deleting twice *)

Section DeleteTwice.
Context {P : Platform} {R : Type}.
Implicit Types (w : world R) (p q : fpath).

Lemma fs_remove_absent p w :
  locate (w_fs w) p = inl ENOENT -> fs_remove p w = (Returned tt, w).
Proof. intros H. unfold fs_remove, bind, gets. rewrite H. reflexivity. Qed.

Lemma fs_remove_found p w x :
  locate (w_fs w) p = inr x ->
  fs_remove p w
  = match segs p with
    | [] => (Thrown (fs_error EBUSY "rmdir" (render_path p)), with_fs (fun _ => Dir []) w)
    | _ => (Returned tt, with_fs (fun r => del_at r (segs p)) w)
    end.
Proof.
  intros H. unfold fs_remove, bind, gets. rewrite H. destruct (segs p); reflexivity.
Qed.

Lemma fs_remove_returned p w u w' :
  fs_remove p w = (Returned u, w') ->
  locate (w_fs w') p = inl ENOENT
  /\ forall q, locate (w_fs w) q = inl ENOENT -> locate (w_fs w') q = inl ENOENT.
Proof.
  destruct (locate (w_fs w) p) as [e|x] eqn:El.
  - unfold fs_remove, bind, gets. rewrite El.
    destruct e; try (intros H; discriminate H).
    unfold ret. intros H. injection H as _ <-. auto.
  - rewrite (fs_remove_found _ _ _ El).
    destruct (list_eq_nil_dec (segs p)) as [Es|Es].
    { rewrite Es. intros H. discriminate H. }
    intros H. assert (w' = with_fs (fun r => del_at r (segs p)) w) as ->.
    { destruct (segs p); [congruence|]. now injection H. }
    change (w_fs (with_fs (fun r => del_at r (segs p)) w))
      with (del_at (w_fs w) (segs p)).
    pose proof (locate_fits _ _ _ El) as Hfit.
    apply locate_found in El. split.
    + apply locate_enoent. split; [exact Hfit|]. exact (walk_del_same _ _ _ El Es).
    + intros q Hq. apply locate_enoent in Hq as [Hfq Hq]. apply locate_enoent.
      split; [exact Hfq|]. now apply walk_del_enoent.
Qed.

(** [fs.remove] forgives a missing path and nothing else: any other
    failure to reach the path is thrown, and nothing is removed. *)
Lemma fs_remove_refused p w e :
  locate (w_fs w) p = inl e -> e <> ENOENT ->
  fs_remove p w = (Thrown (fs_error e "lstat" (render_path p)), w).
Proof.
  intros H He. unfold fs_remove, bind, gets. rewrite H.
  destruct e; try reflexivity. congruence.
Qed.

Lemma delete_refused (self : LocalStorageProvider.t) key w e :
  locate (w_fs w) (LocalStorageProvider._getFilePath self key) = inl e ->
  e <> ENOENT ->
  LocalStorageProvider.delete self key w
  = (Thrown (Error ("Local storage delete failed: " +:+ describe e +:+ ", lstat '"
                    +:+ render_path (LocalStorageProvider._getFilePath self key) +:+ "'")),
     w)
  /\ LocalStorageProvider.exists_ self key w = (Returned false, w).
Proof.
  intros H He. split.
  - unfold LocalStorageProvider.delete.
    apply rethrow_thrown with (e := fs_error e "lstat"
                                      (render_path (LocalStorageProvider._getFilePath self key))).
    now rewrite (bind_thrown _ _ _ _ _ (fs_remove_refused _ _ _ H He)).
  - unfold LocalStorageProvider.exists_. apply rethrow_step.
    rewrite fs_pathExists_run, H. reflexivity.
Qed.

Lemma delete_sidecar_refused (self : LocalStorageProvider.t) key w e :
  locate (w_fs w) (LocalStorageProvider._getFilePath self key) = inl ENOENT ->
  locate (w_fs w) (LocalStorageProvider._getMetadataPath self key) = inl e ->
  e <> ENOENT ->
  LocalStorageProvider.delete self key w
  = (Thrown (Error ("Local storage delete failed: " +:+ describe e +:+ ", lstat '"
                    +:+ render_path (LocalStorageProvider._getMetadataPath self key)
                    +:+ "'")),
     w).
Proof.
  intros HF HM He. unfold LocalStorageProvider.delete.
  apply rethrow_thrown
    with (e := fs_error e "lstat"
                 (render_path (LocalStorageProvider._getMetadataPath self key))).
  cbv zeta. rewrite (bind_step _ _ _ _ _ (fs_remove_absent _ _ HF)).
  now rewrite (bind_thrown _ _ _ _ _ (fs_remove_refused _ _ _ HM He)).
Qed.

Lemma delete_of_a_lone_sidecar (self : LocalStorageProvider.t) key w x :
  locate (w_fs w) (LocalStorageProvider._getFilePath self key) = inl ENOENT ->
  locate (w_fs w) (LocalStorageProvider._getMetadataPath self key) = inr x ->
  LocalStorageProvider.delete self key w
  = (Returned (mkDeleteResult true key "local"),
     with_fs (fun r => del_at r (segs (LocalStorageProvider._getMetadataPath self key))) w).
Proof.
  intros HF HM. unfold LocalStorageProvider.delete. apply rethrow_step.
  cbv zeta. rewrite (bind_step _ _ _ _ _ (fs_remove_absent _ _ HF)).
  pose proof (fs_remove_found _ _ _ HM) as Hrm.
  destruct (sidecar_segs self key) as (above & name & E).
  destruct (segs (LocalStorageProvider._getMetadataPath self key)) as [|s l] eqn:Es.
  { destruct above; discriminate E. }
  rewrite (bind_step _ _ _ _ _ Hrm). reflexivity.
Qed.

(** C2. For the local provider, a [delete] that returns leaves the key
    absent for [exists] and a second [delete] returns the same success
    result; [delete] of a key whose content path and sidecar path are both
    missing ([lstat] answers [ENOENT]) returns success and changes
    nothing; but when [lstat] of the content path fails in any other way
    (a name on the way is a regular file, a name or the path is too long)
    the key is absent for [exists] and [delete] throws that error behind
    "Local storage delete failed: ", changing nothing, so that it throws
    again however often it is repeated.  Where the content path is
    missing and [lstat] of the sidecar path fails in such a way, [delete]
    throws the same way, naming the sidecar path; where the sidecar is
    there alone, [delete] removes it and returns success.  For the Azure
    provider, [delete] returns success exactly when the SDK's own [delete]
    of the blob does, and otherwise throws the SDK's error behind the
    prefix "Azure Blob Storage delete failed: ". *)
Theorem delete_twice :
  (forall (self : LocalStorageProvider.t) key w r w',
      LocalStorageProvider.delete self key w = (Returned r, w') ->
      r = mkDeleteResult true key "local"
      /\ LocalStorageProvider.exists_ self key w' = (Returned false, w')
      /\ LocalStorageProvider.delete self key w' = (Returned r, w'))
  /\ (forall (self : LocalStorageProvider.t) key w,
         locate (w_fs w) (LocalStorageProvider._getFilePath self key) = inl ENOENT ->
         locate (w_fs w) (LocalStorageProvider._getMetadataPath self key) = inl ENOENT ->
         LocalStorageProvider.delete self key w
         = (Returned (mkDeleteResult true key "local"), w))
  /\ (forall (self : LocalStorageProvider.t) key w e,
         locate (w_fs w) (LocalStorageProvider._getFilePath self key) = inl e ->
         e <> ENOENT ->
         LocalStorageProvider.delete self key w
         = (Thrown (Error ("Local storage delete failed: " +:+ describe e +:+ ", lstat '"
                           +:+ render_path (LocalStorageProvider._getFilePath self key)
                           +:+ "'")), w)
         /\ LocalStorageProvider.exists_ self key w = (Returned false, w))
  /\ (forall (self : LocalStorageProvider.t) key w e,
         locate (w_fs w) (LocalStorageProvider._getFilePath self key) = inl ENOENT ->
         locate (w_fs w) (LocalStorageProvider._getMetadataPath self key) = inl e ->
         e <> ENOENT ->
         LocalStorageProvider.delete self key w
         = (Thrown (Error ("Local storage delete failed: " +:+ describe e +:+ ", lstat '"
                           +:+ render_path (LocalStorageProvider._getMetadataPath self key)
                           +:+ "'")), w))
  /\ (forall (self : LocalStorageProvider.t) key w x,
         locate (w_fs w) (LocalStorageProvider._getFilePath self key) = inl ENOENT ->
         locate (w_fs w) (LocalStorageProvider._getMetadataPath self key) = inr x ->
         LocalStorageProvider.delete self key w
         = (Returned (mkDeleteResult true key "local"),
            with_fs (fun r =>
                       del_at r (segs (LocalStorageProvider._getMetadataPath self key))) w))
  /\ (forall (self : AzureStorageProvider.t R) client key w,
         AzureStorageProvider.containerClient self = Some client ->
         match AzureStorageProvider.blob_delete
                 (AzureStorageProvider.getBlockBlobClient client key) w with
         | (Returned _, w') =>
             AzureStorageProvider.delete self key w
             = (Returned (mkDeleteResult true key "azure"), w')
         | (Thrown e, w') =>
             AzureStorageProvider.delete self key w
             = (Thrown (Error ("Azure Blob Storage delete failed: " +:+ message e)), w')
         end).
Proof.
  assert (Habsent : forall (self : LocalStorageProvider.t) key w,
    locate (w_fs w) (LocalStorageProvider._getFilePath self key) = inl ENOENT ->
    locate (w_fs w) (LocalStorageProvider._getMetadataPath self key) = inl ENOENT ->
    LocalStorageProvider.delete self key w
    = (Returned (mkDeleteResult true key "local"), w)).
  { intros self key w HF HM. unfold LocalStorageProvider.delete. apply rethrow_step.
    rewrite (bind_step _ _ _ _ _ (fs_remove_absent _ _ HF)).
    rewrite (bind_step _ _ _ _ _ (fs_remove_absent _ _ HM)). reflexivity. }
  split; [|split; [exact Habsent|split; [exact delete_refused|]]];
    [|split; [exact delete_sidecar_refused|split; [exact delete_of_a_lone_sidecar|]]].
  - intros self key w r w' H. unfold LocalStorageProvider.delete in H. returned H.
    unfold ret in H. injection H as <- <-.
    apply fs_remove_returned in Hstep as [HF _].
    apply fs_remove_returned in Hstep0 as [HM Hkeep].
    specialize (Hkeep _ HF).
    split; [reflexivity|]. split; [|now apply Habsent].
    unfold LocalStorageProvider.exists_. apply rethrow_step.
    rewrite fs_pathExists_run, Hkeep. reflexivity.
  - intros self client key w Hclient. unfold AzureStorageProvider.delete.
    destruct (AzureStorageProvider.blob_delete _ w) as [[u|e] w'] eqn:Edel.
    + apply rethrow_step. unfold AzureStorageProvider.blockBlobClient. rewrite Hclient.
      rewrite (bind_step _ _ w _ w) by reflexivity.
      rewrite (bind_step _ _ _ _ _ Edel). reflexivity.
    + apply rethrow_thrown. unfold AzureStorageProvider.blockBlobClient. rewrite Hclient.
      rewrite (bind_step _ _ w _ w) by reflexivity.
      rewrite (bind_thrown _ _ _ _ _ Edel). reflexivity.
Qed.

End DeleteTwice.

Lemma delete_twice_witness :
  LocalStorageProvider.exists_ store "hello.txt"
    (snd (LocalStorageProvider.delete store "hello.txt" uploaded))
  = (Returned false, snd (LocalStorageProvider.delete store "hello.txt" uploaded))
  /\ LocalStorageProvider.delete store "hello.txt"
       (snd (LocalStorageProvider.delete store "hello.txt" uploaded))
     = (Returned (mkDeleteResult true "hello.txt" "local"),
        snd (LocalStorageProvider.delete store "hello.txt" uploaded)).
Proof.
  destruct (delete_twice (R := unit)) as [Hlocal _].
  destruct (Hlocal store "hello.txt" uploaded (mkDeleteResult true "hello.txt" "local")
              (snd (LocalStorageProvider.delete store "hello.txt" uploaded)))
    as (_ & Hgone & Hagain).
  - apply run_eq. vm_compute. reflexivity.
  - split; [exact Hgone | exact Hagain].
Defined.

(** A container as the Azure SDK serves it: deleting a blob that is not
    there is answered with status 404. *)
Definition blob_not_found : js_error :=
  {| message := "The specified blob does not exist."; statusCode := Some 404 |}.

Definition has_blob (name : string) (blobs : list string) : bool :=
  existsb (String.eqb name) blobs.

Definition strict_container : AzureStorageProvider.ContainerClient (list string) :=
  AzureStorageProvider.mkContainerClient
    (fun name =>
       AzureStorageProvider.mkBlobClient
         (blobs <~ gets w_remote ;;
          if has_blob name blobs
          then modify (with_remote (List.filter (fun b => negb (String.eqb name b))))
          else throw blob_not_found)
         (blobs <~ gets w_remote ;; ret (has_blob name blobs))).

Definition azure : AzureStorageProvider.t (list string) :=
  AzureStorageProvider.mkAzure (JObj [("containerName", JStr "poc")])
                               (Some strict_container).

Definition container_with (blobs : list string) : world (list string) :=
  mkWorld (Dir []) [] blobs (fun n => Z.of_nat n) 0%nat (fun _ => "r") 0%nat.

(** Absent keys whose [delete] throws: on the local provider a key below
    an object ([hello.txt/x] where [hello.txt] is a regular file), on the
    first call and on the second; on the Azure provider any key that is
    not there, also right after a [delete] that succeeded. *)
Lemma delete_of_absent_key_throws :
  (LocalStorageProvider.exists_ store "hello.txt/x" uploaded = (Returned false, uploaded)
   /\ LocalStorageProvider.delete store "hello.txt/x" uploaded
      = (Thrown (Error ("Local storage delete failed: ENOTDIR: not a directory, "
                        +:+ "lstat '/srv/store/hello.txt/x'")), uploaded)
   /\ fst (LocalStorageProvider.delete store "hello.txt/x"
             (snd (LocalStorageProvider.delete store "hello.txt/x" uploaded)))
      = Thrown (Error ("Local storage delete failed: ENOTDIR: not a directory, "
                       +:+ "lstat '/srv/store/hello.txt/x'")))
  /\ AzureStorageProvider.exists_ azure "ghost" (container_with ["other"])
  = (Returned false, container_with ["other"])
  /\ fst (AzureStorageProvider.delete azure "ghost" (container_with ["other"]))
     = Thrown (Error "Azure Blob Storage delete failed: The specified blob does not exist.")
  /\ (let once := AzureStorageProvider.delete azure "blob" (container_with ["blob"]) in
      fst once = Returned (mkDeleteResult true "blob" "azure")
      /\ fst (AzureStorageProvider.delete azure "blob" (snd once))
         = Thrown (Error "Azure Blob Storage delete failed: The specified blob does not exist.")).
Proof.
  assert (Hlstat : locate (w_fs uploaded) (LocalStorageProvider._getFilePath store "hello.txt/x")
                   = inl ENOTDIR) by (vm_compute; reflexivity).
  destruct (delete_refused (R := unit) store "hello.txt/x" uploaded ENOTDIR Hlstat)
    as [Hdel Hex]; [discriminate|].
  split; [|repeat split].
  split; [exact Hex|]. split; [exact Hdel|].
  rewrite Hdel. cbn [snd]. rewrite Hdel. reflexivity.
Qed.

(** ** C1: what decides that a key is present *)






Section Presence.
Context {P : Platform} {R : Type}.
Implicit Types (w : world R) (self : LocalStorageProvider.t).
















Definition found {A B} (r : A + B) : bool :=
  match r with inr _ => true | inl _ => false end.




End Presence.




(** ** C5: the page [list] returns *)

Section Sorting.
Context {A : Type} (le : A -> A -> bool).
Hypothesis le_total : forall a b, le a b = true \/ le b a = true.
Hypothesis le_trans : forall a b c, le a b = true -> le b c = true -> le a c = true.

Lemma insert_by_perm x l : Permutation (insert_by le x l) (x :: l).
Proof.
  induction l as [|y l IH]; simpl; [reflexivity|].
  destruct (le x y); [reflexivity|].
  rewrite IH. apply perm_swap.
Qed.

Lemma sort_by_perm l : Permutation (sort_by le l) l.
Proof.
  induction l as [|x l IH]; simpl; [reflexivity|].
  unfold sort_by in *. simpl. rewrite insert_by_perm. now constructor.
Qed.

Lemma insert_by_sorted x l :
  StronglySorted (fun a b => le a b = true) l ->
  StronglySorted (fun a b => le a b = true) (insert_by le x l).
Proof.
  induction 1 as [|y l Hs IH Hy]; simpl.
  - repeat constructor.
  - destruct (le x y) eqn:E.
    + constructor; [constructor; assumption|].
      constructor; [exact E|].
      rewrite List.Forall_forall in *. intros z Hz. exact (le_trans _ _ _ E (Hy z Hz)).
    + constructor; [exact IH|].
      rewrite List.Forall_forall in *. intros z Hz.
      apply (Permutation_in _ (insert_by_perm x l)) in Hz. destruct Hz as [<-|Hz].
      * destruct (le_total x y) as [H|H]; [congruence|exact H].
      * exact (Hy z Hz).
Qed.

Lemma sort_by_sorted l : StronglySorted (fun a b => le a b = true) (sort_by le l).
Proof.
  induction l as [|x l IH]; [constructor|].
  unfold sort_by in *. simpl. now apply insert_by_sorted.
Qed.

End Sorting.

Section ListPage.
Context {P : Platform} {R : Type}.
Implicit Types (w : world R) (self : LocalStorageProvider.t).

Lemma key_le_total a b :
  LocalStorageProvider.key_le a b = true \/ LocalStorageProvider.key_le b a = true.
Proof.
  unfold LocalStorageProvider.key_le.
  destruct (localeCompare_total (ob_key a) (ob_key b)); [left|right]; now apply Z.leb_le.
Qed.

Lemma key_le_trans a b c :
  LocalStorageProvider.key_le a b = true -> LocalStorageProvider.key_le b c = true ->
  LocalStorageProvider.key_le a c = true.
Proof.
  unfold LocalStorageProvider.key_le. rewrite !Z.leb_le. apply localeCompare_trans.
Qed.

(** Where a listed object comes from: a sidecar among [metadataFiles]
    that parsed, with the object's key in its [key] field, and inside the
    prefix when one is given. *)
Definition listed_from (options : ListOptions) w (metadataFile : fpath) (o : ListedObject)
  : Prop :=
  (exists t text v,
      locate (w_fs w) metadataFile = inr (File t text)
      /\ JSON_parse text = Some v
      /\ js_member v "key" = inr (JStr (ob_key o)))
  /\ match lo_prefix options with
     | Some prefix => starts_with prefix (ob_key o) = true
     | None => True
     end.

Lemma fs_readFile_returned p w text w' :
  fs_readFile p w = (Returned text, w') ->
  w' = w /\ exists t, locate (w_fs w) p = inr (File t text).
Proof.
  unfold fs_readFile, bind, gets.
  destruct (locate (w_fs w) p) as [e|[t d|es]]; try (intros H; discriminate H).
  unfold ret. intros H. injection H as <- <-. eauto.
Qed.

Lemma starts_with_empty s : starts_with "" s = true.
Proof. destruct s; reflexivity. Qed.

Lemma list_entry_world self options f w o w' :
  LocalStorageProvider.list_entry self options f w = (o, w') -> w' = w.
Proof.
  unfold LocalStorageProvider.list_entry.
  unfold bind at 1. destruct (fs_readFile f w) as [[text|e] w1] eqn:Er.
  2: { unfold fs_readFile, bind, gets in Er.
       destruct (locate (w_fs w) f) as [|[|]]; inversion Er; congruence. }
  apply fs_readFile_returned in Er as [-> _].
  unfold LocalStorageProvider.parse_json.
  destruct (JSON_parse text) as [v|]; [|unfold bind, throw; congruence].
  rewrite (bind_step _ _ w v w) by reflexivity.
  destruct (js_member v "key") as [e|mkey]; [unfold bind, lift_sum, throw; congruence|].
  rewrite (bind_step _ _ w mkey w) by reflexivity.
  assert (Hrest : forall k o w',
    (let filePath := LocalStorageProvider._getFilePath self k in
     stats <~ fs_stat filePath ;;
     size <~ lift_sum (js_member v "size") ;;
     hash <~ lift_sum (js_member v "hash") ;;
     contentType <~ lift_sum (js_member v "contentType") ;;
     ret (Some (mkListedObject k size (st_mtime stats) hash contentType))) w = (o, w') ->
    w' = w).
  { intros k o0 w0. cbv zeta. unfold fs_stat, bind, gets.
    destruct (locate (w_fs w) (LocalStorageProvider._getFilePath self k)); [unfold throw; congruence|].
    unfold ret at 1.
    destruct (js_member v "size"), (js_member v "hash"), (js_member v "contentType");
      unfold lift_sum, throw, ret; congruence. }
  destruct (LocalStorageProvider.active_prefix options) as [prefix|].
  - destruct (LocalStorageProvider.string_receiver "startsWith" mkey) as [e|k] eqn:Ek.
    + unfold bind, lift_sum, throw. congruence.
    + rewrite (bind_step _ _ w (negb (starts_with prefix k)) w)
        by (unfold bind, lift_sum, ret; reflexivity).
      destruct (negb (starts_with prefix k)); [unfold ret; congruence|].
      destruct (LocalStorageProvider.string_receiver "replace" mkey) as [e|k'] eqn:Ek'.
      * unfold bind, lift_sum, throw. congruence.
      * rewrite (bind_step _ _ w k' w) by reflexivity. apply Hrest.
  - rewrite (bind_step _ _ w false w) by reflexivity.
    destruct (LocalStorageProvider.string_receiver "replace" mkey) as [e|k'] eqn:Ek'.
    + unfold bind, lift_sum, throw. congruence.
    + rewrite (bind_step _ _ w k' w) by reflexivity. apply Hrest.
Qed.

Lemma string_receiver_returned method v k :
  LocalStorageProvider.string_receiver method v = inr k -> v = JStr k.
Proof. destruct v; simpl; intros H; try discriminate H. now injection H as ->. Qed.

Lemma list_entry_listed self options f w o w' :
  LocalStorageProvider.list_entry self options f w = (Returned (Some o), w') ->
  listed_from options w f o.
Proof.
  intros H. unfold LocalStorageProvider.list_entry in H. returned H.
  apply fs_readFile_returned in Hstep as (-> & t & Hfile).
  unfold LocalStorageProvider.parse_json in Hstep0.
  destruct (JSON_parse a) as [v|] eqn:Hparse; [|discriminate Hstep0].
  unfold ret in Hstep0. injection Hstep0 as <- <-.
  apply lift_sum_returned in Hstep1 as [Hkey ->].
  destruct a2; [discriminate H|].
  returned H.
  match goal with
  | Hr : lift_sum (LocalStorageProvider.string_receiver "replace" _) _ = _ |- _ =>
      apply lift_sum_returned in Hr as [Hk _];
      apply string_receiver_returned in Hk; subst a1
  end.
  unfold ret in H. injection H as <- _. cbn [ob_key].
  split; [exists t, a, v; auto|].
  unfold LocalStorageProvider.active_prefix in Hstep2.
  destruct (lo_prefix options) as [prefix|]; [|exact I].
  destruct prefix as [|c prefix]; [apply starts_with_empty|].
  returned Hstep2.
  match goal with
  | Hr : lift_sum (LocalStorageProvider.string_receiver "startsWith" _) _ = _ |- _ =>
      apply lift_sum_returned in Hr as [Hk _]; simpl in Hk; injection Hk as <-
  end.
  unfold ret in Hstep2. injection Hstep2 as Hskip _.
  now apply negb_false_iff in Hskip.
Qed.

(** The loop never throws, changes nothing, and stops adding objects once
    [count] has reached [limit]. *)
Lemma list_loop_spec self options limit metadataFiles : forall objects count w,
  exists added,
    LocalStorageProvider.list_loop self options limit metadataFiles objects count w
    = (Returned (objects ++ added, count + Z.of_nat (length added)), w)
    /\ count + Z.of_nat (length added) <= Z.max count limit
    /\ Forall (fun o => exists f, In f metadataFiles /\ listed_from options w f o) added.
Proof.
  induction metadataFiles as [|f rest IH]; intros objects count w.
  - exists []. simpl. rewrite app_nil_r, Z.add_0_r. split; [reflexivity|]. split; [lia|constructor].
  - simpl. destruct (count >=? limit) eqn:Ege.
    + exists []. simpl. rewrite app_nil_r, Z.add_0_r.
      split; [reflexivity|]. split; [lia|constructor].
    + assert (Hlt : count < limit) by (rewrite Z.geb_leb in Ege; apply Z.leb_gt in Ege; lia).
      unfold bind at 1. unfold try_catch at 1.
      destruct (LocalStorageProvider.list_entry self options f w) as [[[o|]|e] w1] eqn:Eentry;
        pose proof (list_entry_world _ _ _ _ _ _ Eentry) as ->.
      * destruct (IH (objects ++ [o]) (count + 1) w) as (added & Hrun & Hle & Hall).
        exists (o :: added). rewrite Hrun. split; [|split].
        -- rewrite <- app_assoc. cbn [app length]. rewrite Nat2Z.inj_succ.
           replace (count + 1 + Z.of_nat (length added))
             with (count + Z.succ (Z.of_nat (length added))) by lia.
           reflexivity.
        -- cbn [length]. rewrite Nat2Z.inj_succ. lia.
        -- constructor.
           ++ exists f. split; [left; reflexivity|].
              exact (list_entry_listed _ _ _ _ _ _ Eentry).
           ++ revert Hall; apply List.Forall_impl.
              intros o' (f' & Hin & Hl). exists f'. split; [right; exact Hin|exact Hl].
      * destruct (IH objects count w) as (added & Hrun & Hle & Hall).
        exists added. rewrite Hrun. split; [reflexivity|]. split; [exact Hle|].
        revert Hall; apply List.Forall_impl.
        intros o' (f' & Hin & Hl). exists f'. split; [right; exact Hin|exact Hl].
      * unfold ret at 1.
        destruct (IH objects count w) as (added & Hrun & Hle & Hall).
        exists added. rewrite Hrun. split; [reflexivity|]. split; [exact Hle|].
        revert Hall; apply List.Forall_impl.
        intros o' (f' & Hin & Hl). exists f'. split; [right; exact Hin|exact Hl].
Qed.

(** The loop passes over a sidecar that does not parse. *)
Lemma list_loop_skips self options limit metadataFile rest objects count w t text :
  count < limit ->
  locate (w_fs w) metadataFile = inr (File t text) ->
  JSON_parse text = None ->
  LocalStorageProvider.list_loop self options limit (metadataFile :: rest) objects count w
  = LocalStorageProvider.list_loop self options limit rest objects count w.
Proof.
  intros Hlt Hfile Hparse. simpl.
  replace (count >=? limit) with false by (symmetry; rewrite Z.geb_leb; apply Z.leb_gt; lia).
  unfold bind at 1. unfold try_catch at 1.
  unfold LocalStorageProvider.list_entry.
  rewrite (bind_step _ _ _ _ _ (fs_readFile_file _ _ _ _ Hfile)).
  unfold LocalStorageProvider.parse_json. rewrite Hparse.
  rewrite (bind_thrown _ _ w _ w) by reflexivity. reflexivity.
Qed.

Lemma StronglySorted_weaken {A} (r r' : A -> A -> Prop) l :
  (forall a b, r a b -> r' a b) -> StronglySorted r l -> StronglySorted r' l.
Proof.
  intros Himp Hs. induction Hs as [|a l Hs IH Hall]; constructor.
  - exact IH.
  - revert Hall. apply List.Forall_impl. exact (Himp a).
Qed.

Lemma _findMetadataFiles_world dir w o w' :
  LocalStorageProvider._findMetadataFiles dir w = (o, w') -> w' = w.
Proof.
  unfold LocalStorageProvider._findMetadataFiles, bind, gets.
  destruct (locate (w_fs w) dir) as [|[|]]; unfold ret, throw; congruence.
Qed.

(** C5. [list] never changes the store.  When the walk of the metadata
    directory throws, [list] throws that error behind the prefix
    "Local storage list failed: ".  Otherwise it returns a page
    - of at most [limit] objects when [limit] is positive, of at most 1000
      when [limit] is absent or 0 (the source takes [options.limit || 1000]),
      and of none when [limit] is negative;
    - whose keys all start with [prefix] when a prefix is given;
    - sorted with respect to [localeCompare] on the keys;
    - each object of which comes from a sidecar of the walk that parsed and
      holds the object's key;
    and the loop passes over a sidecar whose text does not parse, going on
    with the remaining sidecars. *)
Theorem list_page self options w :
  match LocalStorageProvider._findMetadataFiles (LocalStorageProvider.metadataPath self) w with
  | (Thrown e, _) =>
      LocalStorageProvider.list self options w
      = (Thrown (Error ("Local storage list failed: " +:+ message e)), w)
  | (Returned metadataFiles, _) =>
      exists page,
        LocalStorageProvider.list self options w = (Returned page, w)
        /\ Z.of_nat (length (lp_objects page))
           <= match lo_limit options with
              | Some n => if n =? 0 then 1000 else Z.max 0 n
              | None => 1000
              end
        /\ match lo_prefix options with
           | Some prefix =>
               Forall (fun o => starts_with prefix (ob_key o) = true) (lp_objects page)
           | None => True
           end
        /\ StronglySorted (fun a b => localeCompare (ob_key a) (ob_key b) <= 0)
                          (lp_objects page)
        /\ Forall (fun o => exists metadataFile t text v,
                       In metadataFile metadataFiles
                       /\ locate (w_fs w) metadataFile = inr (File t text)
                       /\ JSON_parse text = Some v
                       /\ js_member v "key" = inr (JStr (ob_key o)))
                  (lp_objects page)
  end
  /\ forall metadataFile rest objects count t text,
       count < LocalStorageProvider.effective_limit options ->
       locate (w_fs w) metadataFile = inr (File t text) ->
       JSON_parse text = None ->
       LocalStorageProvider.list_loop self options
         (LocalStorageProvider.effective_limit options) (metadataFile :: rest) objects count w
       = LocalStorageProvider.list_loop self options
           (LocalStorageProvider.effective_limit options) rest objects count w.
Proof.
  split; [|intros; eapply list_loop_skips; eassumption].
  unfold LocalStorageProvider.list.
  destruct (LocalStorageProvider._findMetadataFiles (LocalStorageProvider.metadataPath self) w)
    as [[metadataFiles|e] w1] eqn:Efind;
    pose proof (_findMetadataFiles_world _ _ _ _ Efind) as ->.
  2: { apply rethrow_thrown. now rewrite (bind_thrown _ _ _ _ _ Efind). }
  destruct (list_loop_spec self options (LocalStorageProvider.effective_limit options)
              metadataFiles [] 0 w) as (added & Hrun & Hle & Hall).
  simpl app in Hrun.
  eexists. split.
  { apply rethrow_step. rewrite (bind_step _ _ _ _ _ Efind). cbv zeta.
    rewrite (bind_step _ _ _ _ _ Hrun). reflexivity. }
  cbn [lp_objects].
  pose proof (sort_by_perm LocalStorageProvider.key_le added) as Hperm.
  split; [|split; [|split]].
  - rewrite (Permutation_length Hperm).
    unfold LocalStorageProvider.effective_limit in Hle.
    destruct (lo_limit options) as [n|]; [destruct (n =? 0)|]; lia.
  - destruct (lo_prefix options) as [prefix|] eqn:Hp; [|exact I].
    rewrite List.Forall_forall in *. intros o Ho.
    apply (Permutation_in _ Hperm) in Ho.
    destruct (Hall o Ho) as (f & _ & _ & Hpre). unfold listed_from in *.
    rewrite Hp in Hpre. exact Hpre.
  - eapply StronglySorted_weaken; [|apply sort_by_sorted; [apply key_le_total|apply key_le_trans]].
    intros a b. unfold LocalStorageProvider.key_le. apply Z.leb_le.
  - rewrite List.Forall_forall in *. intros o Ho.
    apply (Permutation_in _ Hperm) in Ho.
    destruct (Hall o Ho) as (f & Hin & (t & text & v & H1 & H2 & H3) & _).
    exists f, t, text, v. auto.
Qed.

End ListPage.

(** With [limit] 0 the page holds every object of the store. *)
Definition two_objects : world unit :=
  snd (LocalStorageProvider.upload (P := RP) store "b.txt" (Buffer "bb") JUndefined
         (snd (LocalStorageProvider.upload (P := RP) store "a.txt" (Buffer "a") JUndefined
                 empty_store))).

Lemma list_with_limit_zero :
  exists page,
    fst (LocalStorageProvider.list (P := RP) store (mkListOptions None (Some 0)) two_objects)
    = Returned page
    /\ map ob_key (lp_objects page) = ["a.txt"; "b.txt"]
    /\ lp_isTruncated page = false.
Proof. eexists. split; [vm_compute; reflexivity|]. split; reflexivity. Qed.

(** A sidecar that is no JSON text, next to two that are: the page holds
    the two objects. *)
Definition with_broken_sidecar : world unit :=
  snd (fs_writeFile (mkPath ["srv"; "store"; ".metadata"; "broken.json"] false)
                    "{oops" two_objects).

Lemma list_skips_a_broken_sidecar :
  fst (LocalStorageProvider._findMetadataFiles (R := unit)
         (LocalStorageProvider.metadataPath store) with_broken_sidecar)
  = Returned [mkPath ["srv"; "store"; ".metadata"; "a.txt.json"] false;
              mkPath ["srv"; "store"; ".metadata"; "b.txt.json"] false;
              mkPath ["srv"; "store"; ".metadata"; "broken.json"] false]
  /\ exists page,
       fst (LocalStorageProvider.list (P := RP) store (mkListOptions None (Some 10))
              with_broken_sidecar)
       = Returned page
       /\ map ob_key (lp_objects page) = ["a.txt"; "b.txt"].
Proof.
  split; [vm_compute; reflexivity|].
  eexists. split; [vm_compute; reflexivity|]. reflexivity.
Qed.

(** ** C8: the record [copy] writes *)










Section CopyRecord.
Context {P : Platform} {R : Type}.
Implicit Types (w : world R) (self : LocalStorageProvider.t) (p q : fpath).

(** Computations that never replace the clock and never turn it back. *)
Definition steady {A} (m : M (world R) A) : Prop :=
  forall w o w', m w = (o, w') ->
                 w_clock w' = w_clock w /\ (w_ticks w <= w_ticks w')%nat.

Lemma steady_bind {A B} (m : M (world R) A) (k : A -> M (world R) B) :
  steady m -> (forall a, steady (k a)) -> steady (bind m k).
Proof.
  intros Hm Hk w o w'. unfold bind.
  destruct (m w) as [[a|e] w1] eqn:Em; destruct (Hm _ _ _ Em) as [Hc Ht].
  - intros H. destruct (Hk _ _ _ _ H) as [Hc' Ht']. split; [congruence|lia].
  - intros H. injection H as _ <-. auto.
Qed.

Lemma steady_ret {A} (a : A) : steady (ret a).
Proof. intros w o w' H. injection H as _ <-. auto. Qed.

Lemma steady_throw {A} e : steady (throw (A := A) e).
Proof. intros w o w' H. injection H as _ <-. auto. Qed.

Lemma steady_gets {A} (f : world R -> A) : steady (gets f).
Proof. intros w o w' H. injection H as _ <-. auto. Qed.

Lemma steady_with_fs f : steady (modify (with_fs (R := R) f)).
Proof. intros w o w' H. injection H as _ <-. auto. Qed.

Lemma steady_Date_now : steady (Date_now (R := R)).
Proof. intros w o w' H. injection H as _ <-. simpl. auto. Qed.

Ltac steady :=
  repeat match goal with
         | |- steady (bind _ _) => apply steady_bind; [|intros ?]
         | |- steady (ret _) => apply steady_ret
         | |- steady (throw _) => apply steady_throw
         | |- steady (gets _) => apply steady_gets
         | |- steady (modify (with_fs _)) => apply steady_with_fs
         | |- steady Date_now => apply steady_Date_now
         | |- steady (match ?x with _ => _ end) => destruct x
         end.








End CopyRecord.





(** ** C6: what the concurrent-upload measurement leaves behind *)

Definition local_provider : Provider unit :=
  LocalStorageProvider.provider (P := RP) store.

Definition fresh_runner : runner unit := mkRunner empty_store [] None.

Definition after_concurrent_uploads : world unit :=
  rn_world (snd (TestRunner.testConcurrentUploads local_provider fresh_runner)).

(** C6. On the local provider over an empty store, [testConcurrentUploads]
    returns its measurement with all five uploads successful, and the five
    objects it uploaded are still in the store afterwards: the cleanup loop
    asks [generateTestKey] for keys again, which gives five new keys (a
    later timestamp, another random part), and deletes those. *)
Theorem concurrent_uploads_are_left_behind :
  (exists page,
     fst (p_list local_provider (mkListOptions None None) empty_store) = Returned page
     /\ lp_objects page = [])
  /\ fst (TestRunner.testConcurrentUploads local_provider fresh_runner)
     = Returned (JObj [("successful", JStr "5/5"); ("time", JStr "1ms")])
  /\ (exists page,
        fst (p_list local_provider (mkListOptions None None) after_concurrent_uploads)
        = Returned page
        /\ map ob_key (lp_objects page)
           = ["concurrent-0-1700000000000-r0"; "concurrent-1-1700000000006-r1";
              "concurrent-2-1700000000012-r2"; "concurrent-3-1700000000018-r3";
              "concurrent-4-1700000000024-r4"])
  /\ fst (p_exists local_provider "concurrent-0-1700000000000-r0" after_concurrent_uploads)
     = Returned true.
Proof.
  split; [eexists; split; [vm_compute; reflexivity|reflexivity]|].
  split; [vm_compute; reflexivity|].
  split; [eexists; split; [vm_compute; reflexivity|reflexivity]|].
  vm_compute. reflexivity.
Qed.

(** * Further properties of the sources *)

(** ** Keys and paths of the local provider *)

Lemma safe_char_underscore : safe_char "_" = true.
Proof. reflexivity. Qed.

(** X3. The key as [_getFilePath] and [_getMetadataPath] sanitise it: as
    long as the key, made of the characters [[a-zA-Z0-9._/-]] only, left as
    it is exactly when the key was made of them already; sanitising twice
    changes nothing more. *)
Theorem sanitize_properties (key : string) :
  String.length (sanitize key) = String.length key
  /\ List.Forall (fun c => safe_char c = true) (list_ascii_of_string (sanitize key))
  /\ sanitize (sanitize key) = sanitize key
  /\ (sanitize key = key
      <-> List.Forall (fun c => safe_char c = true) (list_ascii_of_string key)).
Proof.
  induction key as [|c key (Hlen & Hsafe & Hidem & Hfix)].
  - repeat split; try constructor; reflexivity.
  - cbn [sanitize list_ascii_of_string String.length].
    destruct (safe_char c) eqn:Ec; repeat split.
    + now rewrite Hlen.
    + constructor; assumption.
    + cbn [sanitize]. now rewrite Ec, Hidem.
    + intros H. injection H as H. constructor; [exact Ec|]. now apply Hfix.
    + intros H. inversion H; subst. f_equal. now apply Hfix.
    + now rewrite Hlen.
    + constructor; [reflexivity|assumption].
    + cbn [sanitize]. now rewrite safe_char_underscore, Hidem.
    + intros H. injection H as Hc _. subst c. discriminate Ec.
    + intros H. inversion H; subst. congruence.
Qed.

(** Sanitising works name by name: a slash is kept, and nothing becomes
    one. *)
Lemma split_slash_sanitize key :
  split_slash (sanitize key) = map sanitize (split_slash key).
Proof.
  induction key as [|c key IH]; [reflexivity|].
  cbn [sanitize split_slash].
  destruct (is_slash c) eqn:Es.
  - assert (safe_char c = true) as ->.
    { unfold is_slash in Es. apply Ascii.eqb_eq in Es. now subst c. }
    rewrite Es, IH. reflexivity.
  - assert (Hs : is_slash (if safe_char c then c else "_"%char) = false)
      by (destruct (safe_char c); [exact Es|reflexivity]).
    rewrite Hs, IH.
    destruct (split_slash key) as [|x xs]; reflexivity.
Qed.

Lemma sanitize_dotdot s : sanitize s = ".." -> s = "..".
Proof.
  destruct s as [|a [|b [|c s]]]; simpl; try discriminate.
  intros H. injection H as Ha Hb.
  destruct (safe_char a) eqn:Ea; [|discriminate Ha].
  destruct (safe_char b) eqn:Eb; [|discriminate Hb].
  now subst.
Qed.

Lemma push_seg_below stack seg :
  seg <> ".." -> exists more, push_seg stack seg = stack ++ more.
Proof.
  intros H. unfold push_seg.
  destruct (String.eqb seg "" || String.eqb seg "."); [exists []; now rewrite app_nil_r|].
  destruct (String.eqb_spec seg ".."); [contradiction|]. now exists [seg].
Qed.

Lemma norm_onto_below names : forall stack,
  ~ In ".." names -> exists more, norm_onto stack names = stack ++ more.
Proof.
  induction names as [|x names IH]; intros stack H.
  - exists []. simpl. now rewrite app_nil_r.
  - destruct (push_seg_below stack x) as [m1 H1]; [intros ->; apply H; now left|].
    destruct (IH (stack ++ m1)) as [m2 H2]; [intros Hin; apply H; now right|].
    exists (m1 ++ m2). simpl. unfold norm_onto in *. rewrite H1, H2.
    now rewrite app_assoc.
Qed.

Lemma is_prefix_app p more : is_prefix p (p ++ more) = true.
Proof.
  induction p as [|s p IH]; [reflexivity|]. simpl. now rewrite String.eqb_refl.
Qed.

Lemma in_removelast {A} (x : A) l : In x (removelast l) -> In x l.
Proof.
  induction l as [|y [|z l] IH]; simpl; [tauto|tauto|].
  intros [->|H]; [now left|right; exact (IH H)].
Qed.

Lemma sanitized_without_dotdot key :
  ~ In ".." (split_slash key) -> ~ In ".." (split_slash (sanitize key)).
Proof.
  intros H Hin. rewrite split_slash_sanitize in Hin.
  apply in_map_iff in Hin as (s & Hs & Hin).
  apply sanitize_dotdot in Hs. subst s. exact (H Hin).
Qed.

(** X4. A key none of whose names is [..] is stored inside the store: its
    content path is the base path or lies below it, and its sidecar is a
    [.json] file below the metadata path. *)
Theorem key_without_dotdot_stays_inside (self : LocalStorageProvider.t) (key : string) :
  ~ In ".." (split_slash key) ->
  (exists below,
      segs (LocalStorageProvider._getFilePath self key)
      = segs (LocalStorageProvider.basePath self) ++ below)
  /\ (exists below name,
         segs (LocalStorageProvider._getMetadataPath self key)
         = segs (LocalStorageProvider.metadataPath self) ++ below ++ [name +:+ ".json"]).
Proof.
  intros H. apply sanitized_without_dotdot in H.
  unfold LocalStorageProvider._getFilePath, LocalStorageProvider._getMetadataPath.
  set (sk := sanitize key) in *. cbv zeta. split.
  - unfold path_join. destruct (String.eqb sk "").
    + exists []. now rewrite app_nil_r.
    + cbn [segs]. now apply norm_onto_below.
  - unfold path_join.
    destruct (String.eqb_spec (sk +:+ ".json") "") as [E|_].
    { apply (f_equal String.length) in E. rewrite length_append in E. simpl in E. lia. }
    cbn [segs]. rewrite split_slash_suffix by reflexivity.
    rewrite norm_onto_snoc, push_seg_json.
    destruct (norm_onto_below (removelast (split_slash sk))
                (segs (LocalStorageProvider.metadataPath self))) as [more Hmore].
    { intros Hin. apply H. now apply in_removelast. }
    rewrite Hmore. exists more, (List.last (split_slash sk) EmptyString).
    now rewrite app_assoc.
Qed.

Lemma key_without_dotdot_stays_inside_witness :
  exists below,
    segs (LocalStorageProvider._getFilePath store "photos/2024/./cat 1.png")
    = ["srv"; "store"] ++ below.
Proof.
  destruct (key_without_dotdot_stays_inside store "photos/2024/./cat 1.png") as [Hin _].
  - vm_compute. intros H. repeat (destruct H as [H|H]; [discriminate H|]). exact H.
  - exact Hin.
Defined.

(** ** [initialize] of the local provider *)

Lemma entry_set_same {V} k (v : V) es : entry_get k es = Some v -> entry_set k v es = es.
Proof.
  induction es as [|[k' v'] es IH]; simpl; [discriminate|].
  destruct (String.eqb_spec k k') as [->|Hne].
  - intros H. injection H as ->. reflexivity.
  - intros H. now rewrite IH.
Qed.

Lemma mkdirp_present p : forall n, dir_at n p -> mkdirp n p = inr n.
Proof.
  induction p as [|s p IH]; intros n [es H].
  - simpl in H. injection H as ->. reflexivity.
  - destruct n as [|es']; [discriminate|].
    apply walk_dir_cons in H as (Fs & c & Es & H). cbn [mkdirp]. rewrite Fs, Es.
    simpl. rewrite (IH c) by (exists es; exact H).
    now rewrite (entry_set_same _ _ _ Es).
Qed.

Lemma mkdirp_keeps_dir p : forall n n' q,
  mkdirp n p = inr n' -> dir_at n q -> dir_at n' q.
Proof.
  induction p as [|s p IH]; intros n n' q H Hq.
  - destruct n as [|es]; [discriminate|]. injection H as <-. exact Hq.
  - destruct n as [|es]; [discriminate|].
    apply mkdirp_cons in H as (Fs & c & Ec & ->).
    destruct q as [|t q]; [eexists; reflexivity|].
    destruct Hq as [ds Hq]. apply walk_dir_cons in Hq as (Ft & c0 & Et & Hq).
    unfold dir_at. rewrite walk_cons, Ft.
    destruct (String.eqb_spec s t) as [->|Hne].
    + rewrite entry_get_set_eq. rewrite Et in Ec.
      simpl in Ec. apply (IH _ _ _ Ec). exists ds. exact Hq.
    + rewrite entry_get_set_ne by assumption. rewrite Et. exists ds. exact Hq.
Qed.

Section Initialize.
Context {P : Platform} {R : Type}.
Implicit Types (w : world R) (self : LocalStorageProvider.t).

Lemma with_fs_same w : with_fs (fun _ => w_fs w) w = w.
Proof. destruct w. reflexivity. Qed.

Lemma fs_ensureDir_present p w :
  path_fits p = true ->
  dir_at (w_fs w) (segs p) -> fs_ensureDir p w = (Returned tt, w).
Proof.
  intros Hfit H. unfold fs_ensureDir, bind, gets. rewrite Hfit, (mkdirp_present _ _ H).
  unfold modify. now rewrite with_fs_same.
Qed.




End Initialize.

(** ** When [upload] of the local provider returns *)

(** Every path above a directory is a directory. *)
Lemma dir_above p : forall n q, dir_at n q -> is_prefix p q = true -> dir_at n p.
Proof.
  induction p as [|s p IH]; intros n q [es Hq] Hpre.
  - destruct q as [|t q]; [exists es; exact Hq|].
    destruct n as [|es']; [discriminate|]. eexists. reflexivity.
  - destruct q as [|t q]; [discriminate|]. simpl in Hpre.
    apply andb_true_iff in Hpre as [Hst Hpre]. apply String.eqb_eq in Hst. subst t.
    destruct n as [|es']; [discriminate|].
    apply walk_dir_cons in Hq as (Fs & c & Es & Hq). unfold dir_at. rewrite walk_cons, Fs, Es.
    apply (IH c q); [exists es; exact Hq|exact Hpre].
Qed.

(** Writing at [p] keeps the directories that are not at or below [p]. *)
Lemma dir_put_frame p : forall n q x,
  dir_at n q -> is_prefix p q = false -> dir_at (put_at n p x) q.
Proof.
  induction p as [|s p IH]; intros n q x Hq Hpre; [discriminate|].
  destruct q as [|t q].
  - destruct Hq as [es Hq]. simpl in Hq. injection Hq as ->. eexists. reflexivity.
  - destruct Hq as [ds Hq]. destruct n as [|es]; [discriminate|].
    apply walk_dir_cons in Hq as (Ft & c & Et & Hq).
    simpl put_at. unfold dir_at. rewrite walk_cons, Ft.
    simpl in Hpre. destruct (String.eqb_spec s t) as [->|Hne].
    + rewrite entry_get_set_eq, Et. simpl. apply IH; [exists ds; exact Hq|exact Hpre].
    + rewrite entry_get_set_ne by assumption. rewrite Et. exists ds. exact Hq.
Qed.

Lemma walk_child p : forall n,
  p <> [] -> dir_at n (removelast p) -> name_fits (List.last p EmptyString) = true ->
  walk n p = inl ENOENT \/ exists x, walk n p = inr x.
Proof.
  intros n Hne [es Hpar] Hfit. destruct p as [|s p] using rev_ind; [congruence|].
  rewrite removelast_last in Hpar. rewrite last_last in Hfit.
  rewrite walk_snoc, Hpar, walk_cons, Hfit.
  destruct (entry_get s es) as [c|]; [right; exists c; reflexivity|now left].
Qed.

(** The limits a path has to keep for a file to be written at it. *)
Definition within_limits (p : fpath) : bool :=
  path_fits p && name_fits (List.last (segs p) EmptyString).

Lemma text_length_removelast p : (text_length (removelast p) <= text_length p)%nat.
Proof.
  induction p as [|s p IH]; [reflexivity|].
  destruct p as [|t p]; [simpl; lia|].
  rewrite removelast_cons. cbn [text_length] in *. lia.
Qed.

Lemma path_dirname_fits p : path_fits p = true -> path_fits (path_dirname p) = true.
Proof.
  unfold path_fits, path_dirname. cbn [segs dir_only]. rewrite !Nat.ltb_lt.
  pose proof (text_length_removelast (segs p)). lia.
Qed.

Section UploadReturns.
Context {P : Platform} {R : Type}.
Implicit Types (w : world R) (self : LocalStorageProvider.t) (p q : fpath).

Lemma bind_returns {St A B} (m : M St A) (k : A -> M St B) s a s0 :
  m s = (Returned a, s0) ->
  (exists b s', k a s0 = (Returned b, s')) ->
  exists b s', bind m k s = (Returned b, s').
Proof. intros Hm H. now rewrite (bind_step _ _ _ _ _ Hm). Qed.

Lemma rethrow_returns {St A} prefix (m : M St A) s :
  (exists a s', m s = (Returned a, s')) ->
  exists a s', rethrow prefix m s = (Returned a, s').
Proof. intros (a & s' & H). exists a, s'. now apply rethrow_step. Qed.

(** [fs.writeFile] returns when the path names no directory and its
    parent is one. *)
Lemma fs_writeFile_succeeds p data w :
  dir_only p = false ->
  within_limits p = true ->
  dir_at (w_fs w) (removelast (segs p)) ->
  ~ dir_at (w_fs w) (segs p) ->
  exists w', fs_writeFile p data w = (Returned tt, w').
Proof.
  intros Hd Hlim Hpar Hnd. apply andb_true_iff in Hlim as [Hfit Hname].
  assert (Hne : segs p <> []).
  { intros E. apply Hnd. rewrite E in *. exact Hpar. }
  unfold fs_writeFile. unfold bind at 1. unfold gets at 1.
  unfold locate. rewrite Hfit, Hd.
  destruct (walk_child _ _ Hne Hpar Hname) as [E|[x E]]; rewrite E.
  - destruct Hpar as [es Hpar]. rewrite Hpar. eexists. reflexivity.
  - destruct x as [mt d|es]; [eexists; reflexivity|].
    exfalso. apply Hnd. exists es. exact E.
Qed.

Lemma ends_with_slash_json s : ends_with_slash (s +:+ ".json") = false.
Proof.
  induction s as [|c s IH]; [reflexivity|].
  change (String c s +:+ ".json") with (String c (s +:+ ".json")).
  cbn [ends_with_slash]. destruct (s +:+ ".json") eqn:E; [|exact IH].
  apply (f_equal String.length) in E. rewrite length_append in E. simpl in E. lia.
Qed.

Lemma sidecar_is_a_file_path self key :
  dir_only (LocalStorageProvider._getMetadataPath self key) = false.
Proof.
  unfold LocalStorageProvider._getMetadataPath, path_join. cbv zeta.
  destruct (String.eqb_spec (sanitize key +:+ ".json") "") as [E|_].
  { apply (f_equal String.length) in E. rewrite length_append in E. simpl in E. lia. }
  apply ends_with_slash_json.
Qed.

(** What is left to show of [upload] once the content is written. *)
Lemma upload_returns_bytes self key bytes options w :
  options <> JNull ->
  dir_only (LocalStorageProvider._getFilePath self key) = false ->
  within_limits (LocalStorageProvider._getFilePath self key) = true ->
  within_limits (LocalStorageProvider._getMetadataPath self key) = true ->
  dir_at (w_fs w) (removelast (segs (LocalStorageProvider._getFilePath self key))) ->
  ~ dir_at (w_fs w) (segs (LocalStorageProvider._getFilePath self key)) ->
  dir_at (w_fs w) (removelast (segs (LocalStorageProvider._getMetadataPath self key))) ->
  ~ dir_at (w_fs w) (segs (LocalStorageProvider._getMetadataPath self key)) ->
  exists r w',
    LocalStorageProvider.upload self key (Buffer bytes) options w = (Returned r, w').
Proof.
  intros Hopt Hd Hlim Hslim Hpar Hnd Hspar Hsnd.
  set (fp := LocalStorageProvider._getFilePath self key) in *.
  set (sp := LocalStorageProvider._getMetadataPath self key) in *.
  assert (Hne : segs fp <> []).
  { intros E. apply Hnd. rewrite E in *. exact Hpar. }
  unfold LocalStorageProvider.upload. fold fp sp.
  set (opts := match options with JUndefined => JObj [] | _ => options end).
  assert (Hmember : forall k, exists v, js_member opts k = inr v).
  { intros k. subst opts. destruct options; try congruence; eexists; reflexivity. }
  erewrite (bind_step Date_now _ w) by reflexivity.
  set (w1 := mkWorld _ _ _ _ _ _ _).
  assert (Hfs1 : w_fs w1 = w_fs w) by reflexivity.
  destruct (Hmember "contentType") as [contentType HcT].
  destruct (Hmember "metadata") as [userMetadata HuM].
  destruct (fs_writeFile_succeeds fp bytes w1 Hd Hlim) as [w2 Hw2];
    [rewrite Hfs1; exact Hpar | rewrite Hfs1; exact Hnd |].
  pose proof (fs_writeFile_returned _ _ _ _ _ Hw2) as (_ & _ & _ & Hfs2 & _).
  pose proof (fs_writeFile_reads _ _ _ _ _ Hw2) as Hread.
  rewrite Hfs1 in Hfs2.
  set (uploaded := File (w_clock w1 (w_ticks w1)) bytes) in *.
  assert (Hspar2 : dir_at (w_fs w2) (removelast (segs sp))).
  { rewrite Hfs2. apply dir_put_frame; [exact Hspar|].
    destruct (is_prefix (segs fp) (removelast (segs sp))) eqn:E; [|reflexivity].
    exfalso. apply Hnd. exact (dir_above _ _ _ Hspar E). }
  assert (Hsnd2 : ~ dir_at (w_fs w2) (segs sp)).
  { rewrite Hfs2. apply file_put_no_dir; assumption. }
  apply rethrow_returns.
  apply (bind_returns _ _ w1 tt w1);
    [apply fs_ensureDir_present;
     [apply path_dirname_fits; apply andb_true_iff in Hlim; tauto
     |rewrite Hfs1; exact Hpar]|].
  apply (bind_returns _ _ w1 contentType w1); [rewrite HcT; reflexivity|].
  apply (bind_returns _ _ w1 false w1); [reflexivity|].
  cbv beta iota.
  apply (bind_returns _ _ w1 (byte_length bytes, contentType) w2);
    [rewrite (bind_step _ _ _ _ _ Hw2); reflexivity|].
  cbv beta iota.
  apply (bind_returns _ _ w2 (md5_hex bytes) w2);
    [unfold LocalStorageProvider._calculateHash, bind, gets; rewrite Hread; reflexivity|].
  apply (bind_returns _ _ w2 userMetadata w2); [rewrite HuM; reflexivity|].
  eapply (bind_returns Date_now _ w2); [reflexivity|].
  set (w3 := mkWorld _ _ _ _ _ _ _).
  match goal with
  | |- context [fs_writeFile sp ?text] =>
      destruct (fs_writeFile_succeeds sp text w3 (sidecar_is_a_file_path self key) Hslim)
        as [w4 Hw4]; [exact Hspar2 | exact Hsnd2 |]
  end.
  apply (bind_returns _ _ _ _ _ Hw4).
  eapply (bind_returns Date_now _ w4); [reflexivity|].
  eexists. eexists. reflexivity.
Qed.

End UploadReturns.

(** An existing path has existing prefixes. *)
Lemma walk_prefix p : forall n q x,
  walk n q = inr x -> is_prefix p q = true -> exists y, walk n p = inr y.
Proof.
  induction p as [|s p IH]; intros n q x Hq Hpre; [eexists; reflexivity|].
  destruct q as [|t q]; [discriminate|]. simpl in Hpre.
  apply andb_true_iff in Hpre as [Hst Hpre]. apply String.eqb_eq in Hst. subst t.
  destruct n as [|es]; [discriminate|].
  apply walk_dir_cons in Hq as (Fs & c & Es & Hq). rewrite walk_cons, Fs, Es.
  exact (IH _ _ _ Hq Hpre).
Qed.

(** [mkdir -p] of a path string leaves every file as it is. *)
Lemma mkdirp_names_keeps_file names : forall root stack root' err q mt d,
  mkdirp_names root stack names = (root', err) ->
  walk root q = inr (File mt d) -> walk root' q = inr (File mt d).
Proof.
  induction names as [|name rest IH]; intros root stack root' err q mt d H Hq.
  - injection H as <- _. exact Hq.
  - cbn [mkdirp_names] in H.
    destruct (String.eqb name ""); [exact (IH _ _ _ _ _ _ _ H Hq)|].
    destruct (walk root stack) as [e|[mt0 d0|es]];
      try (injection H as <- _; exact Hq).
    destruct (String.eqb name "."); [exact (IH _ _ _ _ _ _ _ H Hq)|].
    destruct (String.eqb name ".."); [exact (IH _ _ _ _ _ _ _ H Hq)|].
    destruct (walk root (stack ++ [name])) as [e|[mt1 d1|es1]] eqn:Ew.
    + destruct e; try (injection H as <- _; exact Hq).
      apply (IH _ _ _ _ _ _ _ H). apply walk_put_frame; [exact Hq|].
      destruct (is_prefix (stack ++ [name]) q) eqn:Epre; [|reflexivity].
      destruct (walk_prefix _ _ _ _ Hq Epre) as [y Hy]. congruence.
    + injection H as <- _. exact Hq.
    + exact (IH _ _ _ _ _ _ _ H Hq).
Qed.

(** A path that the operating system reaches is reached the same way in
    every tree that has kept the directories. *)
Lemma reach_kept root root' names : forall stack q,
  (forall p, dir_at root p -> dir_at root' p) ->
  reach root stack names = inr q -> reach root' stack names = inr q.
Proof.
  induction names as [|name rest IH]; intros stack q Hkept H; [exact H|].
  cbn [reach] in *. destruct (String.eqb name ""); [exact (IH _ _ Hkept H)|].
  destruct (walk root stack) as [e|[mt d|es]] eqn:Ew; try discriminate H.
  destruct (Hkept stack (ex_intro _ es Ew)) as [es' ->]. exact (IH _ _ Hkept H).
Qed.

Lemma lookup_path_kept root root' cwd s p :
  (forall q, dir_at root q -> dir_at root' q) ->
  lookup_path root cwd s = inr p -> lookup_path root' cwd s = inr p.
Proof.
  intros Hkept. unfold lookup_path.
  destruct (String.eqb s ""); [discriminate|].
  destruct (PATH_MAX <=? String.length s)%nat; [discriminate|].
  destruct (reach root (start_of cwd s) (split_slash s)) as [e|q] eqn:Er; [discriminate|].
  now rewrite (reach_kept _ _ _ _ _ Hkept Er).
Qed.

Section CopyKeeps.
Context {R : Type}.
Implicit Types (w : world R).

(** A [fs.copy] of a regular file that returned has made no directory a
    file: the destination was none. *)
Lemma fs_copy_file_keeps_dirs src dest w u w' mt d :
  fs_copy src dest w = (Returned u, w') ->
  locate (w_fs w) src = inr (File mt d) ->
  forall p, dir_at (w_fs w) p -> dir_at (w_fs w') p.
Proof.
  intros H Hs p Hp.
  destruct (fs_copy_file_returned _ _ _ _ _ _ _ H Hs)
    as (root1 & t & Hmk & -> & _ & Hfit & _).
  pose proof (mkdirp_keeps_dir _ _ _ _ Hmk Hp) as Hp1.
  destruct (is_prefix (segs dest) p) eqn:Epre; [|now apply dir_put_frame].
  exfalso. destruct (dir_above _ _ _ Hp Epre) as [es Hd].
  assert (Hl : locate (w_fs w) dest = inr (Dir es)) by (apply locate_dir; auto).
  revert H. unfold fs_copy. unfold bind at 1. unfold gets at 1. rewrite Hs, Hl.
  rewrite (bind_step _ _ w _ w) by reflexivity.
  destruct (same_segs (segs src) (segs dest)); [discriminate|].
  cbn [is_dir andb negb]. intros H. apply bind_returned in H as (u1 & w2 & _ & H).
  cbn [andb] in H. rewrite Bool.andb_false_r in H.
  destruct (negb (name_fits (List.last (segs dest) EmptyString))); [discriminate H|].
  apply bind_returned in H as (t' & w3 & _ & H).
  cbn [copy_node] in H. unfold bind, modify, throw in H. discriminate H.
Qed.

End CopyKeeps.

Section UploadThenRead.
Context {P : Platform} {R : Type}.
Implicit Types (w : world R) (self : LocalStorageProvider.t) (p q : fpath).

Lemma upload_result_shape self key data options w r w' :
  LocalStorageProvider.upload self key data options w = (Returned r, w') ->
  ur_success r = true /\ ur_key r = key /\ ur_provider r = "local".
Proof.
  intros H. unfold LocalStorageProvider.upload in H. returned H.
  destruct a3 as [contentLength contentType]. returned H.
  unfold ret in H. injection H as <- _. auto.
Qed.

(** X6. [upload] of a buffer returns whenever the options are not [null],
    the content path and the sidecar path name no directory, keep the
    limits of the file system (a last name of at most 255 bytes, a path
    text of fewer than 4096), and the directories they lie in are there;
    the result reports success, the key, the byte length and the MD5
    digest of the bytes, and the key exists afterwards. *)
Theorem upload_of_bytes_returns self key bytes options w :
  constructed self ->
  options <> JNull ->
  dir_only (LocalStorageProvider._getFilePath self key) = false ->
  within_limits (LocalStorageProvider._getFilePath self key) = true ->
  within_limits (LocalStorageProvider._getMetadataPath self key) = true ->
  dir_at (w_fs w) (removelast (segs (LocalStorageProvider._getFilePath self key))) ->
  ~ dir_at (w_fs w) (segs (LocalStorageProvider._getFilePath self key)) ->
  dir_at (w_fs w) (removelast (segs (LocalStorageProvider._getMetadataPath self key))) ->
  ~ dir_at (w_fs w) (segs (LocalStorageProvider._getMetadataPath self key)) ->
  exists r w',
    LocalStorageProvider.upload self key (Buffer bytes) options w = (Returned r, w')
    /\ ur_success r = true /\ ur_key r = key
    /\ ur_size r = byte_length bytes
    /\ ur_etag r = JStr (md5_hex bytes)
    /\ LocalStorageProvider.exists_ self key w' = (Returned true, w').
Proof.
  intros Hc Hopt Hd Hlim Hslim Hpar Hnd Hspar Hsnd.
  destruct (upload_returns_bytes self key bytes options w Hopt Hd Hlim Hslim
              Hpar Hnd Hspar Hsnd)
    as (r & w' & Hup).
  exists r, w'. split; [exact Hup|].
  destruct (upload_result_shape _ _ _ _ _ _ _ Hup) as (Hs & Hk & _).
  destruct (upload_returned _ _ _ _ _ _ _ Hc Hup)
    as (mt & d & t & metadata & HF & _ & _ & Hetag & Hsize & root0 & _ & Hd').
  simpl in Hd'. subst d.
  split; [exact Hs|]. split; [exact Hk|]. split; [exact Hsize|]. split; [exact Hetag|].
  unfold LocalStorageProvider.exists_. apply rethrow_step.
  rewrite fs_pathExists_run, HF. reflexivity.
Qed.

Lemma fs_ensureDir_text_keeps s w u w' q mt d :
  fs_ensureDir_text s w = (Returned u, w') ->
  locate (w_fs w) q = inr (File mt d) ->
  locate (w_fs w') q = inr (File mt d) /\ w_cwd w' = w_cwd w.
Proof.
  unfold fs_ensureDir_text, bind, gets. intros H Hq.
  destruct (String.eqb s ""); [discriminate H|].
  destruct (PATH_MAX <=? String.length s)%nat; [discriminate H|].
  destruct (mkdirp_names (w_fs w) (start_of (w_cwd w) s) (split_slash s))
    as [root' err] eqn:Emk.
  unfold modify, with_fs in H. destruct err as [e|]; [discriminate H|].
  unfold ret in H. injection H as _ <-. cbn [w_fs w_cwd]. split; [|reflexivity].
  apply locate_file in Hq as (Hfq & Hq & Hdq). apply locate_file.
  split; [exact Hfq|]. split; [|exact Hdq].
  exact (mkdirp_names_keeps_file _ _ _ _ _ _ _ _ Emk Hq).
Qed.

(** X7. [download] after [upload]: when both return, the file that the
    operating system reaches along [destinationPath] once [download] is
    done holds the bytes that were uploaded, and the two results report
    the same size.  The bytes uploaded are those of the payload in the
    tree [upload] looks the payload up in ([payload_content]): the
    buffer's own, or the content of the file the operating system reaches
    along the path string, or else the bytes of the string itself. *)
Theorem download_returns_the_uploaded_bytes
    self key data options destinationPath w r w1 d w2 :
  constructed self ->
  LocalStorageProvider.upload self key data options w = (Returned r, w1) ->
  LocalStorageProvider.download self key destinationPath w1 = (Returned d, w2) ->
  exists root0 destination t,
    mkdirp (w_fs w) (segs (path_dirname (LocalStorageProvider._getFilePath self key)))
    = inr root0
    /\ lookup_path (w_fs w2) (w_cwd w2) destinationPath = inr destination
    /\ locate (w_fs w2) destination
       = inr (File t (payload_content root0 (w_cwd w) data))
    /\ dr_size d = byte_length (payload_content root0 (w_cwd w) data)
    /\ dr_size d = ur_size r
    /\ dr_success d = true /\ dr_key d = key.
Proof.
  intros Hc Hup Hdown.
  destruct (upload_returned _ _ _ _ _ _ _ Hc Hup)
    as (mt & bytes & t & metadata & HF & _ & _ & _ & Hsize & root0 & Hmk & Hbytes).
  exists root0. rewrite <- Hbytes. clear Hbytes.
  unfold LocalStorageProvider.download in Hdown. returned Hdown.
  apply Date_now_run in Hstep as (_ & Hfs & Hcwd & _).
  rewrite fs_pathExists_run in Hstep0. injection Hstep0 as <- <-.
  rewrite Hfs, HF in Hdown. cbn [negb] in Hdown. returned Hdown.
  rewrite <- Hfs in HF.
  destruct (fs_ensureDir_text_keeps _ _ _ _ _ _ _ Hstep HF) as [HF1 Hcwd1].
  apply user_path_returned in Hstep0 as [-> Hdest].
  apply (lookup_path_kept _ _ _ _ _ (fs_copy_file_keeps_dirs _ _ _ _ _ _ _ Hstep1 HF1))
    in Hdest.
  destruct (fs_copy_file _ _ _ _ _ _ _ Hstep1 HF1) as [[t' Hcopied] Hcwd2].
  apply fs_stat_returned in Hstep2 as (-> & n & Hn & ->).
  apply Date_now_run in Hstep3 as (_ & Hfs3 & Hcwd3 & _).
  unfold ret in Hdown. injection Hdown as <- <-.
  rewrite Hcopied in Hn. injection Hn as <-.
  match type of Hdest with _ = inr ?x => exists x, t' end. rewrite Hfs3, Hcwd3, Hcwd2.
  split; [exact Hmk|]. split; [exact Hdest|]. split; [exact Hcopied|].
  cbn [dr_size dr_success dr_key stats_of st_size].
  rewrite Hsize. auto.
Qed.

End UploadThenRead.

(** ** What [delete] and the reading methods leave alone *)

Lemma walk_del_frame p : forall n q mt d,
  walk n q = inr (File mt d) -> is_prefix p q = false ->
  walk (del_at n p) q = inr (File mt d).
Proof.
  induction p as [|s p IH]; intros n q mt d Hq Hpre; [discriminate|].
  destruct n as [mt' d'|es]; [destruct p; exact Hq|].
  destruct q as [|t q]; [discriminate|].
  apply walk_dir_cons in Hq as (Ft & c & Et & Hq).
  simpl in Hpre. destruct p as [|u p].
  - cbn [del_at]. rewrite walk_cons, Ft. destruct (String.eqb_spec s t) as [->|Hne].
    + simpl in Hpre. discriminate.
    + rewrite entry_get_del_ne by assumption. now rewrite Et.
  - change (del_at (Dir es) (s :: u :: p))
      with (match entry_get s es with
            | None => Dir es
            | Some c => Dir (entry_set s (del_at c (u :: p)) es)
            end).
    destruct (entry_get s es) as [c'|] eqn:Es; [|now rewrite walk_cons, Ft, Et].
    rewrite walk_cons, Ft. destruct (String.eqb_spec s t) as [->|Hne].
    + rewrite entry_get_set_eq. rewrite Et in Es. injection Es as <-.
      apply IH; [exact Hq|exact Hpre].
    + rewrite entry_get_set_ne by assumption. now rewrite Et.
Qed.

Section Frames.
Context {P : Platform} {R : Type}.
Implicit Types (w : world R) (self : LocalStorageProvider.t) (p q : fpath).

Lemma fs_remove_keeps p w u w' q mt d :
  fs_remove p w = (Returned u, w') ->
  locate (w_fs w) q = inr (File mt d) ->
  is_prefix (segs p) (segs q) = false ->
  locate (w_fs w') q = inr (File mt d).
Proof.
  intros H Hq Hpre. destruct (locate (w_fs w) p) as [e|x] eqn:El.
  - unfold fs_remove, bind, gets in H. rewrite El in H.
    destruct e; try discriminate H. unfold ret in H. injection H as _ <-. exact Hq.
  - rewrite (fs_remove_found _ _ _ El) in H.
    destruct (list_eq_nil_dec (segs p)) as [Es|Es].
    { rewrite Es in Hpre. discriminate Hpre. }
    assert (w' = with_fs (fun r => del_at r (segs p)) w) as ->.
    { destruct (segs p); [congruence|]. now injection H. }
    change (w_fs (with_fs (fun r => del_at r (segs p)) w))
      with (del_at (w_fs w) (segs p)).
    apply locate_file in Hq as (Hfq & Hq & Hdq). apply locate_file.
    split; [exact Hfq|]. split; [|exact Hdq].
    now apply walk_del_frame.
Qed.

(** X8. A [delete] that returns removes nothing but the key's own two
    paths and what lies below them: every other file of the tree is
    where and what it was. *)
Theorem delete_leaves_other_files self key w r w' :
  LocalStorageProvider.delete self key w = (Returned r, w') ->
  forall q mt d,
    locate (w_fs w) q = inr (File mt d) ->
    is_prefix (segs (LocalStorageProvider._getFilePath self key)) (segs q) = false ->
    is_prefix (segs (LocalStorageProvider._getMetadataPath self key)) (segs q) = false ->
    locate (w_fs w') q = inr (File mt d).
Proof.
  intros H q mt d Hq Hf Hm. unfold LocalStorageProvider.delete in H. returned H.
  unfold ret in H. injection H as _ <-.
  eapply fs_remove_keeps; [eassumption| |exact Hm].
  eapply fs_remove_keeps; eassumption.
Qed.

(** X9. The [isTruncated] flag of a page says that the page is full: it
    is [true] exactly when the page holds at least [limit] objects (1000
    when [limit] is absent or 0), whether or not any object was left
    out. *)
Theorem list_truncation_flag self options w page w' :
  LocalStorageProvider.list self options w = (Returned page, w') ->
  lp_isTruncated page
  = (Z.of_nat (length (lp_objects page)) >=? LocalStorageProvider.effective_limit options)
  /\ lp_provider page = "local".
Proof.
  intros H. unfold LocalStorageProvider.list in H. returned H.
  pose proof (_findMetadataFiles_world _ _ _ _ Hstep) as ->.
  destruct (list_loop_spec self options (LocalStorageProvider.effective_limit options)
              a [] 0 w) as (added & Hrun & _).
  cbv zeta in Hstep0. rewrite Hrun in Hstep0. injection Hstep0 as <- <-.
  cbv beta iota zeta in H. unfold ret in H. injection H as <- _.
  cbn [lp_isTruncated lp_objects lp_provider].
  rewrite (Permutation_length (sort_by_perm LocalStorageProvider.key_le added)).
  split; reflexivity.
Qed.

(** X10. [getSignedUrl]: for a key whose content path is not there it
    throws ["Object 'key' not found"], the message as it is; otherwise it
    returns the [file://] URL of [path.resolve] of the content path, that
    is the path without the trailing slash a key may have given it,
    expiring [expires] seconds after the clock's reading, one hour when
    [expires] is absent or 0.  The file tree is never changed. *)
Theorem getSignedUrl_result self key options w :
  match locate (w_fs w) (LocalStorageProvider._getFilePath self key) with
  | inl _ =>
      LocalStorageProvider.getSignedUrl self key options w
      = (Thrown (Error ("Object '" +:+ key +:+ "' not found")), w)
  | inr _ =>
      exists w',
        LocalStorageProvider.getSignedUrl self key options w
        = (Returned
             (mkSignedUrl
                ("file://"
                 +:+ render_path
                       {| segs := segs (LocalStorageProvider._getFilePath self key);
                          dir_only := false |})
                (w_clock w (w_ticks w)
                 + match uo_expires options with
                   | Some 0 | None => 3600
                   | Some n => n
                   end * 1000)
                "local"), w')
        /\ w_fs w' = w_fs w
  end.
Proof.
  unfold LocalStorageProvider.getSignedUrl. cbv zeta.
  rewrite (bind_step _ _ _ _ _ (fs_pathExists_run _ w)).
  destruct (locate (w_fs w) (LocalStorageProvider._getFilePath self key)) as [e|x].
  - reflexivity.
  - cbn [negb]. erewrite (bind_step Date_now _ w) by reflexivity.
    destruct (uo_expires options) as [[| |]|]; eexists; split; reflexivity.
Qed.

Lemma rethrow_world {A} prefix (m : M (world R) A) w :
  (forall o w', m w = (o, w') -> w' = w) ->
  forall o w', rethrow prefix m w = (o, w') -> w' = w.
Proof.
  intros Hm o w'. unfold rethrow, try_catch, throw.
  destruct (m w) as [[a|e] w1]; pose proof (Hm _ _ eq_refl); congruence.
Qed.

(** X11. The reading methods never write: [exists], [getMetadata] and
    [list] leave the world as it is, whatever they return or throw. *)
Theorem reads_never_write self w :
  (forall key o w', LocalStorageProvider.exists_ self key w = (o, w') -> w' = w)
  /\ (forall key o w', LocalStorageProvider.getMetadata self key w = (o, w') -> w' = w)
  /\ (forall options o w', LocalStorageProvider.list self options w = (o, w') -> w' = w).
Proof.
  split; [|split].
  - intros key. apply rethrow_world. intros o w'. rewrite fs_pathExists_run. congruence.
  - intros key. apply rethrow_world. intros o w'. cbv zeta.
    rewrite (bind_step _ _ _ _ _ (fs_pathExists_run _ w)).
    destruct (locate (w_fs w) (LocalStorageProvider._getMetadataPath self key)) as [e|x] eqn:El;
      cbn [negb]; [unfold throw; congruence|].
    unfold fs_readFile, fs_stat, LocalStorageProvider.parse_json, bind, gets.
    rewrite El.
    destruct x as [mt text|es]; [|unfold throw; congruence].
    unfold ret at 1. destruct (JSON_parse text) as [v|]; [|unfold throw; congruence].
    unfold ret at 1.
    destruct (locate (w_fs w) (LocalStorageProvider._getFilePath self key));
      [unfold throw; congruence|].
    unfold ret at 1.
    destruct (js_member v "size"), (js_member v "hash"), (js_member v "contentType"),
      (js_member v "metadata"); unfold lift_sum, throw, ret; congruence.
  - intros options. apply rethrow_world. intros o w'.
    destruct (LocalStorageProvider._findMetadataFiles (LocalStorageProvider.metadataPath self) w)
      as [[metadataFiles|e] w1] eqn:Efind;
      pose proof (_findMetadataFiles_world _ _ _ _ Efind) as ->.
    + rewrite (bind_step _ _ _ _ _ Efind). cbv zeta.
      destruct (list_loop_spec self options (LocalStorageProvider.effective_limit options)
                  metadataFiles [] 0 w) as (added & Hrun & _).
      rewrite (bind_step _ _ _ _ _ Hrun). unfold ret. congruence.
    + rewrite (bind_thrown _ _ _ _ _ Efind). congruence.
Qed.

End Frames.




Lemma upload_of_bytes_returns_witness :
  exists r w',
    LocalStorageProvider.upload (P := RP) store "notes.txt" (Buffer "abc") JUndefined
      empty_store
    = (Returned r, w')
    /\ ur_size r = 3
    /\ LocalStorageProvider.exists_ store "notes.txt" w' = (Returned true, w').
Proof.
  destruct (upload_of_bytes_returns (P := RP) store "notes.txt" "abc" JUndefined empty_store)
    as (r & w' & Hup & _ & _ & Hsize & _ & Hex).
  - reflexivity.
  - discriminate.
  - reflexivity.
  - vm_compute. reflexivity.
  - vm_compute. reflexivity.
  - eexists. vm_compute. reflexivity.
  - intros [es H]. vm_compute in H. discriminate H.
  - eexists. vm_compute. reflexivity.
  - intros [es H]. vm_compute in H. discriminate H.
  - exists r, w'. split; [exact Hup|]. split; [exact Hsize | exact Hex].
Defined.

Definition downloaded : world unit :=
  snd (LocalStorageProvider.download store "hello.txt" "/tmp/out/hello.txt" uploaded).

Lemma download_returns_the_uploaded_bytes_witness :
  exists t,
    locate (w_fs downloaded) (mkPath ["tmp"; "out"; "hello.txt"] false)
    = inr (File t "0123456789").
Proof.
  destruct (download_returns_the_uploaded_bytes (P := RP) store "hello.txt"
              (Text "/tmp/report.txt") JUndefined "/tmp/out/hello.txt" empty_store
              (mkUploadResult true "hello.txt" "/srv/store/hello.txt"
                              (JStr "md5:0123456789") 10 4 "local")
              uploaded
              (mkDownloadResult true "hello.txt" "/tmp/out/hello.txt" 10 2 "local")
              downloaded)
    as (root0 & destination & t & Hmk & Hdest & Hfile & _).
  - reflexivity.
  - unfold uploaded. apply run_eq. vm_compute. reflexivity.
  - unfold downloaded. apply run_eq. vm_compute. reflexivity.
  - exists t. vm_compute in Hmk. injection Hmk as <-.
    vm_compute in Hdest. injection Hdest as <-. exact Hfile.
Defined.

Lemma delete_leaves_other_files_witness :
  locate (w_fs (snd (LocalStorageProvider.delete store "a.txt" two_objects)))
         (LocalStorageProvider._getFilePath store "b.txt")
  = inr (File 1700000000006 "bb").
Proof.
  apply (delete_leaves_other_files store "a.txt" two_objects
           (mkDeleteResult true "a.txt" "local")).
  - apply run_eq. vm_compute. reflexivity.
  - vm_compute. reflexivity.
  - reflexivity.
  - reflexivity.
Defined.

Lemma list_truncation_flag_witness :
  exists page,
    fst (LocalStorageProvider.list (P := RP) store (mkListOptions None (Some 2)) two_objects)
    = Returned page
    /\ length (lp_objects page) = 2%nat
    /\ lp_isTruncated page = true.
Proof.
  destruct (LocalStorageProvider.list (P := RP) store (mkListOptions None (Some 2)) two_objects)
    as [[page|e] w'] eqn:E.
  - destruct (list_truncation_flag (P := RP) store (mkListOptions None (Some 2))
                two_objects page w' E) as [Hflag _].
    assert (Hlen : length (lp_objects page) = 2%nat).
    { apply (f_equal fst) in E. cbn [fst] in E.
      assert (Hp : fst (LocalStorageProvider.list (P := RP) store
                          (mkListOptions None (Some 2)) two_objects)
                   = Returned page) by exact E.
      vm_compute in Hp. injection Hp as <-. reflexivity. }
    exists page. split; [reflexivity|]. split; [exact Hlen|].
    rewrite Hflag, Hlen. reflexivity.
  - exfalso. apply (f_equal fst) in E. vm_compute in E. discriminate E.
Defined.

(** ** The factory and the runner's loop over the providers *)

Section FactoryNames.
Context {R : Type}.
Variable classes : StorageProviderFactory.Classes R.

(** X12. [getAvailableProviders()] lists the keys of the [providers]
    object of [create], and a name whose lower-case form is on the list
    is never rejected: [create] constructs the class filed under it. *)
Theorem available_providers_are_constructed (providerName : string) (config : jsval)
    (w : world R) :
  StorageProviderFactory.getAvailableProviders = map fst StorageProviderFactory.providers
  /\ (In (toLowerCase providerName) StorageProviderFactory.getAvailableProviders ->
      exists c,
        entry_get (toLowerCase providerName) StorageProviderFactory.providers = Some c
        /\ StorageProviderFactory.create classes providerName config w
           = bind (StorageProviderFactory.construct classes c config)
                  (fun provider => ret (StorageProviderFactory.ProviderInstance c provider)) w).
Proof.
  split; [reflexivity|]. intros Hin.
  unfold StorageProviderFactory.create, StorageProviderFactory.providers_member.
  simpl in Hin.
  destruct Hin as [H|[H|[H|[H|[H|[]]]]]]; rewrite <- H; eexists; split; reflexivity.
Qed.

End FactoryNames.

Section RunLoop.
Context {P : Platform} {R : Type}.
Variable classes : StorageProviderFactory.Classes R.
Variable config : ConfigLoader.
Variable tmpdir : fpath.

(** The records one provider adds. *)
Definition group_of (providerName : string) (group : list TestResult) : Prop :=
  group <> [] /\ (length group <= 2)%nat
  /\ List.Forall (fun r => tr_provider r = providerName) group.

Lemma error_group providerName e : group_of providerName [error_result providerName e].
Proof. split; [discriminate|]. split; [simpl; lia|]. repeat constructor. Qed.

Lemma testProvider_group providerName testType verbose (s : runner R) :
  exists group,
    fst (TestRunner.testProvider classes config tmpdir providerName testType verbose s)
    = Returned tt
    /\ rn_results (snd (TestRunner.testProvider classes config tmpdir
                          providerName testType verbose s))
       = rn_results s ++ group
    /\ group_of providerName group.
Proof.
  unfold TestRunner.testProvider, try_catch.
  destruct (getProvider config providerName) as [e|providerConfig] eqn:Ecfg.
  { rewrite (bind_thrown _ _ s e s) by reflexivity.
    exists [error_result providerName e].
    split; [reflexivity|]. split; [reflexivity|apply error_group]. }
  rewrite (bind_step _ _ s providerConfig s) by reflexivity.
  destruct (StorageProviderFactory.create classes providerName providerConfig (rn_world s))
    as [[[c provider|v]|e] w1] eqn:Ecreate.
  3: { erewrite bind_thrown
         by (unfold TestRunner.io, StorageProviderFactory.createAndInitialize;
             erewrite bind_thrown by exact Ecreate; reflexivity).
       eexists. split; [reflexivity|]. split; [reflexivity|apply error_group]. }
  2: { erewrite bind_thrown
         by (unfold TestRunner.io, StorageProviderFactory.createAndInitialize;
             erewrite bind_step by exact Ecreate; reflexivity).
       eexists. split; [reflexivity|]. split; [reflexivity|apply error_group]. }
  destruct (p_initialize provider w1) as [[u|e] w2] eqn:Einit.
  2: { erewrite bind_thrown
         by (unfold TestRunner.io, StorageProviderFactory.createAndInitialize;
             erewrite bind_step by exact Ecreate; cbv beta iota;
             erewrite bind_thrown by exact Einit; reflexivity).
       eexists. split; [reflexivity|]. split; [reflexivity|apply error_group]. }
  erewrite bind_step
    by (unfold TestRunner.io, StorageProviderFactory.createAndInitialize;
        erewrite bind_step by exact Ecreate; cbv beta iota;
        erewrite bind_step by exact Einit; reflexivity).
  erewrite bind_step.
  2: { rewrite run_suite. erewrite bind_step.
       2: { apply run_tests_outcomes; [apply suite_names_distinct | reflexivity]. }
       reflexivity. }
  set (ran := test_outcomes _ _). simpl app.
  unfold TestRunner.with_tests; cbn [tr_provider tr_tests tr_error tr_overall tr_passRate].
  set (r := mkTestResult _ _ _ _ _).
  assert (Hr : tr_provider r = providerName) by reflexivity.
  erewrite bind_step by reflexivity.
  unfold TestRunner.io. cbn [rn_world rn_results rn_testKey].
  assert (Hkeep : rn_results (snd ran) = rn_results s).
  { subst ran. rewrite test_outcomes_keep_results by apply suite_keeps_results. reflexivity. }
  rewrite Hkeep.
  destruct (p_cleanup provider (rn_world (snd ran))) as [[[]|e] w3] eqn:Eclean;
    cbn [fst snd rn_results].
  - exists [r]. split; [reflexivity|]. split; [reflexivity|].
    split; [discriminate|]. split; [simpl; lia|]. repeat constructor.
  - exists [r; error_result providerName e]. split; [reflexivity|].
    split.
    { unfold TestRunner.push_result, modify, error_result. cbn [snd rn_results].
      now rewrite <- app_assoc. }
    split; [discriminate|]. split; [simpl; lia|]. repeat constructor.
Qed.

Lemma test_each_groups type verbose providersToTest : forall (s : runner R),
  exists groups,
    fst (TestRunner.test_each classes config tmpdir providersToTest type verbose s)
    = Returned tt
    /\ rn_results (snd (TestRunner.test_each classes config tmpdir
                          providersToTest type verbose s))
       = rn_results s ++ concat groups
    /\ List.Forall2 group_of providersToTest groups.
Proof.
  induction providersToTest as [|providerName rest IH]; intros s.
  - exists []. simpl. rewrite app_nil_r. repeat split. constructor.
  - destruct (testProvider_group providerName type verbose s) as (group & Hret & Hres & Hg).
    cbn [TestRunner.test_each].
    destruct (TestRunner.testProvider classes config tmpdir providerName type verbose s)
      as [o s1] eqn:Erun. cbn [fst snd] in Hret, Hres. subst o.
    rewrite !(bind_step _ _ _ _ _ Erun).
    destruct (IH s1) as (groups & Hret' & Hres' & Hgs).
    exists (group :: groups). split; [exact Hret'|].
    split; [|constructor; assumption].
    rewrite Hres', Hres. simpl. now rewrite app_assoc.
Qed.

(** X13. [run] never throws and skips no provider: with [provider] equal
    to ['all'] the providers of the configuration, otherwise the one
    named, each add one record of their own to the results (two when
    [cleanup()] throws after the suite), in the order they are tested,
    also after an earlier provider ended in an error. *)
Theorem run_records_every_provider provider type verbose (s : runner R) :
  let providersToTest :=
    if String.eqb provider "all" then getAllProviders config else [provider] in
  let result := TestRunner.run classes config tmpdir provider type verbose s in
  exists groups,
    fst result = Returned tt
    /\ rn_results (snd result) = rn_results s ++ concat groups
    /\ List.Forall2 (fun providerName group =>
                       group <> [] /\ (length group <= 2)%nat
                       /\ List.Forall (fun r => tr_provider r = providerName) group)
                    providersToTest groups.
Proof.
  intros providersToTest result. subst result. unfold TestRunner.run.
  fold providersToTest. exact (test_each_groups type verbose providersToTest s).
Qed.

End RunLoop.

(** ** Validation of a provider's configuration *)

Section Validation.
Context {R : Type}.
Implicit Types (w : world R) (config : jsval).

(** A configuration that is an object: its members are read without
    error. *)
Lemma member_of_object ps k : js_member (JObj ps) k = inr (default JUndefined (entry_get k ps)).
Proof. reflexivity. Qed.

Ltac by_members ps :=
  unfold AWSStorageProvider.validateConfig, GCPStorageProvider.validateConfig,
    AzureStorageProvider.validateConfig,
    Loader.validators_aws, Loader.validators_gcp, Loader.validators_azure,
    Loader.member_and, Loader.member_or,
    BaseStorageProvider.validateConfig, bind, lift_sum, ret, throw;
  cbn [js_falsy missing_fields AzureStorageProvider.config];
  rewrite ?member_of_object;
  repeat match goal with
         | |- context [js_falsy (default JUndefined (entry_get ?k ps))] =>
             let E := fresh "E" in
             destruct (js_falsy (default JUndefined (entry_get k ps))) eqn:E
         end;
  cbn [length Nat.ltb Nat.leb andb].

Ltac settle :=
  split;
  [ intros H; first [discriminate H | eexists; split; [reflexivity|assumption]]
  | intros (v & Hv & Hf);
    first [reflexivity | exfalso; injection Hv as <-; congruence] ].

(** X14. For AWS and for GCP the loader's validator and the provider's own
    [validateConfig] accept the same configurations: the provider's check
    returns exactly when the validator's result is truthy. *)
Theorem loader_and_provider_agree config w :
  (AWSStorageProvider.validateConfig config w = (Returned tt, w)
   <-> exists v, Loader.validators_aws config = inr v /\ js_falsy v = false)
  /\ (GCPStorageProvider.validateConfig config w = (Returned tt, w)
      <-> exists v, Loader.validators_gcp config = inr v /\ js_falsy v = false).
Proof.
  destruct config as [ | | b | n | s | l | ps].
  1-2: split; (split; [intros H; discriminate H|intros (v & Hv & _); discriminate Hv]).
  1-4: split; (split;
         [ intros H; exfalso; revert H;
           unfold AWSStorageProvider.validateConfig, GCPStorageProvider.validateConfig,
             BaseStorageProvider.validateConfig, bind, lift_sum, ret, throw;
           try destruct b; try destruct n; try destruct s; simpl; discriminate
         | intros (v & Hv & Hf); exfalso; injection Hv as <-; discriminate Hf ]).
  split; by_members ps; settle.
Qed.

(** X15. For Azure the two checks differ.  The provider's
    [validateConfig] returns exactly when the container name is truthy and
    either the connection string is, or the account name and the account
    key both are; whatever the loader's validator accepts it accepts too,
    but a configuration with a connection string and no account name
    passes the provider and fails the loader. *)
Theorem azure_validation_is_laxer_than_the_loader
    (ps : list (string * jsval)) (client : option (AzureStorageProvider.ContainerClient R)) w :
  let self := AzureStorageProvider.mkAzure (JObj ps) client in
  let truthy k := negb (js_falsy (prop_of ps k)) in
  (AzureStorageProvider.validateConfig self w = (Returned tt, w)
   <-> truthy "containerName"
       && (truthy "connectionString" || truthy "accountName" && truthy "accountKey")
       = true)
  /\ ((exists v, Loader.validators_azure (JObj ps) = inr v /\ js_falsy v = false) ->
      AzureStorageProvider.validateConfig self w = (Returned tt, w))
  /\ (truthy "containerName" = true -> truthy "connectionString" = true ->
      truthy "accountName" = false ->
      AzureStorageProvider.validateConfig self w = (Returned tt, w)
      /\ exists v, Loader.validators_azure (JObj ps) = inr v /\ js_falsy v = true).
Proof.
  intros self truthy. subst self truthy. unfold prop_of.
  by_members ps; cbn [negb andb orb];
    (split; [split; intros H; first [reflexivity | discriminate H]|]);
    (split;
     [ intros (v & Hv & Hf); first [reflexivity | exfalso; injection Hv as <-; congruence]
     | intros H1 H2 H3;
       first [ discriminate H1 | discriminate H2 | discriminate H3
             | split; [reflexivity|eexists; split; [reflexivity|assumption]] ] ]).
Qed.

End Validation.

Definition connection_string_only : list (string * jsval) :=
  [("containerName", JStr "poc");
   ("connectionString", JStr "UseDevelopmentStorage=true")].

Lemma azure_validation_is_laxer_than_the_loader_witness :
  AzureStorageProvider.validateConfig
    (AzureStorageProvider.mkAzure (JObj connection_string_only) None) (container_with [])
  = (Returned tt, container_with [])
  /\ Loader.validators_azure (JObj connection_string_only) = inr JUndefined.
Proof.
  destruct (azure_validation_is_laxer_than_the_loader connection_string_only None
              (container_with [])) as (_ & _ & H).
  destruct H as [Hprovider _]; [reflexivity|reflexivity|reflexivity|].
  split; [exact Hprovider|reflexivity].
Defined.

(** ** The Azure provider's [list] and [getMetadata], and the
    access-control test *)

Lemma includes_append needle a b :
  TestRunner.includes needle b = true -> TestRunner.includes needle (a +:+ b) = true.
Proof.
  intros H. induction a as [|c a IH]; [exact H|].
  change (String c a +:+ b) with (String c (a +:+ b)).
  cbn [TestRunner.includes]. rewrite IH. apply orb_true_r.
Qed.

Lemma not_found_is_recognised prefix key :
  TestRunner.includes "not found" (prefix +:+ "Object '" +:+ key +:+ "' not found") = true.
Proof. do 3 apply includes_append. reflexivity. Qed.

Section AzureReads.
Context {R : Type}.
Implicit Types (w : world R) (self : AzureStorageProvider.t R).

(** The loop stops early exactly when the listing has more blobs than
    [limit] allows; otherwise it runs to the listing's end. *)
Lemma take_blobs_spec limit ending blobs : forall objects count,
  AzureStorageProvider.take_blobs limit blobs ending objects count
  = if negb (Nat.eqb (length blobs) 0) && (limit <? count + Z.of_nat (length blobs))
    then inr (objects ++ map AzureStorageProvider.listed
                           (firstn (Z.to_nat (limit - count)) blobs),
              Z.max count limit)
    else match ending with
         | Some e => inl e
         | None => inr (objects ++ map AzureStorageProvider.listed blobs,
                        count + Z.of_nat (length blobs))
         end.
Proof.
  induction blobs as [|blob blobs IH]; intros objects count.
  - cbn [AzureStorageProvider.take_blobs length map Nat.eqb negb andb].
    rewrite Z.add_0_r, app_nil_r. reflexivity.
  - cbn [AzureStorageProvider.take_blobs length Nat.eqb negb andb].
    destruct (count >=? limit) eqn:E.
    + rewrite Z.geb_leb in E. apply Z.leb_le in E.
      replace (limit <? count + Z.of_nat (S (length blobs))) with true
        by (symmetry; apply Z.ltb_lt; lia).
      replace (Z.to_nat (limit - count)) with 0%nat by lia.
      cbn [firstn map]. rewrite app_nil_r. f_equal. f_equal. lia.
    + rewrite Z.geb_leb in E. apply Z.leb_gt in E.
      rewrite IH.
      replace (Z.to_nat (limit - count)) with (S (Z.to_nat (limit - (count + 1)))) by lia.
      cbn [firstn map]. rewrite <- !app_assoc. cbn [app].
      destruct blobs as [|b blobs'].
      * cbn [length Nat.eqb negb andb].
        replace (limit <? count + Z.of_nat 1) with false
          by (symmetry; apply Z.ltb_ge; lia).
        destruct ending; [reflexivity|]. cbn [map]. do 2 f_equal. lia.
      * cbn [length Nat.eqb negb andb].
        replace (count + 1 + Z.of_nat (S (length blobs')))
          with (count + Z.of_nat (S (S (length blobs')))) by lia.
        destruct (limit <? count + Z.of_nat (S (S (length blobs')))) eqn:El.
        -- f_equal. f_equal. apply Z.ltb_lt in El. lia.
        -- destruct ending; reflexivity.
Qed.

(** X16. [list] of the Azure provider, on an initialised instance, given
    what iterating the SDK's listing yields: when the listing has more
    blobs than [limit] (1000 when [limit] is absent or 0) the page holds
    the first [limit] of them, in the SDK's order, with [isTruncated]
    set, and an error the listing would have ended with is never met;
    otherwise the page holds them all, with [isTruncated] set exactly
    when there are [limit] of them, unless the listing ends with an
    error, which is thrown behind "Azure Blob Storage list failed: ". *)
Theorem azure_list_page listBlobsFlat self client options w blobs ending w1 :
  AzureStorageProvider.containerClient self = Some client ->
  listBlobsFlat client (match lo_prefix options with Some "" => None | o => o end) w
  = (Returned (blobs, ending), w1) ->
  let limit := match lo_limit options with
               | Some n => if n =? 0 then 1000 else n
               | None => 1000
               end in
  AzureStorageProvider.list listBlobsFlat self options w
  = if negb (Nat.eqb (length blobs) 0) && (limit <? Z.of_nat (length blobs))
    then (Returned (mkListPage (map AzureStorageProvider.listed
                                    (firstn (Z.to_nat limit) blobs))
                               true "azure"), w1)
    else match ending with
         | Some e =>
             (Thrown (Error ("Azure Blob Storage list failed: " +:+ message e)), w1)
         | None =>
             (Returned (mkListPage (map AzureStorageProvider.listed blobs)
                                   (Z.of_nat (length blobs) >=? limit) "azure"), w1)
         end.
Proof.
  intros Hclient Hiter limit. unfold AzureStorageProvider.list. cbv zeta. fold limit.
  rewrite Hclient.
  pose proof (take_blobs_spec limit ending blobs [] 0) as Htake.
  rewrite Z.sub_0_r in Htake. cbn [app] in Htake. rewrite !Z.add_0_l in Htake.
  destruct (negb (Nat.eqb (length blobs) 0) && (limit <? Z.of_nat (length blobs))).
  - apply rethrow_step. rewrite (bind_step _ _ _ _ _ Hiter). cbn [fst snd].
    rewrite Htake. rewrite (bind_step _ _ w1 _ w1) by reflexivity.
    cbv beta iota. unfold ret. do 3 f_equal.
    rewrite Z.geb_leb. apply Z.leb_le. lia.
  - destruct ending as [e|].
    + apply rethrow_thrown. rewrite (bind_step _ _ _ _ _ Hiter). cbn [fst snd].
      rewrite Htake. reflexivity.
    + apply rethrow_step. rewrite (bind_step _ _ _ _ _ Hiter). cbn [fst snd].
      rewrite Htake. reflexivity.
Qed.

(** X17. [getMetadata] of the Azure provider, on an initialised instance:
    what [getProperties] returns is handed on, with [{}] for metadata it
    does not have; an SDK error of status 404 becomes ["Object 'key' not
    found"], a message the runner's access-control probe recognises; any
    other error is thrown behind "Failed to get metadata: ". *)
Theorem azure_getMetadata_outcome getProperties self client key w :
  AzureStorageProvider.containerClient self = Some client ->
  match getProperties (AzureStorageProvider.getBlockBlobClient client key) w with
  | (Returned properties, w') =>
      AzureStorageProvider.getMetadata getProperties self key w
      = (Returned (mkObjectMetadata key
                     (AzureStorageProvider.bp_contentLength properties)
                     (AzureStorageProvider.bp_lastModified properties)
                     (AzureStorageProvider.bp_etag properties)
                     (AzureStorageProvider.bp_contentType properties)
                     (js_or (AzureStorageProvider.bp_metadata properties) (JObj []))
                     "azure"), w')
  | (Thrown e, w') =>
      exists thrown,
        AzureStorageProvider.getMetadata getProperties self key w = (Thrown thrown, w')
        /\ if decide (statusCode e = Some 404)
           then thrown = Error ("Object '" +:+ key +:+ "' not found")
                /\ TestRunner.includes "not found" (message thrown) = true
           else thrown = Error ("Failed to get metadata: " +:+ message e)
  end.
Proof.
  intros Hclient. unfold AzureStorageProvider.getMetadata, try_catch.
  unfold AzureStorageProvider.blockBlobClient. rewrite Hclient.
  rewrite (bind_step _ _ w _ w) by reflexivity.
  destruct (getProperties (AzureStorageProvider.getBlockBlobClient client key) w)
    as [[properties|e] w'] eqn:Eget.
  - rewrite (bind_step _ _ _ _ _ Eget). reflexivity.
  - rewrite (bind_thrown _ _ _ _ _ Eget).
    destruct (decide (statusCode e = Some 404)); eexists; (split; [reflexivity|]).
    + split; [reflexivity|]. exact (not_found_is_recognised "" key).
    + reflexivity.
Qed.

End AzureReads.

Section AccessControl.
Context {P : Platform} {R : Type}.

(** X18. The access-control test passes exactly when [getMetadata] of the
    probe key throws an error whose message contains "not found": a
    [getMetadata] that returns fails the test, and so does any other
    error, which is thrown on as it is.  On the local provider the test
    passes whenever the probe key has no sidecar. *)
Theorem testAccessControl_outcome (provider : Provider R) (s : runner R) :
  let after w := mkRunner w (rn_results s) (rn_testKey s) in
  match p_getMetadata provider "non-existent-object" (rn_world s) with
  | (Returned _, w') =>
      TestRunner.testAccessControl provider s
      = (Thrown (Error "Should not be able to access non-existent object"), after w')
  | (Thrown e, w') =>
      TestRunner.testAccessControl provider s
      = (if TestRunner.includes "not found" (message e) then Returned tt else Thrown e,
         after w')
  end
  /\ forall self : LocalStorageProvider.t,
       locate (w_fs (rn_world s))
              (LocalStorageProvider._getMetadataPath self "non-existent-object")
       = inl ENOENT ->
       TestRunner.testAccessControl (LocalStorageProvider.provider self) s
       = (Returned tt, s).
Proof.
  intros after.
  assert (Hgeneral : forall provider',
    match p_getMetadata provider' "non-existent-object" (rn_world s) with
    | (Returned _, w') =>
        TestRunner.testAccessControl provider' s
        = (Thrown (Error "Should not be able to access non-existent object"), after w')
    | (Thrown e, w') =>
        TestRunner.testAccessControl provider' s
        = (if TestRunner.includes "not found" (message e) then Returned tt else Thrown e,
           after w')
    end).
  { intros provider'. unfold TestRunner.testAccessControl, try_catch, bind, TestRunner.io.
    destruct (p_getMetadata provider' "non-existent-object" (rn_world s)) as [[m|e] w'].
    - reflexivity.
    - cbn [message]. destruct (TestRunner.includes "not found" (message e)); reflexivity. }
  split; [apply Hgeneral|].
  intros self Habsent. specialize (Hgeneral (LocalStorageProvider.provider self)).
  unfold LocalStorageProvider.provider in Hgeneral at 1. cbn [p_getMetadata] in Hgeneral.
  assert (Hget : LocalStorageProvider.getMetadata self "non-existent-object" (rn_world s)
                 = (Thrown (Error ("Failed to get metadata: Object '"
                                   +:+ "non-existent-object" +:+ "' not found")),
                    rn_world s)).
  { unfold LocalStorageProvider.getMetadata. apply rethrow_thrown with
      (e := LocalStorageProvider.not_found "non-existent-object").
    rewrite (bind_step _ _ _ _ _ (fs_pathExists_run _ _)). rewrite Habsent. reflexivity. }
  rewrite Hget in Hgeneral. rewrite Hgeneral. subst after. destruct s. reflexivity.
Qed.

End AccessControl.

(** ** The tests that clean up after themselves *)

Section Cleanup.
Context {P : Platform} {R : Type}.
Variable tmpdir : fpath.
Implicit Types (w : world R) (s : runner R) (self : LocalStorageProvider.t).

Lemma io_returned {A} (m : M (world R) A) s a s1 :
  TestRunner.io m s = (Returned a, s1) ->
  m (rn_world s) = (Returned a, rn_world s1).
Proof.
  unfold TestRunner.io. destruct (m (rn_world s)) as [o w1].
  intros H. injection H as -> <-. reflexivity.
Qed.

(** The key a test generates in the state it starts in. *)
Definition generated (prefix : string) w : string :=
  prefix +:+ "-" +:+ pretty (w_clock w (w_ticks w)) +:+ "-" +:+ w_random w (w_draws w).

Lemma generateTestKey_returned prefix w key w' :
  BaseStorageProvider.generateTestKey prefix w = (Returned key, w') ->
  key = generated prefix w.
Proof.
  unfold BaseStorageProvider.generateTestKey, bind, Date_now, Math_random36, ret.
  intros H. injection H as <- _. reflexivity.
Qed.

Lemma delete_returned_gone self key w r w' :
  LocalStorageProvider.delete self key w = (Returned r, w') ->
  locate (w_fs w') (LocalStorageProvider._getFilePath self key) = inl ENOENT.
Proof.
  intros H. unfold LocalStorageProvider.delete in H. returned H.
  unfold ret in H. injection H as _ <-.
  apply fs_remove_returned in Hstep as [HF _].
  apply fs_remove_returned in Hstep0 as [_ Hkeep]. exact (Hkeep _ HF).
Qed.

Lemma exists_gone self key w :
  locate (w_fs w) (LocalStorageProvider._getFilePath self key) = inl ENOENT ->
  LocalStorageProvider.exists_ self key w = (Returned false, w).
Proof.
  intros H. unfold LocalStorageProvider.exists_. apply rethrow_step.
  rewrite fs_pathExists_run, H. reflexivity.
Qed.

(** A test that passed has left the key absent. *)
Definition gone {A} self (testKey : string) (r : outcome A * runner R) : Prop :=
  match r with
  | (Returned _, s') =>
      LocalStorageProvider.exists_ self testKey (rn_world s') = (Returned false, rn_world s')
  | (Thrown _, _) => True
  end.

Ltac cleaned_up E :=
  returned E;
  repeat match goal with
         | H : TestRunner.io _ _ = (Returned _, _) |- _ => apply io_returned in H
         end;
  try match goal with
      | Hk : BaseStorageProvider.generateTestKey _ _ = (Returned _, _) |- _ =>
          apply generateTestKey_returned in Hk; subst
      end;
  unfold LocalStorageProvider.provider in *;
  cbn [p_delete p_upload p_download p_getMetadata p_getSignedUrl] in *.

(** X19. The tests that upload one object of their own (upload speed,
    download speed, large file, signed URL, metadata security) delete
    that same object: on the local provider, whenever such a test passes,
    the key it generated at its start does not exist afterwards. *)
Theorem sequential_tests_delete_their_object self s :
  let provider := LocalStorageProvider.provider self in
  let key prefix := generated prefix (rn_world s) in
  gone self (key "speed-test") (TestRunner.testUploadSpeed provider s)
  /\ gone self (key "download-speed-test") (TestRunner.testDownloadSpeed tmpdir provider s)
  /\ gone self (key "large-file-test") (TestRunner.testLargeFile provider s)
  /\ gone self (key "signed-url-test") (TestRunner.testSignedUrl provider s)
  /\ gone self (key "metadata-security-test") (TestRunner.testMetadataSecurity provider s).
Proof.
  intros provider key. subst provider key. unfold gone.
  split; [|split; [|split; [|split]]].
  - destruct (TestRunner.testUploadSpeed _ s) as [[m|e] s'] eqn:E; [|exact I].
    unfold TestRunner.testUploadSpeed in E. cleaned_up E.
    unfold ret in E. injection E as _ <-.
    apply exists_gone. eapply delete_returned_gone. eassumption.
  - destruct (TestRunner.testDownloadSpeed _ _ s) as [[m|e] s'] eqn:E; [|exact I].
    unfold TestRunner.testDownloadSpeed in E. cleaned_up E.
    unfold ret in E. injection E as _ <-.
    apply exists_gone.
    match goal with
    | Hr : fs_remove _ _ = (Returned _, _) |- _ =>
        apply fs_remove_returned in Hr as [_ Hkeep]; apply Hkeep
    end.
    eapply delete_returned_gone. eassumption.
  - destruct (TestRunner.testLargeFile _ s) as [[m|e] s'] eqn:E; [|exact I].
    unfold TestRunner.testLargeFile in E. cleaned_up E.
    unfold ret in E. injection E as _ <-.
    apply exists_gone. eapply delete_returned_gone. eassumption.
  - destruct (TestRunner.testSignedUrl _ s) as [[m|e] s'] eqn:E; [|exact I].
    unfold TestRunner.testSignedUrl in E. cleaned_up E.
    destruct (String.eqb _ ""); [discriminate E|]. cleaned_up E.
    unfold ret in E. injection E as _ <-.
    apply exists_gone. eapply delete_returned_gone. eassumption.
  - destruct (TestRunner.testMetadataSecurity _ s) as [[m|e] s'] eqn:E; [|exact I].
    unfold TestRunner.testMetadataSecurity in E. cleaned_up E.
    destruct (js_falsy _); [discriminate E|]. cleaned_up E.
    destruct (js_falsy _); [discriminate E|]. cleaned_up E.
    unfold ret in E. injection E as _ <-.
    apply exists_gone. eapply delete_returned_gone. eassumption.
Qed.

End Cleanup.

(** An SDK over a container that is a list of blob names. *)
Definition properties_of (name : string) : AzureStorageProvider.BlobProperties :=
  AzureStorageProvider.mkBlobProperties (JNum 1) 0 (JStr name) (JStr "text/plain")
                                        JUndefined.

Definition flat_listing (c : AzureStorageProvider.ContainerClient (list string))
    (prefix : option string)
  : M (world (list string)) (list AzureStorageProvider.BlobItem * option js_error) :=
  blobs <~ gets w_remote ;;
  ret (map (fun name => AzureStorageProvider.mkBlobItem name (properties_of name))
           (List.filter (fun name => match prefix with
                                     | Some p => starts_with p name
                                     | None => true
                                     end) blobs),
       None).

Definition properties_or_404 (client : AzureStorageProvider.BlockBlobClient (list string))
  : M (world (list string)) AzureStorageProvider.BlobProperties :=
  present <~ AzureStorageProvider.blob_exists client ;;
  if present : bool then ret (properties_of "blob") else throw blob_not_found.

Lemma azure_list_page_witness :
  exists page,
    AzureStorageProvider.list flat_listing azure (mkListOptions None (Some 2))
      (container_with ["a"; "b"; "c"])
    = (Returned page, container_with ["a"; "b"; "c"])
    /\ map ob_key (lp_objects page) = ["a"; "b"]
    /\ lp_isTruncated page = true.
Proof.
  eexists. split.
  - exact (azure_list_page flat_listing azure strict_container
             (mkListOptions None (Some 2)) (container_with ["a"; "b"; "c"])
             _ None _ eq_refl eq_refl).
  - split; reflexivity.
Defined.

Lemma azure_getMetadata_outcome_witness :
  AzureStorageProvider.getMetadata properties_or_404 azure "ghost" (container_with ["other"])
  = (Thrown (Error "Object 'ghost' not found"), container_with ["other"]).
Proof.
  pose proof (azure_getMetadata_outcome properties_or_404 azure strict_container "ghost"
                (container_with ["other"]) eq_refl) as H.
  cbv beta iota delta [properties_or_404 strict_container AzureStorageProvider.blob_exists
                       AzureStorageProvider.getBlockBlobClient bind gets ret throw
                       container_with w_remote has_blob existsb String.eqb Ascii.eqb
                       Bool.eqb orb blob_not_found] in H.
  destruct H as (thrown & Hthrown & Hmsg).
  destruct (decide (statusCode {| message := "The specified blob does not exist.";
                                  statusCode := Some 404 |} = Some 404)) as [_|Hne].
  - destruct Hmsg as [-> _]. exact Hthrown.
  - exfalso. apply Hne. reflexivity.
Defined.

Lemma sequential_tests_delete_their_object_witness :
  let after := snd (TestRunner.testSignedUrl local_provider fresh_runner) in
  fst (TestRunner.testSignedUrl local_provider fresh_runner) = Returned tt
  /\ LocalStorageProvider.exists_ store "signed-url-test-1700000000000-r0" (rn_world after)
     = (Returned false, rn_world after).
Proof.
  assert (fst (TestRunner.testSignedUrl local_provider fresh_runner) = Returned tt) as Hpass
    by (vm_compute; reflexivity).
  split; [exact Hpass|].
  destruct (sequential_tests_delete_their_object (P := RP) (mkPath ["tmp"] false)
              store fresh_runner) as (_ & _ & _ & H & _).
  assert (generated "signed-url-test" (rn_world fresh_runner)
          = "signed-url-test-1700000000000-r0") as Hkey by (vm_compute; reflexivity).
  rewrite Hkey in H. unfold local_provider in *.
  destruct (TestRunner.testSignedUrl (LocalStorageProvider.provider store) fresh_runner)
    as [[u|e] s'].
  - exact H.
  - discriminate Hpass.
Defined.
